(** * FineImgur: a caching image relay (index.js)

    A shallow embedding of the relay's cache subsystem, its placeholder
    renderer, its key derivation and its configuration loading, together with
    the properties the specification states about them.

    Conventions of the embedding.
    - A JavaScript string is a [string]; every character stands for one
      UTF-16 code unit below 256, so [String.length] is [.length].
    - Byte counts are [nat] where they are lengths of data and [Z] where they
      are configured limits or declared header values.
    - The filesystem calls of Node ([fs.*Sync]) act on a finite map from
      entry names of the cache directory to files; stream writes take effect
      in program order.
    - Node's own library functions that the program calls but does not define
      ([JSON.parse], [JSON.stringify], [Number], the [URL] constructor,
      [Date.prototype.toISOString]) are parameters gathered in the class
      [Runtime]; [path.extname] and the SHA-256 digest are written out. *)

From Stdlib Require Import ZArith Ascii Lia Bool.
From stdpp Require Import base option list gmap strings pretty sorting.

Local Open Scope Z_scope.

(** ** JavaScript strings *)

Module Js.

Definition dq : string := String "034" EmptyString.
Definition nl : string := String "010" EmptyString.

(** [s.replace(/c/g, r)] for a one-character pattern. *)
Fixpoint replaceChar (c : ascii) (r : string) (s : string) : string :=
  match s with
  | EmptyString => EmptyString
  | String a s' =>
      if Ascii.eqb a c then r +:+ replaceChar c r s'
      else String a (replaceChar c r s')
  end.

(** [s.split(sep)] for a one-character separator: never empty. *)
Fixpoint split (sep : ascii) (s : string) : list string :=
  match s with
  | EmptyString => [EmptyString]
  | String a s' =>
      if Ascii.eqb a sep then EmptyString :: split sep s'
      else match split sep s' with
           | w :: ws => String a w :: ws
           | [] => [String a EmptyString]
           end
  end.

(** White space and line terminators among the code units below 256:
    TAB, LF, VT, FF, CR, SP and NBSP. *)
Definition isWhite (a : ascii) : bool :=
  match a with
  | "009" | "010" | "011" | "012" | "013" | " " | "160" => true
  | _ => false
  end%char.

Fixpoint trimStart (s : string) : string :=
  match s with
  | EmptyString => EmptyString
  | String a s' => if isWhite a then trimStart s' else s
  end.

Fixpoint trimEnd (s : string) : string :=
  match s with
  | EmptyString => EmptyString
  | String a s' =>
      match trimEnd s' with
      | EmptyString => if isWhite a then EmptyString else String a EmptyString
      | t => String a t
      end
  end.

Definition trim (s : string) : string := trimEnd (trimStart s).

(** Truthiness of a string: the empty string is the only falsy one. *)
Definition truthy (s : string) : bool :=
  match s with EmptyString => false | _ => true end.

Fixpoint startsWith (p s : string) : bool :=
  match p, s with
  | EmptyString, _ => true
  | String a p', String b s' => Ascii.eqb a b && startsWith p' s'
  | String _ _, EmptyString => false
  end.

(** [s.endsWith(p)]: [p] is read from the position [length s - length p]. *)
Fixpoint dropChars (n : nat) (s : string) : string :=
  match n, s with
  | O, _ => s
  | S n', String _ s' => dropChars n' s'
  | S _, EmptyString => EmptyString
  end.

Definition endsWith (p s : string) : bool :=
  (String.length p <=? String.length s)%nat
  && String.eqb (dropChars (String.length s - String.length p) s) p.

(** [Buffer.byteLength(s)]: the UTF-8 length, one byte for a code unit
    below 128 and two for the others below 256. *)
Fixpoint byteLength (s : string) : nat :=
  match s with
  | EmptyString => O
  | String a s' =>
      ((if (nat_of_ascii a <? 128)%nat then 1 else 2) + byteLength s')%nat
  end.

(** [parts.join('')]. *)
Definition joinEmpty (parts : list string) : string :=
  foldr String.app EmptyString parts.

(** [s] occurs in [t] as a contiguous run of characters. *)
Definition occursIn (s t : string) : Prop :=
  ∃ pre post, t = pre +:+ s +:+ post.

(** Numbers that are integer multiples of one half: all the renderer
    computes from integer geometry.  [twice x] is the number doubled. *)
Record half := Half { twice : Z }.

Definition ofInt (z : Z) : half := Half (2 * z).
Definition div2 (z : Z) : half := Half z.
Definition hsub (a b : half) : half := Half (twice a - twice b).
Definition hadd (a b : half) : half := Half (twice a + twice b).

(** Number-to-string conversion of a template literal. *)
Definition showInt (z : Z) : string := pretty z.
Definition showHalf (x : half) : string :=
  if Z.even (twice x) then showInt (twice x / 2)
  else (if twice x <? 0 then "-" else EmptyString)
         +:+ showInt (Z.abs (twice x) / 2) +:+ ".5".

End Js.

(** ** Configuration (index.js lines 9-22) as the components read it *)

Record FailureImage := {
  width : Z;
  height : Z;
  background : string;
  textColor : string;
  accentColor : string
}.

Record Config := {
  maxCacheBytes : Z;
  maxDownloadBytes : Z;
  failureImage : FailureImage
}.

Definition defaultFailureImage : FailureImage :=
  {| width := 640; height := 360; background := "#1d1d1d";
     textColor := "#ffffff"; accentColor := "#ff4d4d" |}.

Definition defaultConfig : Config :=
  {| maxCacheBytes := 1024 * 1024 * 1024;
     maxDownloadBytes := 10 * 1024 * 1024;
     failureImage := defaultFailureImage |}.

(** ** Placeholder renderer (index.js lines 41-93) *)

Definition escapeXml (value : string) : string :=
  Js.replaceChar "'" "&#39;"
    (Js.replaceChar "034" "&quot;"
      (Js.replaceChar ">" "&gt;"
        (Js.replaceChar "<" "&lt;"
          (Js.replaceChar "&" "&amp;" value)))).

(** The [for (const word of words)] loop of [wrapText]: the state is the
    current [line] and the [lines] pushed so far. *)
Fixpoint wrapLoop (maxLength : nat) (words : list string)
    (line : string) (lines : list string) : string * list string :=
  match words with
  | [] => (line, lines)
  | word :: rest =>
      if (maxLength <? String.length (line +:+ word))%nat
      then wrapLoop maxLength rest (word +:+ " ") (lines ++ [Js.trim line])
      else wrapLoop maxLength rest (line +:+ word +:+ " ") lines
  end.

Definition wrapText (text : string) (maxLength : nat) : list string :=
  let words := Js.split " " text in
  let '(line, lines) := wrapLoop maxLength words EmptyString [] in
  if Js.truthy (Js.trim line) then lines ++ [Js.trim line] else lines.

Definition lineHeight : Z := 26.
Definition wrapColumns : nat := 42.

(** [startY = height / 2 - (lines.length * lineHeight) / 2]. *)
Definition startY (fi : FailureImage) (nlines : nat) : Js.half :=
  Js.hsub (Js.div2 (height fi)) (Js.div2 (Z.of_nat nlines * lineHeight)).

(** [y = startY + index * lineHeight]. *)
Definition lineY (fi : FailureImage) (nlines index : nat) : Js.half :=
  Js.hadd (startY fi nlines) (Js.ofInt (Z.of_nat index * lineHeight)).

(** [name="value"], the form of every attribute in the template. *)
Definition attr (name value : string) : string :=
  name +:+ "=" +:+ Js.dq +:+ value +:+ Js.dq.

Definition textSpan (fi : FailureImage) (nlines : nat)
    (index : nat) (line : string) : string :=
  "<text " +:+ attr "x" (Js.showHalf (Js.div2 (width fi)))
  +:+ " " +:+ attr "y" (Js.showHalf (lineY fi nlines index))
  +:+ " " +:+ attr "text-anchor" "middle" +:+ ">"
  +:+ line +:+ "</text>".

(** [lines.map((line, index) => ...).join('')]. *)
Definition textSpans (fi : FailureImage) (lines : list string) : string :=
  Js.joinEmpty (imap (textSpan fi (length lines)) lines).

(** The template literal, line by line. *)
Definition xmlDeclaration : string :=
  "<?xml " +:+ attr "version" "1.0" +:+ " " +:+ attr "encoding" "UTF-8"
  +:+ "?>" +:+ Js.nl.

Definition svgOpen (fi : FailureImage) : string :=
  "<svg " +:+ attr "xmlns" "http://www.w3.org/2000/svg"
  +:+ " " +:+ attr "width" (Js.showInt (width fi))
  +:+ " " +:+ attr "height" (Js.showInt (height fi)) +:+ ">" +:+ Js.nl.

Definition backgroundRect (fi : FailureImage) : string :=
  "  <rect " +:+ attr "width" "100%" +:+ " " +:+ attr "height" "100%"
  +:+ " " +:+ attr "fill" (background fi) +:+ " />" +:+ Js.nl.

Definition frameRect (fi : FailureImage) : string :=
  "  <rect " +:+ attr "x" "20" +:+ " " +:+ attr "y" "20"
  +:+ " " +:+ attr "width" (Js.showInt (width fi - 40))
  +:+ " " +:+ attr "height" (Js.showInt (height fi - 40))
  +:+ " " +:+ attr "rx" "24" +:+ " " +:+ attr "fill" "#2a2a2a"
  +:+ " " +:+ attr "stroke" (accentColor fi)
  +:+ " " +:+ attr "stroke-width" "3" +:+ " />" +:+ Js.nl.

Definition titleText (fi : FailureImage) : string :=
  "  <text " +:+ attr "x" (Js.showHalf (Js.div2 (width fi)))
  +:+ " " +:+ attr "y"
                (Js.showHalf (Js.hsub (Js.div2 (height fi)) (Js.ofInt 60)))
  +:+ " " +:+ attr "text-anchor" "middle"
  +:+ " " +:+ attr "fill" (accentColor fi)
  +:+ " " +:+ attr "font-family" "Arial, sans-serif"
  +:+ " " +:+ attr "font-size" "26"
  +:+ " " +:+ attr "font-weight" "bold"
  +:+ ">FineImgur</text>" +:+ Js.nl.

Definition groupOpen (fi : FailureImage) : string :=
  "  <g " +:+ attr "fill" (textColor fi)
  +:+ " " +:+ attr "font-family" "Arial, sans-serif"
  +:+ " " +:+ attr "font-size" "18" +:+ ">" +:+ Js.nl +:+ "    ".

(** Everything of the document before the text spans. *)
Definition svgHead (fi : FailureImage) : string :=
  xmlDeclaration +:+ svgOpen fi +:+ backgroundRect fi +:+ frameRect fi
  +:+ titleText fi +:+ groupOpen fi.

Definition svgTail : string :=
  Js.nl +:+ "  </g>" +:+ Js.nl +:+ "</svg>".

Definition renderFailureSvg (cfg : Config) (reason : string) : string :=
  let fi := failureImage cfg in
  let safeReason := escapeXml reason in
  let lines := wrapText safeReason wrapColumns in
  svgHead fi +:+ textSpans fi lines +:+ svgTail.


(** ** JSON values and the Node runtime interface *)

#[local] Set Warnings "-register-all".

Inductive jsval :=
| JNull
| JBool (b : bool)
| JNum (z : Z)
| JStr (s : string)
| JArr (l : list jsval)
| JObj (m : gmap string jsval).

(** The parsed target of a request: [new URL(req.url, config.imgurBaseUrl)]. *)
Record target := {
  pathname : string;
  search : string;
  protocol : string
}.

(** What the program takes from Node's library: [None] stands for a thrown
    exception of [JSON.parse] or of the [URL] constructor, and for a
    non-finite result of [Number]; a declared length is a whole number. *)
Class Runtime := {
  JSON_parse : string → option jsval;
  JSON_stringify : jsval → string;
  toNumber : string → option Z;
  resolveUrl : string → option target;
  toISOString : Z → string
}.

Module Jv.

Definition truthy (v : jsval) : bool :=
  match v with
  | JNull => false
  | JBool b => b
  | JNum z => negb (z =? 0)
  | JStr s => Js.truthy s
  | JArr _ | JObj _ => true
  end.

(** [v.key] for a property name that is not an index: [None] is
    [undefined]. *)
Definition getProp (v : jsval) (key : string) : option jsval :=
  match v with
  | JObj m => m !! key
  | _ => None
  end.

(** The own enumerable properties that an object spread [{...v}] copies. *)
Definition ownProps (v : jsval) : gmap string jsval :=
  match v with
  | JObj m => m
  | JArr l => list_to_map (imap (λ i x, (pretty i, x)) l)
  | JStr s =>
      list_to_map
        (imap (λ i c, (pretty i, JStr (String c EmptyString)))
           (String.list_ascii_of_string s))
  | JNull | JBool _ | JNum _ => ∅
  end.

(** [{...a, ...b}]: the properties of [b] win. *)
Definition spread (a : gmap string jsval) (b : jsval) : gmap string jsval :=
  ownProps b ∪ a.

End Jv.

(** ** Configuration loading (index.js lines 9-32) *)

Definition DEFAULT_failureImage : gmap string jsval :=
  <["width" := JNum 640]>
  (<["height" := JNum 360]>
  (<["background" := JStr "#1d1d1d"]>
  (<["textColor" := JStr "#ffffff"]>
  (<["accentColor" := JStr "#ff4d4d"]> ∅)))).

Definition DEFAULT_CONFIG : gmap string jsval :=
  <["port" := JNum 3000]>
  (<["imgurBaseUrl" := JStr "https://i.imgur.com"]>
  (<["cacheDir" := JStr "./cache"]>
  (<["maxCacheBytes" := JNum (1024 * 1024 * 1024)]>
  (<["maxDownloadBytes" := JNum (10 * 1024 * 1024)]>
  (<["failureImage" := JObj DEFAULT_failureImage]> ∅))))).

(** [configFile] is what [fs.readFileSync(CONFIG_PATH, 'utf8')] returns, or
    [None] when it throws. *)
Definition loadConfig `{Runtime} (configFile : option string)
    : gmap string jsval :=
  match configFile with
  | None => DEFAULT_CONFIG
  | Some raw =>
      match JSON_parse raw with
      | None => DEFAULT_CONFIG
      | Some parsed => Jv.spread DEFAULT_CONFIG parsed
      end
  end.

(** ** SHA-256 ([crypto.createHash('sha256').update(s).digest('hex')]) *)

Module Sha256.

Definition K : list Z :=
  [1116352408; 1899447441; 3049323471; 3921009573; 961987163; 1508970993;
   2453635748; 2870763221; 3624381080; 310598401; 607225278; 1426881987;
   1925078388; 2162078206; 2614888103; 3248222580; 3835390401; 4022224774;
   264347078; 604807628; 770255983; 1249150122; 1555081692; 1996064986;
   2554220882; 2821834349; 2952996808; 3210313671; 3336571891; 3584528711;
   113926993; 338241895; 666307205; 773529912; 1294757372; 1396182291;
   1695183700; 1986661051; 2177026350; 2456956037; 2730485921; 2820302411;
   3259730800; 3345764771; 3516065817; 3600352804; 4094571909; 275423344;
   430227734; 506948616; 659060556; 883997877; 958139571; 1322822218;
   1537002063; 1747873779; 1955562222; 2024104815; 2227730452; 2361852424;
   2428436474; 2756734187; 3204031479; 3329325298].

(** The eight working registers, each a 32-bit word. *)
Record regs := Regs { ra : Z; rb : Z; rc : Z; rd : Z;
                      re : Z; rf : Z; rg : Z; rh : Z }.

Definition H0 : regs :=
  Regs 1779033703 3144134277 1013904242 2773480762
       1359893119 2600822924 528734635 1541459225.

Definition mask : Z := 4294967295.
Definition add (a b : Z) : Z := (a + b) mod 4294967296.
Definition rotr (n x : Z) : Z :=
  Z.lor (Z.shiftr x n) (Z.land (Z.shiftl x (32 - n)) mask).
Definition ch (x y z : Z) : Z :=
  Z.lxor (Z.land x y) (Z.land (Z.lxor x mask) z).
Definition maj (x y z : Z) : Z :=
  Z.lxor (Z.lxor (Z.land x y) (Z.land x z)) (Z.land y z).
Definition bigSigma0 (x : Z) : Z :=
  Z.lxor (Z.lxor (rotr 2 x) (rotr 13 x)) (rotr 22 x).
Definition bigSigma1 (x : Z) : Z :=
  Z.lxor (Z.lxor (rotr 6 x) (rotr 11 x)) (rotr 25 x).
Definition smallSigma0 (x : Z) : Z :=
  Z.lxor (Z.lxor (rotr 7 x) (rotr 18 x)) (Z.shiftr x 3).
Definition smallSigma1 (x : Z) : Z :=
  Z.lxor (Z.lxor (rotr 17 x) (rotr 19 x)) (Z.shiftr x 10).

(** The UTF-8 bytes of a string of code units below 256. *)
Fixpoint utf8 (s : string) : list Z :=
  match s with
  | EmptyString => []
  | String a s' =>
      let c := Z.of_nat (nat_of_ascii a) in
      if c <? 128 then c :: utf8 s'
      else Z.lor 192 (Z.shiftr c 6) :: Z.lor 128 (Z.land c 63) :: utf8 s'
  end.

Definition be64 (n : Z) : list Z :=
  map (λ i, Z.land (Z.shiftr n (8 * i)) 255) [7; 6; 5; 4; 3; 2; 1; 0].

Definition pad (msg : list Z) : list Z :=
  let len := Z.of_nat (length msg) in
  msg ++ [128] ++ replicate (Z.to_nat ((55 - len) mod 64)) 0
      ++ be64 (8 * len).

Fixpoint chunks {A} (n : nat) (fuel : nat) (l : list A) : list (list A) :=
  match fuel, l with
  | S fuel', _ :: _ => take n l :: chunks n fuel' (drop n l)
  | _, _ => []
  end.

Definition word (bytes : list Z) : Z :=
  foldl (λ acc b, Z.lor (Z.shiftl acc 8) b) 0 bytes.

Definition blocks (bytes : list Z) : list (list Z) :=
  chunks 16 (length bytes) (map word (chunks 4 (length bytes) bytes)).

Fixpoint schedule (n : nat) (w : list Z) : list Z :=
  match n with
  | O => w
  | S n' =>
      let t := length w in
      let at_ (k : nat) := nth (t - k) w 0 in
      schedule n'
        (w ++ [add (add (smallSigma1 (at_ 2%nat)) (at_ 7%nat))
                   (add (smallSigma0 (at_ 15%nat)) (at_ 16%nat))])
  end.

Definition round (r : regs) (kw : Z * Z) : regs :=
  let t1 := add (add (add (rh r) (bigSigma1 (re r)))
                     (add (ch (re r) (rf r) (rg r)) kw.1)) kw.2 in
  let t2 := add (bigSigma0 (ra r)) (maj (ra r) (rb r) (rc r)) in
  Regs (add t1 t2) (ra r) (rb r) (rc r) (add (rd r) t1) (re r) (rf r) (rg r).

Definition compress (h : regs) (block : list Z) : regs :=
  let r := foldl round h (zip K (schedule 48 block)) in
  Regs (add (ra h) (ra r)) (add (rb h) (rb r)) (add (rc h) (rc r))
       (add (rd h) (rd r)) (add (re h) (re r)) (add (rf h) (rf r))
       (add (rg h) (rg r)) (add (rh h) (rh r)).

Definition digest (s : string) : regs :=
  foldl compress H0 (blocks (pad (utf8 s))).

Definition hexDigit (n : Z) : ascii :=
  match n with
  | 0 => "0" | 1 => "1" | 2 => "2" | 3 => "3" | 4 => "4" | 5 => "5"
  | 6 => "6" | 7 => "7" | 8 => "8" | 9 => "9" | 10 => "a" | 11 => "b"
  | 12 => "c" | 13 => "d" | 14 => "e" | _ => "f"
  end%char.

Definition nibble (w : Z) (i : Z) : ascii :=
  hexDigit (Z.land (Z.shiftr w (4 * i)) 15).

Definition hex8 (w : Z) (rest : string) : string :=
  String (nibble w 7) (String (nibble w 6) (String (nibble w 5)
  (String (nibble w 4) (String (nibble w 3) (String (nibble w 2)
  (String (nibble w 1) (String (nibble w 0) rest))))))).

Definition hex (r : regs) : string :=
  hex8 (ra r) (hex8 (rb r) (hex8 (rc r) (hex8 (rd r)
  (hex8 (re r) (hex8 (rf r) (hex8 (rg r) (hex8 (rh r) EmptyString))))))).

End Sha256.

Definition sha256_hex (s : string) : string := Sha256.hex (Sha256.digest s).

(** ** Key derivation (index.js lines 105-113) *)

(** [path.extname] of Node's posix flavour: one backward scan over the
    characters, with the scanner's five variables as the state. *)
Record extState := {
  startDot : option nat;
  startPart : nat;
  endPos : option nat;
  matchedSlash : bool;
  preDotState : Z
}.

Definition extInit : extState :=
  {| startDot := None; startPart := 0%nat; endPos := None;
     matchedSlash := true; preDotState := 0 |}.

(** [rev] lists the characters from the last index [n - 1] down to 0;
    [n] is the number of characters still to visit. *)
Fixpoint extScan (rev : list ascii) (n : nat) (st : extState) : extState :=
  match rev, n with
  | code :: rest, S i =>
      if Ascii.eqb code "/" then
        if negb (matchedSlash st) then
          {| startDot := startDot st; startPart := S i; endPos := endPos st;
             matchedSlash := matchedSlash st; preDotState := preDotState st |}
        else extScan rest i st
      else
        let st1 :=
          match endPos st with
          | None =>
              {| startDot := startDot st; startPart := startPart st;
                 endPos := Some (S i); matchedSlash := false;
                 preDotState := preDotState st |}
          | Some _ => st
          end in
        let st2 :=
          if Ascii.eqb code "." then
            match startDot st1 with
            | None =>
                {| startDot := Some i; startPart := startPart st1;
                   endPos := endPos st1; matchedSlash := matchedSlash st1;
                   preDotState := preDotState st1 |}
            | Some _ =>
                {| startDot := startDot st1; startPart := startPart st1;
                   endPos := endPos st1; matchedSlash := matchedSlash st1;
                   preDotState := 1 |}
            end
          else
            match startDot st1 with
            | Some _ =>
                {| startDot := startDot st1; startPart := startPart st1;
                   endPos := endPos st1; matchedSlash := matchedSlash st1;
                   preDotState := -1 |}
            | None => st1
            end in
        extScan rest i st2
  | _, _ => st
  end.

Definition extname (path : string) : string :=
  let st := extScan (reverse (String.list_ascii_of_string path))
                    (String.length path) extInit in
  match startDot st, endPos st with
  | Some sd, Some e =>
      if (preDotState st =? 0)
         || ((preDotState st =? 1) && (sd =? e - 1)%nat
             && (sd =? startPart st + 1)%nat)
      then EmptyString
      else String.substring sd (e - sd) path
  | _, _ => EmptyString
  end.

Definition cacheKeyFromPath (requestPath : string) : string :=
  let hash := sha256_hex requestPath in
  let extension := extname requestPath in
  hash +:+ extension.

Definition metadataPathFor (cacheFile : string) : string :=
  cacheFile +:+ ".json".

Definition tempFileFor (cacheFile : string) : string :=
  cacheFile +:+ ".tmp".

(** ** The cache directory and the effects of the program *)

(** An entry of the cache directory.  [readable] is false for an entry that
    cannot be opened for reading, [locked] is true for one that cannot be
    removed or replaced (a subdirectory, a read-only or busy file). *)
Record file := File {
  content : string;
  mtime : Z;
  readable : bool;
  locked : bool
}.

Definition size (f : file) : nat := String.length (content f).

(** Every call that leaves the program, in the order it is made.  The [nat]
    of a response or upstream effect names the request it belongs to. *)
Inductive effect :=
| FsReaddir
| FsStat (name : string)
| FsExists (name : string)
| FsReadFile (name : string)
| FsWriteFile (name : string) (data : string)
| FsUnlink (name : string)
| FsRename (src dst : string)
| FsUtimes (name : string)
| FsCreateWriteStream (name : string)
| FsStreamWrite (name : string) (chunk : string)
| FsStreamEnd (name : string)
| FsStreamDestroy (name : string)
| ResWriteHead (rq : nat) (status : Z) (headers : list (string * jsval))
| ResEnd (rq : nat) (body : string)
| ResPipeFile (rq : nat) (name : string)
| UpRequest (rq : nat)
| UpReceive (rq : nat) (bytes : nat)
| UpResume (rq : nat)
| UpDestroy (rq : nat)
| ConsoleWarn (what : string) (name : string) (message : string).

Record world := World {
  disk : gmap string file;
  clock : Z;
  trace : list effect
}.

(** Computations that read and change the world and may throw. *)
Inductive result (A : Type) :=
| Ok (a : A) (w : world)
| Threw (message : string) (w : world).
Arguments Ok {A} a w.
Arguments Threw {A} message w.

Definition M (A : Type) : Type := world → result A.

Definition ret {A} (a : A) : M A := λ w, Ok a w.

Definition bind {A B} (m : M A) (k : A → M B) : M B :=
  λ w, match m w with
       | Ok a w' => k a w'
       | Threw e w' => Threw e w'
       end.

Definition throw {A} (message : string) : M A := λ w, Threw message w.

(** [try { m } catch (error) { ... }]: the caught message or the value. *)
Definition try {A} (m : M A) : M (string + A) :=
  λ w, match m w with
       | Ok a w' => Ok (inr a) w'
       | Threw e w' => Ok (inl e) w'
       end.

Definition emit (e : effect) : M unit :=
  λ w, Ok tt (World (disk w) (clock w) (trace w ++ [e])).

Definition getDisk : M (gmap string file) := λ w, Ok (disk w) w.
Definition getClock : M Z := λ w, Ok (clock w) w.
Definition setDisk (d : gmap string file) : M unit :=
  λ w, Ok tt (World d (clock w) (trace w)).

(** [let* x := m in k] runs [m] and then [k] on its value; [m ;; k] is the
    same for a value that is not used. *)
Declare Scope relay_scope.
Delimit Scope relay_scope with relay.
Notation "'let*' x ':=' m 'in' k" := (bind m (λ x, k))
  (at level 10, x name, m at level 100, k at level 200, only parsing)
  : relay_scope.
Notation "m ;; k" := (bind m (λ _, k))
  (at level 100, k at level 200, right associativity, only parsing)
  : relay_scope.
Open Scope relay_scope.

Fixpoint mapM {A B} (f : A → M B) (l : list A) : M (list B) :=
  match l with
  | [] => ret []
  | x :: rest => let* y := f x in let* ys := mapM f rest in ret (y :: ys)
  end.

(** *** The [fs] calls *)

Definition readdirSync : M (list string) :=
  emit FsReaddir ;;
  let* d := getDisk in
  ret ((map_to_list d).*1).

Definition existsSync (name : string) : M bool :=
  emit (FsExists name) ;;
  let* d := getDisk in
  ret (bool_decide (is_Some (d !! name))).

Definition statSync (name : string) : M file :=
  emit (FsStat name) ;;
  let* d := getDisk in
  match d !! name with
  | Some f => ret f
  | None => throw "ENOENT"
  end.

Definition readFileSync (name : string) : M string :=
  emit (FsReadFile name) ;;
  let* d := getDisk in
  match d !! name with
  | Some f => if readable f then ret (content f) else throw "EACCES"
  | None => throw "ENOENT"
  end.

Definition writeFileSync (name data : string) : M unit :=
  emit (FsWriteFile name data) ;;
  let* d := getDisk in
  let* now := getClock in
  match d !! name with
  | Some f =>
      if locked f then throw "EACCES"
      else setDisk (<[name := File data now (readable f) false]> d)
  | None => setDisk (<[name := File data now true false]> d)
  end.

Definition unlinkSync (name : string) : M unit :=
  emit (FsUnlink name) ;;
  let* d := getDisk in
  match d !! name with
  | Some f => if locked f then throw "EPERM" else setDisk (delete name d)
  | None => throw "ENOENT"
  end.

Definition renameSync (src dst : string) : M unit :=
  emit (FsRename src dst) ;;
  let* d := getDisk in
  match d !! src with
  | Some f =>
      match d !! dst with
      | Some g =>
          if locked g then throw "EPERM"
          else setDisk (<[dst := f]> (delete src d))
      | None => setDisk (<[dst := f]> (delete src d))
      end
  | None => throw "ENOENT"
  end.

(** [fs.utimesSync(name, new Date(), new Date())]. *)
Definition utimesSync (name : string) : M unit :=
  emit (FsUtimes name) ;;
  let* d := getDisk in
  let* now := getClock in
  match d !! name with
  | Some f =>
      setDisk (<[name := File (content f) now (readable f) (locked f)]> d)
  | None => throw "ENOENT"
  end.

(** [fs.createWriteStream(name)]: the entry is created empty or truncated. *)
Definition createWriteStream (name : string) : M unit :=
  emit (FsCreateWriteStream name) ;;
  let* d := getDisk in
  let* now := getClock in
  match d !! name with
  | Some f =>
      if locked f then throw "EACCES"
      else setDisk (<[name := File EmptyString now (readable f) false]> d)
  | None => setDisk (<[name := File EmptyString now true false]> d)
  end.

(** [fileStream.write(chunk)]: appends to the entry while it is there. *)
Definition appendChunk (now : Z) (chunk : string) (f : file) : file :=
  File (content f +:+ chunk) now (readable f) (locked f).

Definition streamWrite (name chunk : string) : M unit :=
  emit (FsStreamWrite name chunk) ;;
  let* d := getDisk in
  let* now := getClock in
  setDisk (alter (appendChunk now chunk) name d).

Definition streamEnd (name : string) : M unit := emit (FsStreamEnd name).
Definition streamDestroy (name : string) : M unit :=
  emit (FsStreamDestroy name).

(** ** Metadata store (index.js lines 115-126) *)

(** [null] is [JNull]. *)
Definition readMetadata `{Runtime} (cacheFile : string) : M jsval :=
  let* r := try (let* raw := readFileSync (metadataPathFor cacheFile) in
                 match JSON_parse raw with
                 | Some v => ret v
                 | None => throw "SyntaxError"
                 end) in
  match r with
  | inr v => ret v
  | inl _ => ret JNull
  end.

Definition writeMetadata `{Runtime} (cacheFile : string) (metadata : jsval)
    : M unit :=
  writeFileSync (metadataPathFor cacheFile) (JSON_stringify metadata).

(** ** Eviction policy (index.js lines 128-160) *)

(** [{ file, fullPath, size, mtime }]; [fullPath] is [file] inside the cache
    directory. *)
Record cacheItem := CacheItem {
  itemFile : string;
  itemSize : nat;
  itemMtime : Z
}.

Definition isPayloadName (name : string) : bool :=
  negb (Js.endsWith ".json" name).

Definition listFiles : M (list cacheItem) :=
  let* names := readdirSync in
  mapM (λ name, let* stats := statSync name in
                ret (CacheItem name (size stats) (mtime stats)))
       (filter (λ name, isPayloadName name = true) names).

(** [files.reduce((sum, item) => sum + item.size, 0)]. *)
Definition totalSizeOf (files : list cacheItem) : Z :=
  foldl (λ sum item, sum + Z.of_nat (itemSize item)) 0 files.

(** [files.sort((a, b) => a.mtime - b.mtime)]: a stable sort. *)
Fixpoint insertByMtime (x : cacheItem) (l : list cacheItem) : list cacheItem :=
  match l with
  | [] => [x]
  | y :: rest =>
      if itemMtime x <=? itemMtime y then x :: y :: rest
      else y :: insertByMtime x rest
  end.

Definition sortByMtime (l : list cacheItem) : list cacheItem :=
  foldr insertByMtime [] l.

(** The [for (const entry of files)] loop with its running [currentSize]. *)
Fixpoint evictLoop (cfg : Config) (entries : list cacheItem)
    (currentSize : Z) : M Z :=
  match entries with
  | [] => ret currentSize
  | entry :: rest =>
      if currentSize <=? maxCacheBytes cfg then ret currentSize
      else
        let* r := try (unlinkSync (itemFile entry) ;;
                       let metaPath := metadataPathFor (itemFile entry) in
                       let* ex := existsSync metaPath in
                       if ex then unlinkSync metaPath else ret tt) in
        match r with
        | inr _ => evictLoop cfg rest (currentSize - Z.of_nat (itemSize entry))
        | inl msg =>
            emit (ConsoleWarn "Failed to evict cache file:"
                    (itemFile entry) msg) ;;
            evictLoop cfg rest currentSize
        end
  end.

Definition enforceCacheLimit (cfg : Config) : M unit :=
  let* files := listFiles in
  let totalSize := totalSizeOf files in
  if totalSize <=? maxCacheBytes cfg then ret tt
  else
    evictLoop cfg (sortByMtime files) totalSize ;; ret tt.

(** ** Failure responses (index.js lines 95-103) *)

Definition failureHeaders (svg : string) : list (string * jsval) :=
  [("Content-Type", JStr "image/svg+xml; charset=utf-8");
   ("Cache-Control", JStr "no-store");
   ("Content-Length", JNum (Z.of_nat (Js.byteLength svg)))].

(** [statusCode] is [None] when the caller leaves the third argument out. *)
Definition sendFailure (cfg : Config) (rq : nat) (reason : string)
    (statusCode : option Z) : M unit :=
  let statusCode := default 413 statusCode in
  let svg := renderFailureSvg cfg reason in
  emit (ResWriteHead rq statusCode (failureHeaders svg)) ;;
  emit (ResEnd rq svg).

(** ** Cache lookup (index.js lines 162-182) *)

(** [v || fallback] for a property that may be [undefined]. *)
Definition orElse (v : option jsval) (fallback : jsval) : jsval :=
  match v with
  | Some x => if Jv.truthy x then x else fallback
  | None => fallback
  end.

Definition successHeaders (contentType : jsval) (length : nat)
    : list (string * jsval) :=
  [("Content-Type", contentType);
   ("Content-Length", JNum (Z.of_nat length));
   ("Cache-Control", JStr "public, max-age=86400")].

(** [fs.createReadStream(name).pipe(res)] returns at once: the entry is
    opened and read later, outside the caller's [try]. *)
Definition pipeFile (rq : nat) (name : string) : M unit :=
  emit (ResPipeFile rq name).

Definition serveCached `{Runtime} (rq : nat) (cacheFile : string) : M bool :=
  let* metadata := readMetadata cacheFile in
  if negb (Jv.truthy metadata) then ret false
  else
    let* r := try (let* stats := statSync cacheFile in
                   emit (ResWriteHead rq 200
                           (successHeaders
                              (orElse (Jv.getProp metadata "contentType")
                                      (JStr "application/octet-stream"))
                              (size stats))) ;;
                   utimesSync cacheFile ;;
                   pipeFile rq cacheFile ;;
                   ret true) in
    match r with
    | inr served => ret served
    | inl _ => ret false
    end.

(** ** Relay orchestrator and streaming ingestion (index.js lines 184-309) *)

Record request := {
  method : string;
  url : string
}.

Inductive upstreamEnd :=
| StreamEnds
| StreamErrors (message : string).

(** What the upstream host does with the request: the connection fails, or
    a response arrives with a status, headers, and a body delivered in
    chunks that ends or breaks. *)
Record upstreamResponse := {
  statusCode : Z;
  headers : gmap string string;
  body : list string;
  ending : upstreamEnd
}.

Inductive upstream :=
| RequestFails (message : string)
| Responds (r : upstreamResponse).

(** The variables the three stream handlers close over. *)
Record ingest := Ingest {
  igRq : nat;
  igCacheFile : string;
  igContentType : string;
  downloaded : nat;
  aborted : bool
}.

Definition oversizeReason : string := "Image exceeds maximum download size.".

(** Lines 237-240: the [content-length] header is there, is not empty, and
    [Number] of it is finite and above the ceiling. *)
Definition declaredTooLong `{Runtime} (cfg : Config) (r : upstreamResponse)
    : bool :=
  match headers r !! "content-length" with
  | Some contentLengthHeader =>
      Js.truthy contentLengthHeader
      && match toNumber contentLengthHeader with
         | Some contentLength => maxDownloadBytes cfg <? contentLength
         | None => false
         end
  | None => false
  end.

(** The callback of [client.request] up to the creation of the staging
    stream (lines 223-250): [None] when the response is turned down. *)
Definition onResponse `{Runtime} (cfg : Config) (rq : nat)
    (cacheFile : string) (r : upstreamResponse) : M (option ingest) :=
  if negb (statusCode r =? 200) then
    sendFailure cfg rq
      ("Imgur responded with status " +:+ Js.showInt (statusCode r) +:+ ".")
      (Some (if statusCode r =? 0 then 502 else statusCode r)) ;;
    emit (UpResume rq) ;;
    ret None
  else
    let contentType := default EmptyString (headers r !! "content-type") in
    if negb (Js.startsWith "image/" contentType) then
      sendFailure cfg rq "Imgur response was not an image." None ;;
      emit (UpResume rq) ;;
      ret None
    else
      if declaredTooLong cfg r then
        sendFailure cfg rq oversizeReason None ;;
        emit (UpResume rq) ;;
        ret None
      else
        createWriteStream (tempFileFor cacheFile) ;;
        ret (Some (Ingest rq cacheFile contentType 0 false)).

(** [if (fs.existsSync(tempFile)) fs.unlinkSync(tempFile)]. *)
Definition discardStaging (tempFile : string) : M unit :=
  let* ex := existsSync tempFile in
  if ex then unlinkSync tempFile else ret tt.

(** [proxyRes.on('data', ...)] (lines 252-268). *)
Definition onData (cfg : Config) (chunk : string) (ig : ingest) : M ingest :=
  let tempFile := tempFileFor (igCacheFile ig) in
  let downloaded' := (downloaded ig + String.length chunk)%nat in
  if (maxDownloadBytes cfg <? Z.of_nat downloaded') && negb (aborted ig) then
    emit (UpDestroy (igRq ig)) ;;
    streamDestroy tempFile ;;
    discardStaging tempFile ;;
    sendFailure cfg (igRq ig) oversizeReason None ;;
    ret (Ingest (igRq ig) (igCacheFile ig) (igContentType ig) downloaded' true)
  else
    (if negb (aborted ig) then streamWrite tempFile chunk else ret tt) ;;
    ret (Ingest (igRq ig) (igCacheFile ig) (igContentType ig)
           downloaded' (aborted ig)).

Definition metadataRecord `{Runtime} (ig : ingest) (now : Z) : jsval :=
  JObj (<["contentType" := JStr (igContentType ig)]>
       (<["size" := JNum (Z.of_nat (downloaded ig))]>
       (<["cachedAt" := JStr (toISOString now)]> ∅))).

(** [proxyRes.on('end', ...)] (lines 270-290). *)
Definition onEnd `{Runtime} (cfg : Config) (ig : ingest) : M unit :=
  if aborted ig then ret tt
  else
    let cacheFile := igCacheFile ig in
    let tempFile := tempFileFor cacheFile in
    streamEnd tempFile ;;
    renameSync tempFile cacheFile ;;
    (let* now := getClock in
     writeMetadata cacheFile (metadataRecord ig now)) ;;
    enforceCacheLimit cfg ;;
    let* stats := statSync cacheFile in
    emit (ResWriteHead (igRq ig) 200
            (successHeaders (JStr (igContentType ig)) (size stats))) ;;
    pipeFile (igRq ig) cacheFile.

(** [proxyRes.on('error', ...)] (lines 292-301). *)
Definition onError (cfg : Config) (message : string) (ig : ingest) : M unit :=
  if aborted ig then ret tt
  else
    let tempFile := tempFileFor (igCacheFile ig) in
    streamDestroy tempFile ;;
    discardStaging tempFile ;;
    sendFailure cfg (igRq ig) ("Proxy error: " +:+ message) None.

(** Node's delivery of the response body to the handlers: every chunk that
    arrives is received from the upstream and handed to ['data']; after
    [proxyRes.destroy()] nothing more is received or handed over. *)
Fixpoint flow `{Runtime} (cfg : Config) (chunks : list string)
    (ending : upstreamEnd) (ig : ingest) : M unit :=
  match chunks with
  | [] =>
      match ending with
      | StreamEnds => onEnd cfg ig
      | StreamErrors message => onError cfg message ig
      end
  | chunk :: rest =>
      emit (UpReceive (igRq ig) (String.length chunk)) ;;
      let* ig' := onData cfg chunk ig in
      if aborted ig' then ret tt else flow cfg rest ending ig'
  end.

(** After [proxyRes.resume()] with no ['data'] handler the body is received
    from the upstream and discarded. *)
Fixpoint drain (rq : nat) (chunks : list string) : M unit :=
  match chunks with
  | [] => ret tt
  | chunk :: rest => emit (UpReceive rq (String.length chunk)) ;; drain rq rest
  end.

(** The response callback with the delivery of the body that follows it. *)
Definition handleResponse `{Runtime} (cfg : Config) (rq : nat)
    (cacheFile : string) (r : upstreamResponse) : M unit :=
  let* started := onResponse cfg rq cacheFile r in
  match started with
  | Some ig => flow cfg (body r) (ending r) ig
  | None => drain rq (body r)
  end.

Definition proxyRequest `{Runtime} (cfg : Config) (rq : nat)
    (req : request) (up : upstream) : M unit :=
  if negb (String.eqb (method req) "GET") then
    emit (ResWriteHead rq 405
            [("Content-Type", JStr "text/plain; charset=utf-8")]) ;;
    emit (ResEnd rq "Only GET supported")
  else if String.eqb (url req) "/" || String.eqb (url req) EmptyString then
    emit (ResWriteHead rq 200
            [("Content-Type", JStr "text/plain; charset=utf-8")]) ;;
    emit (ResEnd rq "FineImgur relay is running.")
  else
    match resolveUrl (url req) with
    | None => sendFailure cfg rq "Invalid request URL." None
    | Some targetUrl =>
        let cacheKey :=
          cacheKeyFromPath (pathname targetUrl +:+ search targetUrl) in
        let cacheFile := cacheKey in
        let* present := existsSync cacheFile in
        let* served :=
          (if present then serveCached rq cacheFile else ret false) in
        if served then ret tt
        else
          emit (UpRequest rq) ;;
          match up with
          | RequestFails message =>
              sendFailure cfg rq ("Request failed: " +:+ message) None
          | Responds r => handleResponse cfg rq cacheFile r
          end
    end.

(** ** Well-escaped text

    The five characters of XML markup, and the check that a text contains
    none of them except an ampersand that opens one of the five entities
    [escapeXml] writes. *)

Definition isXmlSpecial (a : ascii) : bool :=
  match a with
  | "&" | "<" | ">" | "034" | "'" => true
  | _ => false
  end%char.

Definition escapeChar (a : ascii) : string :=
  match a with
  | "&"%char => "&amp;"
  | "<"%char => "&lt;"
  | ">"%char => "&gt;"
  | "034"%char => "&quot;"
  | "'"%char => "&#39;"
  | _ => String a EmptyString
  end.

Definition isEntityTail (s : string) : bool :=
  Js.startsWith "amp;" s || Js.startsWith "lt;" s || Js.startsWith "gt;" s
  || Js.startsWith "quot;" s || Js.startsWith "#39;" s.

Fixpoint xmlSafe (s : string) : bool :=
  match s with
  | EmptyString => true
  | String a s' =>
      (if Ascii.eqb a "&" then isEntityTail s' else negb (isXmlSpecial a))
      && xmlSafe s'
  end.

(** A word that [trim] leaves alone: not empty and free of white space. *)
Fixpoint noWhite (s : string) : bool :=
  match s with
  | EmptyString => true
  | String a s' => negb (Js.isWhite a) && noWhite s'
  end.

Fixpoint noSpecial (s : string) : bool :=
  match s with
  | EmptyString => true
  | String a s' => negb (isXmlSpecial a) && noSpecial s'
  end.

(** What the backward scan of [extname] keeps true after it has visited the
    characters of [l] from index [n] on: an end position, once set, closes
    a run without a slash, and a dot position lies inside that run. *)
Definition extInv (l : list ascii) (n : nat) (st : extState) : Prop :=
  match endPos st with
  | None => startDot st = None ∧ matchedSlash st = true
  | Some e =>
      matchedSlash st = false
      ∧ (n ≤ e ≤ length l)%nat
      ∧ (∀ i, (n ≤ i < e)%nat → l !! i ≠ Some "/"%char)
      ∧ match startDot st with
        | Some sd => (n ≤ sd < e)%nat ∧ l !! sd = Some "."%char
        | None => True
        end
  end.

(** ** The failures a request can end in

    The seven calls of [sendFailure] in [proxyRequest] (lines 201, 225, 232,
    241, 261, 300 and 305), named after the failure each reports, with the
    reason text and the status argument of the call. *)

Inductive failure :=
| InvalidRequest
| UpstreamStatusError (status : Z)
| UpstreamTypeError
| OversizeDeclared
| OversizeActual
| UpstreamTransportError (message : string)
| RequestError (message : string).

Definition failureReason (f : failure) : string :=
  match f with
  | InvalidRequest => "Invalid request URL."
  | UpstreamStatusError status =>
      "Imgur responded with status " +:+ Js.showInt status +:+ "."
  | UpstreamTypeError => "Imgur response was not an image."
  | OversizeDeclared | OversizeActual => oversizeReason
  | UpstreamTransportError message => "Proxy error: " +:+ message
  | RequestError message => "Request failed: " +:+ message
  end.

(** The third argument of the call: [None] where it is left out. *)
Definition failureStatusArg (f : failure) : option Z :=
  match f with
  | UpstreamStatusError status => Some (if status =? 0 then 502 else status)
  | _ => None
  end.

Definition failureStatus (f : failure) : Z := default 413 (failureStatusArg f).

(** The failure, if any, by which the response callback turns a response
    down (lines 224-245). *)
Definition rejection `{Runtime} (cfg : Config) (r : upstreamResponse)
    : option failure :=
  if negb (statusCode r =? 200) then Some (UpstreamStatusError (statusCode r))
  else if negb (Js.startsWith "image/"
                  (default EmptyString (headers r !! "content-type")))
  then Some UpstreamTypeError
  else if declaredTooLong cfg r then Some OversizeDeclared
  else None.

Definition isDigit (a : ascii) : bool :=
  match Ascii.is_nat a with Some _ => true | None => false end.

(** ** What a lookup finds

    The value [readMetadata] returns for a directory, and what becomes of a
    file that [createReadStream(...).pipe(res)] was called on: its content
    reaches the caller, or the stream raises an error event that no handler
    of the program listens to. *)

Definition metadataOf `{Runtime} (d : gmap string file) (cacheFile : string)
    : jsval :=
  match d !! metadataPathFor cacheFile with
  | Some f =>
      if readable f then default JNull (JSON_parse (content f)) else JNull
  | None => JNull
  end.

Inductive piped :=
| Streams (bytes : string)
| UnhandledError (code : string).

Definition pipeOutcome (d : gmap string file) (name : string) : piped :=
  match d !! name with
  | Some f => if readable f then Streams (content f) else UnhandledError "EACCES"
  | None => UnhandledError "ENOENT"
  end.

(** ** What a body leaves behind

    The directory after the chunks were written to the staging entry, the
    effects of receiving and writing them, and their total length. *)

Definition writeChunks (name : string) (now : Z) (chunks : list string)
    (d : gmap string file) : gmap string file :=
  foldl (λ d chunk, alter (appendChunk now chunk) name d) d chunks.

Definition chunkEffects (rq : nat) (name : string) (chunks : list string)
    : list effect :=
  chunks ≫= (λ chunk, [UpReceive rq (String.length chunk);
                        FsStreamWrite name chunk]).

Definition totalLength (chunks : list string) : nat :=
  foldr (λ chunk n, (String.length chunk + n)%nat) O chunks.

Definition drainEffects (rq : nat) (chunks : list string) : list effect :=
  (λ chunk, UpReceive rq (String.length chunk)) <$> chunks.

(** The two effects by which [sendFailure] answers a request. *)
Definition failureResponse (cfg : Config) (rq : nat) (reason : string)
    (status : Z) : list effect :=
  [ResWriteHead rq status (failureHeaders (renderFailureSvg cfg reason));
   ResEnd rq (renderFailureSvg cfg reason)].

(** Time passing between two handlers of the event loop. *)
Definition atTime (now : Z) (w : world) : world :=
  World (disk w) now (trace w).

(** ** The payload entries of a cache directory

    The list that [enforceCacheLimit] builds from [readdirSync] and
    [statSync], and its total size, as functions of the directory. *)

Definition toItem (e : string * file) : cacheItem :=
  CacheItem e.1 (size e.2) (mtime e.2).

Definition payloadItems (d : gmap string file) : list cacheItem :=
  toItem <$> filter (λ e, isPayloadName e.1 = true) (map_to_list d).

Definition payloadTotal (d : gmap string file) : Z :=
  totalSizeOf (payloadItems d).

(** The names of the payload entries that [unlinkSync] was called on, in
    the order of the calls. *)
Definition payloadUnlinks (t : list effect) : list string :=
  omap (λ e, match e with
             | FsUnlink name => if isPayloadName name then Some name else None
             | _ => None
             end) t.

(** The entries an eviction pass warned about. *)
Definition warnedFiles (t : list effect) : list string :=
  omap (λ e, match e with
             | ConsoleWarn _ name _ => Some name
             | _ => None
             end) t.

(** The order of the eviction pass: by last-access time, oldest first. *)
Definition olderOrEqual (a b : cacheItem) : Prop := itemMtime a ≤ itemMtime b.

(** One pass of the eviction loop as a relation: from directory [d] and
    running total [cur] over the entries still to visit, to the final
    directory and total, the entries a removal was attempted on, and the
    names a warning was logged for. *)
Inductive eviction (limit : Z) :
    gmap string file → Z → list cacheItem →
    gmap string file → Z → list cacheItem → list string → Prop :=
| eviction_done d cur :
    eviction limit d cur [] d cur [] []
| eviction_break d cur e rest :
    cur ≤ limit →
    eviction limit d cur (e :: rest) d cur [] []
| eviction_removed d cur e rest f d' cur' att warned :
    limit < cur →
    d !! itemFile e = Some f → locked f = false →
    (∀ g, d !! metadataPathFor (itemFile e) = Some g → locked g = false) →
    eviction limit
      (delete (metadataPathFor (itemFile e)) (delete (itemFile e) d))
      (cur - Z.of_nat (itemSize e)) rest d' cur' att warned →
    eviction limit d cur (e :: rest) d' cur' (e :: att) warned
| eviction_sidecar_left d cur e rest f g d' cur' att warned :
    limit < cur →
    d !! itemFile e = Some f → locked f = false →
    d !! metadataPathFor (itemFile e) = Some g → locked g = true →
    eviction limit (delete (itemFile e) d) cur rest d' cur' att warned →
    eviction limit d cur (e :: rest) d' cur' (e :: att)
      (itemFile e :: warned)
| eviction_failed d cur e rest d' cur' att warned :
    limit < cur →
    (d !! itemFile e = None
     ∨ ∃ f, d !! itemFile e = Some f ∧ locked f = true) →
    eviction limit d cur rest d' cur' att warned →
    eviction limit d cur (e :: rest) d' cur' (e :: att)
      (itemFile e :: warned).

(** The entries describe distinct payload files of [d] with their sizes. *)
Definition tracks (d : gmap string file) (entries : list cacheItem) : Prop :=
  NoDup (itemFile <$> entries)
  ∧ Forall (λ e, isPayloadName (itemFile e) = true
                 ∧ ∃ f, d !! itemFile e = Some f ∧ size f = itemSize e)
      entries.

(** ** Wrapped lines

    What the loop of [wrapText] keeps true of its current line: it is empty,
    or ends in the space after a text of at most [maxLength] characters, or
    is one word from [all] followed by its space. *)
Definition lineFits (maxLength : nat) (all : list string) (line : string)
    : Prop :=
  line = EmptyString
  ∨ (∃ t, line = t +:+ " " ∧ (String.length t ≤ maxLength)%nat)
  ∨ (∃ w, w ∈ all ∧ line = w +:+ " ").

(** A wrapped line: within the column width, or one over-long word of the
    text, trimmed. *)
Definition wrapped (maxLength : nat) (all : list string) (line : string)
    : Prop :=
  (String.length line ≤ maxLength)%nat
  ∨ ∃ w, w ∈ all ∧ line = Js.trim (w +:+ " ").

(** ** The running total of a pass *)




(** ** Names and digits of a key *)

(** The specification's "original file extension of the request": the
    extension of the file that the path of the URL names. *)
Definition originalExtension (t : target) : string := extname (pathname t).

Definition isHexDigit (c : ascii) : bool :=
  match c with
  | "0" | "1" | "2" | "3" | "4" | "5" | "6" | "7" | "8" | "9"
  | "a" | "b" | "c" | "d" | "e" | "f" => true
  | _ => false
  end%char.

(** A character of a file name that is neither a separator nor a dot. *)
Definition plainChar (c : ascii) : Prop := c ≠ "/"%char ∧ c ≠ "."%char.

(** ** Groups of words

    The greedy cut of the words of a text into lines. *)

(** The text of a line under construction: every word of the group with
    the space [wrapText] appends to it. *)
Definition joined (group : list string) : string :=
  Js.joinEmpty ((λ word, word +:+ " ") <$> group).

(** The words of [group] from position [from] on were each added because
    the line still fitted with them. *)
Definition fitsFrom (maxLength from : nat) (group : list string) : Prop :=
  ∀ before word after,
    group = before ++ word :: after → (from ≤ length before)%nat →
    (String.length (joined before +:+ word) ≤ maxLength)%nat.

(** Every group but the last was closed because the word after it did not
    fit. *)
Definition breaksForced (maxLength : nat) (groups : list (list string))
    (last : list string) : Prop :=
  ∀ i group word,
    groups !! i = Some group →
    head (concat (drop (S i) groups) ++ last) = Some word →
    (maxLength < String.length (joined group +:+ word))%nat.

(** The lines that [wrapText] makes of the groups: each group joined and
    trimmed, the last one only if something is left of it. *)
Definition linesOf (groups : list (list string)) (last : list string)
    : list string :=
  ((λ group, Js.trim (joined group)) <$> groups)
  ++ (if Js.truthy (Js.trim (joined last)) then [Js.trim (joined last)]
      else []).

(** ** Answers and published entries *)

(** The effects that answer request [rq]. *)
Definition answerOf (rq : nat) (e : effect) : bool :=
  match e with
  | ResWriteHead r _ _ | ResEnd r _ | ResPipeFile r _ => Nat.eqb r rq
  | _ => false
  end.

Definition answers (rq : nat) (t : list effect) : list effect :=
  filter (λ e, answerOf rq e = true) t.

(** The staging entry after [createWriteStream] and the writes of the
    chunks, and the sidecar after [writeMetadata]: an entry that was there
    keeps its read permission. *)
Definition stagedFile (w : world) (tempFile : string) (chunks : list string)
    : file :=
  File (Js.joinEmpty chunks) (clock w)
       (from_option readable true (disk w !! tempFile)) false.

Definition recordedFile (w : world) (metaFile : string) (record : string)
    : file :=
  File record (clock w) (from_option readable true (disk w !! metaFile)) false.

(** The directory once the end handler has published a body: the staging
    entry renamed to the payload name and the sidecar written. *)
Definition publishedDisk `{Runtime} (w : world) (ig : ingest)
    (chunks : list string) : gmap string file :=
  let cacheFile := igCacheFile ig in
  let tempFile := tempFileFor cacheFile in
  let metaFile := metadataPathFor cacheFile in
  <[metaFile := recordedFile w metaFile
                  (JSON_stringify (metadataRecord ig (clock w)))]>
    (<[cacheFile := stagedFile w tempFile chunks]>
       (delete tempFile (disk w))).

Definition publishEffects `{Runtime} (w : world) (ig : ingest)
    (chunks : list string) : list effect :=
  let cacheFile := igCacheFile ig in
  let tempFile := tempFileFor cacheFile in
  [FsCreateWriteStream tempFile]
  ++ chunkEffects (igRq ig) tempFile chunks
  ++ [FsStreamEnd tempFile; FsRename tempFile cacheFile;
      FsWriteFile (metadataPathFor cacheFile)
        (JSON_stringify (metadataRecord ig (clock w)))].

(** ** A small runtime for worked examples

    Decimal numbers, request URLs that are plain paths, and the JSON texts
    that the examples below read and write. *)

Module Sample.

Fixpoint digits (s : string) (acc : Z) : option Z :=
  match s with
  | EmptyString => Some acc
  | String a s' =>
      match Ascii.is_nat a with
      | Some d => digits s' (10 * acc + Z.of_nat d)
      | None => None
      end
  end.

(** [{"failureImage":{"width":800}}] *)
Definition partialConfigText : string :=
  "{" +:+ Js.dq +:+ "failureImage" +:+ Js.dq +:+ ":{"
  +:+ Js.dq +:+ "width" +:+ Js.dq +:+ ":800}}".

(** [{"contentType":"image/png"}] *)
Definition metadataText : string :=
  "{" +:+ Js.dq +:+ "contentType" +:+ Js.dq +:+ ":"
  +:+ Js.dq +:+ "image/png" +:+ Js.dq +:+ "}".

Definition parse (raw : string) : option jsval :=
  if String.eqb raw "{}" then Some (JObj ∅)
  else if String.eqb raw "null" then Some JNull
  else if String.eqb raw partialConfigText then
    Some (JObj {["failureImage" := JObj {["width" := JNum 800]}]})
  else if String.eqb raw metadataText then
    Some (JObj {["contentType" := JStr "image/png"]})
  else None.

Definition stringify (v : jsval) : string :=
  match Jv.getProp v "contentType" with
  | Some (JStr "image/png") => metadataText
  | _ => "{}"
  end.

Definition runtime : Runtime :=
  {| JSON_parse := parse;
     JSON_stringify := stringify;
     toNumber := λ s, digits s 0;
     resolveUrl := λ u,
       if Js.startsWith "/" u
       then Some {| pathname := u; search := EmptyString;
                    protocol := "https:" |}
       else None;
     toISOString := λ now, "t" +:+ pretty now |}.

Definition smallConfig : Config :=
  {| maxCacheBytes := 7; maxDownloadBytes := 5;
     failureImage := defaultFailureImage |}.

Definition imageResponse (chunks : list string) : upstreamResponse :=
  {| statusCode := 200;
     headers := {["content-type" := "image/png"]};
     body := chunks;
     ending := StreamEnds |}.

Definition emptyWorld : world := World ∅ 0 [].

(** A directory in which the sidecar of [k.png] is in order and the
    payload entry is there but cannot be opened for reading. *)
Definition unreadablePayload : gmap string file :=
  <["k.png" := File "data" 1 false false]>
    {["k.png.json" := File metadataText 1 true false]}.

(** A 200 image response that declares fifty million bytes and delivers
    three. *)
Definition declaredHuge : upstreamResponse :=
  {| statusCode := 200;
     headers := <["content-type" := "image/png"]>
                  {["content-length" := "50000000"]};
     body := ["abc"];
     ending := StreamEnds |}.

(** Two requests interleaved on one directory: request 1 starts the
    ingestion of [A.png] and receives four bytes; then request 2 ingests
    the five bytes of [B.png] to the end, eviction pass included.  The
    result is the state of request 1 and the world it now runs in. *)
Definition interleaved : result ingest :=
  (let* a := onResponse (H:=runtime) smallConfig 1 "A.png"
               (imageResponse ["aaaa"]) in
   match a with
   | None => throw "not started"
   | Some igA =>
       let* igA := onData smallConfig "aaaa" igA in
       let* b := (λ w, onResponse (H:=runtime) smallConfig 2 "B.png"
                         (imageResponse ["bbbbb"]) (atTime 2 w)) in
       match b with
       | None => throw "not started"
       | Some igB =>
           let* igB := onData smallConfig "bbbbb" igB in
           onEnd (H:=runtime) smallConfig igB ;;
           ret igA
       end
   end) (atTime 1 emptyWorld).

End Sample.

(** * Properties *)

#[local] Arguments String.append !s1 s2 / : simpl nomatch.

(** ** Strings *)

Lemma sapp_nil_r (s : string) : s +:+ EmptyString = s.
Proof. induction s; simpl; congruence. Qed.

Lemma sapp_assoc (a b c : string) : (a +:+ b) +:+ c = a +:+ (b +:+ c).
Proof. induction a; simpl; congruence. Qed.

Lemma slength_app (a b : string) :
  String.length (a +:+ b) = (String.length a + String.length b)%nat.
Proof. induction a; simpl; congruence. Qed.

Lemma occursIn_refl (s : string) : Js.occursIn s s.
Proof. exists EmptyString, EmptyString. simpl. by rewrite sapp_nil_r. Qed.

Lemma occursIn_trans (a b c : string) :
  Js.occursIn a b → Js.occursIn b c → Js.occursIn a c.
Proof.
  intros (p1 & q1 & ->) (p2 & q2 & ->).
  exists (p2 +:+ p1), (q1 +:+ q2). by rewrite !sapp_assoc.
Qed.

Lemma occursIn_app_l (a s t : string) :
  Js.occursIn a s → Js.occursIn a (s +:+ t).
Proof.
  intros (p & q & ->). exists p, (q +:+ t). by rewrite !sapp_assoc.
Qed.

Lemma occursIn_app_r (a s t : string) :
  Js.occursIn a t → Js.occursIn a (s +:+ t).
Proof.
  intros (p & q & ->). exists (s +:+ p), q. by rewrite !sapp_assoc.
Qed.

Lemma occursIn_nonempty (a s : string) :
  Js.occursIn a s → a ≠ EmptyString → s ≠ EmptyString.
Proof.
  intros (p & q & ->) Ha He. destruct p; simpl in He; [|done].
  destruct a; simpl in He; done.
Qed.

(** *** [trim] *)

Lemma length_trimStart (s : string) :
  (String.length (Js.trimStart s) ≤ String.length s)%nat.
Proof. induction s; simpl; [lia|]. case_match; simpl; lia. Qed.

Lemma length_trimEnd (s : string) :
  (String.length (Js.trimEnd s) ≤ String.length s)%nat.
Proof.
  induction s; simpl; [lia|].
  destruct (Js.trimEnd s); [case_match|]; simpl in *; lia.
Qed.

Lemma trimEnd_cons (a : ascii) (s : string) :
  Js.trimEnd (String a s) =
    match Js.trimEnd s with
    | EmptyString =>
        if Js.isWhite a then EmptyString else String a EmptyString
    | t => String a t
    end.
Proof. reflexivity. Qed.

Lemma trimEnd_app_space (s : string) :
  Js.trimEnd (s +:+ " ") = Js.trimEnd s.
Proof. induction s; simpl; [done|]. by rewrite IHs. Qed.

Lemma trimStart_app_space (s : string) :
  Js.trimStart (s +:+ " ") = EmptyString
  ∨ ∃ s', Js.trimStart (s +:+ " ") = s' +:+ " "
          ∧ (String.length s' ≤ String.length s)%nat.
Proof.
  induction s as [|a s IH]; simpl; [by left|].
  destruct (Js.isWhite a).
  - destruct IH as [IH | (s' & -> & Hl)]; [by left|].
    right. exists s'. split; [done|lia].
  - right. exists (String a s). split; [done|simpl; lia].
Qed.

Lemma length_trim_app_space (s : string) :
  (String.length (Js.trim (s +:+ " ")) ≤ String.length s)%nat.
Proof.
  unfold Js.trim.
  destruct (trimStart_app_space s) as [-> | (s' & -> & Hl)]; simpl; [lia|].
  rewrite trimEnd_app_space. pose proof (length_trimEnd s'). lia.
Qed.

Lemma trimStart_keeps (w s : string) :
  Js.occursIn w s → noWhite w = true → w ≠ EmptyString →
  Js.occursIn w (Js.trimStart s).
Proof.
  intros (p & q & ->) Hw Hne. induction p as [|a p IH]; simpl.
  - destruct w as [|c w]; [done|]. simpl in *.
    apply andb_prop in Hw as [Hc _]. apply negb_true_iff in Hc.
    rewrite Hc. exists EmptyString, q. done.
  - destruct (Js.isWhite a); [exact IH|].
    exists (String a p), q. done.
Qed.

Lemma trimEnd_word (w post : string) :
  noWhite w = true → w ≠ EmptyString →
  ∃ post', Js.trimEnd (w +:+ post) = w +:+ post'.
Proof.
  intros Hw Hne. induction w as [|c w IH]; [done|].
  simpl in Hw. apply andb_prop in Hw as [Hc Hw]. apply negb_true_iff in Hc.
  destruct w as [|d w].
  - simpl. destruct (Js.trimEnd post) as [|e t].
    + rewrite Hc. by exists EmptyString.
    + by exists (String e t).
  - destruct (IH Hw) as [post' Hp]; [done|].
    exists post'. change (String c (String d w) +:+ post)
      with (String c (String d w +:+ post)).
    rewrite (trimEnd_cons c), Hp. done.
Qed.

Lemma trimEnd_app_nonempty (p x : string) :
  Js.trimEnd x ≠ EmptyString → Js.trimEnd (p +:+ x) = p +:+ Js.trimEnd x.
Proof.
  intros Hx. induction p as [|a p IH]; simpl; [done|].
  rewrite IH. destruct (p +:+ Js.trimEnd x) eqn:E; [|done].
  destruct p; simpl in E; done.
Qed.

Lemma trimEnd_keeps (w s : string) :
  Js.occursIn w s → noWhite w = true → w ≠ EmptyString →
  Js.occursIn w (Js.trimEnd s).
Proof.
  intros (p & q & ->) Hw Hne.
  destruct (trimEnd_word w q Hw Hne) as [q' Hq].
  rewrite trimEnd_app_nonempty.
  - rewrite Hq. by exists p, q'.
  - rewrite Hq. destruct w; simpl; done.
Qed.

Lemma trim_keeps (w s : string) :
  Js.occursIn w s → noWhite w = true → w ≠ EmptyString →
  Js.occursIn w (Js.trim s).
Proof.
  intros Ho Hw Hne. unfold Js.trim.
  apply trimEnd_keeps; [|done..]. by apply trimStart_keeps.
Qed.

(** ** Configuration loading *)

Lemma spread_lookup (a : gmap string jsval) (b : jsval) (key : string) :
  Jv.spread a b !! key =
    match Jv.ownProps b !! key with
    | Some v => Some v
    | None => a !! key
    end.
Proof.
  unfold Jv.spread. rewrite lookup_union.
  destruct (Jv.ownProps b !! key), (a !! key); reflexivity.
Qed.

(** C10.  [loadConfig] returns exactly the defaults when [config.json]
    cannot be read or parsed; otherwise each top-level key comes from the
    parsed value when it has that key and from the defaults when it has
    not, so a [failureImage] object given in the file replaces the default
    one whole and the sub-keys it leaves out are undefined. *)
Theorem loadConfig_shallow_merge `{Runtime} (configFile : option string) :
  ((configFile = None
    ∨ ∃ raw, configFile = Some raw ∧ JSON_parse raw = None)
   → loadConfig configFile = DEFAULT_CONFIG)
  ∧ (∀ raw parsed,
       configFile = Some raw → JSON_parse raw = Some parsed →
       (∀ key,
          loadConfig configFile !! key =
            match Jv.ownProps parsed !! key with
            | Some v => Some v
            | None => DEFAULT_CONFIG !! key
            end)
       ∧ (∀ fi,
            Jv.getProp parsed "failureImage" = Some (JObj fi) →
            loadConfig configFile !! "failureImage" = Some (JObj fi)
            ∧ ∀ sub, fi !! sub = None →
                (loadConfig configFile !! "failureImage")
                  ≫= (λ v, Jv.getProp v sub) = None)).
Proof.
  split.
  - intros [-> | (raw & -> & Hp)]; unfold loadConfig; [done|by rewrite Hp].
  - intros raw parsed -> Hp. unfold loadConfig. rewrite Hp.
    split; [intros key; apply spread_lookup|].
    intros fi Hfi.
    assert (Jv.spread DEFAULT_CONFIG parsed !! "failureImage"
            = Some (JObj fi)) as Hl.
    { rewrite spread_lookup. destruct parsed; try discriminate.
      simpl in *. by rewrite Hfi. }
    split; [exact Hl|]. intros sub Hsub. rewrite Hl. simpl. exact Hsub.
Qed.

Lemma loadConfig_shallow_merge_witness :
  let cfg := @loadConfig Sample.runtime (Some Sample.partialConfigText) in
  cfg !! "failureImage" = Some (JObj {["width" := JNum 800]})
  ∧ (cfg !! "failureImage") ≫= (λ v, Jv.getProp v "height") = None
  ∧ cfg !! "port" = Some (JNum 3000)
  ∧ @loadConfig Sample.runtime (Some "{oops") = DEFAULT_CONFIG.
Proof.
  intros cfg.
  destruct (loadConfig_shallow_merge (H:=Sample.runtime)
              (Some Sample.partialConfigText)) as [_ Hm].
  destruct (Hm Sample.partialConfigText
              (JObj {["failureImage" := JObj {["width" := JNum 800]}]})
              eq_refl eq_refl) as [Hkey Hfi].
  destruct (Hfi {["width" := JNum 800]} eq_refl) as [Hl Hsub].
  split; [exact Hl|]. split; [exact (Hsub "height" eq_refl)|].
  split; [exact (Hkey "port")|].
  apply (loadConfig_shallow_merge (H:=Sample.runtime) (Some "{oops")).
  right. exists "{oops". split; reflexivity.
Defined.

(** *** [escapeXml] and well-escaped text *)

Lemma escapeXml_cons (a : ascii) (s : string) :
  escapeXml (String a s) = escapeChar a +:+ escapeXml s.
Proof. destruct a as [[] [] [] [] [] [] [] []]; reflexivity. Qed.

Lemma xmlSafe_escapeChar (a : ascii) (t : string) :
  xmlSafe (escapeChar a +:+ t) = xmlSafe t.
Proof. destruct a as [[] [] [] [] [] [] [] []]; reflexivity. Qed.

Lemma xmlSafe_escapeXml (s : string) : xmlSafe (escapeXml s) = true.
Proof.
  induction s as [|a s IH]; [reflexivity|].
  by rewrite escapeXml_cons, xmlSafe_escapeChar.
Qed.

Lemma escapeXml_noSpecial (s : string) :
  noSpecial s = true → escapeXml s = s.
Proof.
  induction s as [|a s IH]; [reflexivity|]. simpl. intros [Ha Hs]%andb_prop.
  rewrite escapeXml_cons, IH by done.
  destruct a as [[] [] [] [] [] [] [] []]; try reflexivity; discriminate.
Qed.

Lemma startsWith_inv (p s : string) :
  Js.startsWith p s = true ↔ ∃ rest, s = p +:+ rest.
Proof.
  revert s. induction p as [|c p IH]; intros s; simpl.
  - split; [by exists s|done].
  - destruct s as [|b s]; [split; [done|by intros [? ?]]|].
    rewrite andb_true_iff, IH. split.
    + intros [->%Ascii.eqb_eq [rest ->]]. by exists rest.
    + intros [rest [= -> ->]]. split; [apply Ascii.eqb_refl|by exists rest].
Qed.

Lemma startsWith_app (p s t : string) :
  Js.startsWith p s = true → Js.startsWith p (s +:+ t) = true.
Proof.
  rewrite !startsWith_inv. intros [rest ->]. exists (rest +:+ t).
  by rewrite sapp_assoc.
Qed.

Lemma isEntityTail_cases (s : string) :
  isEntityTail s = true ↔
  ∃ p, p ∈ ["amp;"; "lt;"; "gt;"; "quot;"; "#39;"]
       ∧ Js.startsWith p s = true.
Proof.
  unfold isEntityTail. rewrite !orb_true_iff. split.
  - intros [[[[H|H]|H]|H]|H]; eexists; (split; [|exact H]); set_solver.
  - intros (p & Hp & H).
    repeat (apply elem_of_cons in Hp as [->|Hp]; [tauto|]).
    by apply elem_of_nil in Hp.
Qed.

Lemma entityTail_clean (p : string) :
  p ∈ ["amp;"; "lt;"; "gt;"; "quot;"; "#39;"] →
  noWhite p = true ∧ p ≠ EmptyString
  ∧ Js.startsWith " " p = false ∧ Forall (λ c, c ≠ " "%char)
                                      (String.list_ascii_of_string p).
Proof.
  intros Hp.
  repeat (apply elem_of_cons in Hp as [->|Hp];
          [split; [done|split; [done|split; [done|]]];
           simpl; repeat constructor; done|]).
  by apply elem_of_nil in Hp.
Qed.

Lemma isEntityTail_app (s t : string) :
  isEntityTail s = true → isEntityTail (s +:+ t) = true.
Proof.
  rewrite !isEntityTail_cases. intros (p & Hp & H).
  exists p. split; [done|]. by apply startsWith_app.
Qed.

Lemma xmlSafe_tail (a : ascii) (s : string) :
  xmlSafe (String a s) = true → xmlSafe s = true.
Proof. simpl. by intros [_ ?]%andb_prop. Qed.

Lemma xmlSafe_app (a b : string) :
  xmlSafe a = true → xmlSafe b = true → xmlSafe (a +:+ b) = true.
Proof.
  intros Ha Hb. induction a as [|c a IH]; simpl; [done|].
  simpl in Ha. apply andb_prop in Ha as [Hc Ha].
  rewrite IH by done. rewrite andb_true_r.
  destruct (Ascii.eqb c "&"); [by apply isEntityTail_app|done].
Qed.

Lemma xmlSafe_trimStart (s : string) :
  xmlSafe s = true → xmlSafe (Js.trimStart s) = true.
Proof.
  induction s as [|a s IH]; simpl; [done|]. intros H.
  destruct (Js.isWhite a); [|exact H].
  apply IH. by apply andb_prop in H as [_ ?].
Qed.

Lemma isEntityTail_trimEnd (s : string) :
  isEntityTail s = true → isEntityTail (Js.trimEnd s) = true.
Proof.
  rewrite !isEntityTail_cases. intros (p & Hp & H).
  exists p. split; [done|].
  apply startsWith_inv in H as [rest ->].
  destruct (entityTail_clean p Hp) as (Hw & Hne & _).
  destruct (trimEnd_word p rest Hw Hne) as [rest' ->].
  apply startsWith_inv. by exists rest'.
Qed.

Lemma xmlSafe_trimEnd (s : string) :
  xmlSafe s = true → xmlSafe (Js.trimEnd s) = true.
Proof.
  induction s as [|a s IH]; [done|]. intros H.
  pose proof (xmlSafe_tail _ _ H) as Hs. specialize (IH Hs).
  simpl in H. apply andb_prop in H as [Ha _].
  rewrite trimEnd_cons.
  destruct (Ascii.eqb a "&") eqn:Ea.
  - apply isEntityTail_trimEnd in Ha.
    destruct (Js.trimEnd s) as [|b t] eqn:Et; [done|].
    simpl. rewrite Ea. simpl in IH. rewrite Ha. exact IH.
  - destruct (Js.trimEnd s) as [|b t] eqn:Et.
    + destruct (Js.isWhite a); [done|]. simpl. by rewrite Ea, Ha.
    + simpl. rewrite Ea, Ha. exact IH.
Qed.

Lemma xmlSafe_trim (s : string) :
  xmlSafe s = true → xmlSafe (Js.trim s) = true.
Proof. intros. by apply xmlSafe_trimEnd, xmlSafe_trimStart. Qed.

(** *** [split] *)

Lemma split_nonempty (sep : ascii) (s : string) : Js.split sep s ≠ [].
Proof.
  induction s as [|a s IH]; simpl; [done|].
  destruct (Ascii.eqb a sep); [done|]. by destruct (Js.split sep s).
Qed.

Lemma split_app_sep (sep : ascii) (a b : string) :
  Js.split sep (a +:+ String sep b) = Js.split sep a ++ Js.split sep b.
Proof.
  induction a as [|c a IH]; simpl.
  - by rewrite Ascii.eqb_refl.
  - destruct (Ascii.eqb c sep); [by rewrite IH|]. rewrite IH.
    pose proof (split_nonempty sep a). by destruct (Js.split sep a).
Qed.

Lemma split_noWhite (s : string) :
  noWhite s = true → Js.split " " s = [s].
Proof.
  induction s as [|a s IH]; [done|]. simpl. intros [Ha Hs]%andb_prop.
  rewrite IH by done.
  destruct (Ascii.eqb_spec a " "%char) as [->|]; [done|done].
Qed.

Lemma startsWith_first_word (p s w : string) (ws : list string) :
  Forall (λ c, c ≠ " "%char) (String.list_ascii_of_string p) →
  Js.startsWith p s = true → Js.split " " s = w :: ws →
  Js.startsWith p w = true.
Proof.
  revert s w ws. induction p as [|c p IH]; intros s w ws Hp; [done|].
  simpl in Hp. apply Forall_cons in Hp as [Hc Hp].
  destruct s as [|b s]; [done|]. simpl.
  intros [->%Ascii.eqb_eq Hs]%andb_prop.
  destruct (Ascii.eqb_spec b " "%char) as [->|_]; [done|].
  destruct (Js.split " " s) as [|w' ws'] eqn:E;
    [by destruct (split_nonempty " " s)|].
  intros [= <- <-]. simpl. rewrite Ascii.eqb_refl. simpl. eauto.
Qed.

Lemma xmlSafe_split (s : string) :
  xmlSafe s = true → Forall (λ w, xmlSafe w = true) (Js.split " " s).
Proof.
  induction s as [|a s IH]; [by repeat constructor|]. intros H.
  pose proof (xmlSafe_tail _ _ H) as Hs. specialize (IH Hs).
  simpl in H. apply andb_prop in H as [Ha _]. simpl.
  destruct (Ascii.eqb_spec a " "%char) as [->|Hsp]; [by constructor|].
  destruct (Js.split " " s) as [|w ws] eqn:E;
    [by destruct (split_nonempty " " s)|].
  apply Forall_cons in IH as [Hw Hws]. constructor; [|done].
  simpl. rewrite Hw, andb_true_r.
  destruct (Ascii.eqb a "&"); [|done].
  apply isEntityTail_cases in Ha as (p & Hp & Hst).
  apply isEntityTail_cases. exists p. split; [done|].
  destruct (entityTail_clean p Hp) as (_ & _ & _ & Hns).
  by eapply startsWith_first_word.
Qed.

(** *** [wrapText] *)

Section Wrap.
Variable maxLength : nat.

#[local] Abbreviation lineFits := (lineFits maxLength).
#[local] Abbreviation wrapped := (wrapped maxLength).

Lemma lineFits_trim all line :
  lineFits all line → wrapped all (Js.trim line).
Proof.
  intros [-> | [(t & -> & Hl) | (w & Hw & ->)]].
  - left. simpl. lia.
  - left. pose proof (length_trim_app_space t). lia.
  - right. by exists w.
Qed.

Lemma wrapLoop_wrapped all words line lines :
  words ⊆ all → lineFits all line → Forall (wrapped all) lines →
  lineFits all (wrapLoop maxLength words line lines).1
  ∧ Forall (wrapped all) (wrapLoop maxLength words line lines).2.
Proof.
  revert line lines. induction words as [|word rest IH];
    intros line lines Hsub Hline Hlines; simpl; [done|].
  assert (rest ⊆ all) as Hrest by (intros x Hx; apply Hsub; by right).
  destruct (maxLength <? String.length (line +:+ word))%nat eqn:E.
  - apply IH; [done| |].
    + right; right. exists word. split; [apply Hsub; by left|done].
    + apply Forall_app. split; [done|].
      constructor; [by apply lineFits_trim|done].
  - apply IH; [done| |done].
    right; left. exists (line +:+ word).
    split; [by rewrite sapp_assoc|]. apply Nat.ltb_ge in E. lia.
Qed.

Lemma wrapText_wrapped text :
  Forall (wrapped (Js.split " " text)) (wrapText text maxLength).
Proof.
  unfold wrapText.
  pose proof (wrapLoop_wrapped (Js.split " " text) (Js.split " " text)
                EmptyString [] (reflexivity _) (or_introl eq_refl)
                (Forall_nil_2 _)) as [Hl Hls].
  destruct (wrapLoop maxLength (Js.split " " text) EmptyString [])
    as [line lines]. simpl in *.
  destruct (Js.truthy (Js.trim line)); [|done].
  apply Forall_app. split; [done|].
  constructor; [by apply lineFits_trim|done].
Qed.

Lemma wrapLoop_safe words line lines :
  Forall (λ w, xmlSafe w = true) words → xmlSafe line = true →
  Forall (λ l, xmlSafe l = true) lines →
  xmlSafe (wrapLoop maxLength words line lines).1 = true
  ∧ Forall (λ l, xmlSafe l = true) (wrapLoop maxLength words line lines).2.
Proof.
  revert line lines. induction words as [|word rest IH];
    intros line lines Hw Hline Hlines; simpl; [done|].
  apply Forall_cons in Hw as [Hword Hrest].
  destruct (maxLength <? String.length (line +:+ word))%nat.
  - apply IH; [done|by apply xmlSafe_app|].
    apply Forall_app. split; [done|].
    constructor; [by apply xmlSafe_trim|done].
  - apply IH; [done| |done].
    apply xmlSafe_app; [done|by apply xmlSafe_app].
Qed.

Lemma wrapText_safe text :
  xmlSafe text = true →
  Forall (λ l, xmlSafe l = true) (wrapText text maxLength).
Proof.
  intros Ht. unfold wrapText.
  pose proof (wrapLoop_safe (Js.split " " text) EmptyString []
                (xmlSafe_split text Ht) eq_refl (Forall_nil_2 _))
    as [Hl Hls].
  destruct (wrapLoop maxLength (Js.split " " text) EmptyString [])
    as [line lines]. simpl in *.
  destruct (Js.truthy (Js.trim line)); [|done].
  apply Forall_app. split; [done|].
  constructor; [by apply xmlSafe_trim|done].
Qed.

(** No word is lost: a non-empty word without white space ends up inside
    one of the lines. *)
Lemma wrapLoop_keeps w words line lines :
  noWhite w = true → w ≠ EmptyString →
  w ∈ words ∨ Js.occursIn w line ∨ Exists (Js.occursIn w) lines →
  Js.occursIn w (wrapLoop maxLength words line lines).1
  ∨ Exists (Js.occursIn w) (wrapLoop maxLength words line lines).2.
Proof.
  intros Hw Hne. revert line lines.
  induction words as [|word rest IH]; intros line lines H; simpl.
  - destruct H as [H|H]; [by apply elem_of_nil in H|done].
  - destruct (maxLength <? String.length (line +:+ word))%nat.
    + apply IH. destruct H as [H|[H|H]].
      * apply elem_of_cons in H as [->|H]; [|by left].
        right; left. apply occursIn_app_l, occursIn_refl.
      * right; right. apply Exists_app. right. constructor.
        by apply trim_keeps.
      * right; right. apply Exists_app. by left.
    + apply IH. destruct H as [H|[H|H]].
      * apply elem_of_cons in H as [->|H]; [|by left].
        right; left. apply occursIn_app_r, occursIn_app_l, occursIn_refl.
      * right; left. by apply occursIn_app_l.
      * by right; right.
Qed.

Lemma wrapText_keeps w text :
  noWhite w = true → w ≠ EmptyString → w ∈ Js.split " " text →
  Exists (Js.occursIn w) (wrapText text maxLength).
Proof.
  intros Hw Hne Hin. unfold wrapText.
  pose proof (wrapLoop_keeps w (Js.split " " text) EmptyString []
                Hw Hne (or_introl Hin)) as H.
  destruct (wrapLoop maxLength (Js.split " " text) EmptyString [])
    as [line lines]. simpl in *.
  destruct H as [H|H].
  - pose proof (trim_keeps w line H Hw Hne) as Ht.
    pose proof (occursIn_nonempty _ _ Ht Hne).
    destruct (Js.trim line) eqn:E; [done|]. simpl.
    apply Exists_app. right. by constructor.
  - destruct (Js.truthy (Js.trim line)); [|done].
    apply Exists_app. by left.
Qed.

End Wrap.

(** ** Placeholder renderer *)

Lemma occursIn_joinEmpty (x : string) (parts : list string) :
  x ∈ parts → Js.occursIn x (Js.joinEmpty parts).
Proof.
  induction parts as [|p parts IH]; intros Hx; [by apply elem_of_nil in Hx|].
  apply elem_of_cons in Hx as [->|Hx]; simpl.
  - apply occursIn_app_l, occursIn_refl.
  - by apply occursIn_app_r, IH.
Qed.

Lemma textSpan_line (fi : FailureImage) (n i : nat) (line : string) :
  Js.occursIn line (textSpan fi n i line).
Proof.
  unfold textSpan.
  do 7 apply occursIn_app_r. apply occursIn_app_l, occursIn_refl.
Qed.

Lemma textSpans_span (fi : FailureImage) (lines : list string)
    (i : nat) (line : string) :
  lines !! i = Some line →
  Js.occursIn (textSpan fi (length lines) i line) (textSpans fi lines).
Proof.
  intros Hi. apply occursIn_joinEmpty, list_elem_of_lookup. exists i.
  by rewrite list_lookup_imap, Hi.
Qed.

Lemma render_contains_line (cfg : Config) (reason line : string) :
  line ∈ wrapText (escapeXml reason) wrapColumns →
  Js.occursIn line (renderFailureSvg cfg reason).
Proof.
  intros [i Hi]%list_elem_of_lookup. unfold renderFailureSvg.
  apply occursIn_app_r, occursIn_app_l.
  eapply occursIn_trans; [apply textSpan_line|by apply textSpans_span].
Qed.

Lemma svgHead_geometry (fi : FailureImage) :
  Js.occursIn (attr "width" (Js.showInt (width fi)) +:+ " "
               +:+ attr "height" (Js.showInt (height fi))) (svgHead fi)
  ∧ Js.occursIn (attr "fill" (background fi)) (svgHead fi)
  ∧ Js.occursIn (attr "stroke" (accentColor fi)) (svgHead fi)
  ∧ Js.occursIn ("<g " +:+ attr "fill" (textColor fi)) (svgHead fi).
Proof.
  unfold svgHead. repeat split.
  - apply occursIn_app_r, occursIn_app_l. unfold svgOpen.
    exists ("<svg " +:+ attr "xmlns" "http://www.w3.org/2000/svg" +:+ " "),
           (">" +:+ Js.nl).
    by rewrite !sapp_assoc.
  - do 2 apply occursIn_app_r. apply occursIn_app_l. unfold backgroundRect.
    exists ("  <rect " +:+ attr "width" "100%" +:+ " "
            +:+ attr "height" "100%" +:+ " "), (" />" +:+ Js.nl).
    by rewrite !sapp_assoc.
  - do 3 apply occursIn_app_r. apply occursIn_app_l. unfold frameRect.
    exists ("  <rect " +:+ attr "x" "20" +:+ " " +:+ attr "y" "20"
            +:+ " " +:+ attr "width" (Js.showInt (width fi - 40))
            +:+ " " +:+ attr "height" (Js.showInt (height fi - 40))
            +:+ " " +:+ attr "rx" "24" +:+ " " +:+ attr "fill" "#2a2a2a"
            +:+ " "),
           (" " +:+ attr "stroke-width" "3" +:+ " />" +:+ Js.nl).
    by rewrite !sapp_assoc.
  - do 5 apply occursIn_app_r. unfold groupOpen.
    exists "  ", (" " +:+ attr "font-family" "Arial, sans-serif"
                  +:+ " " +:+ attr "font-size" "18" +:+ ">" +:+ Js.nl
                  +:+ "    ").
    by rewrite !sapp_assoc.
Qed.

(** *** The lines as groups of consecutive words *)

Lemma joinEmpty_app (a b : list string) :
  Js.joinEmpty (a ++ b) = Js.joinEmpty a +:+ Js.joinEmpty b.
Proof.
  induction a as [|x a IH]; [done|].
  change (Js.joinEmpty ((x :: a) ++ b)) with (x +:+ Js.joinEmpty (a ++ b)).
  change (Js.joinEmpty (x :: a)) with (x +:+ Js.joinEmpty a).
  by rewrite IH, sapp_assoc.
Qed.

Lemma joined_snoc (group : list string) (word : string) :
  joined (group ++ [word]) = joined group +:+ word +:+ " ".
Proof.
  unfold joined. rewrite fmap_app, joinEmpty_app.
  change (Js.joinEmpty ((λ w, w +:+ " ") <$> [word]))
    with ((word +:+ " ") +:+ EmptyString).
  by rewrite sapp_nil_r.
Qed.

Lemma snoc_split {A} (l : list A) (x : A) (before : list A) (y : A)
    (after : list A) :
  l ++ [x] = before ++ y :: after →
  (after = [] ∧ before = l ∧ y = x)
  ∨ ∃ after', after = after' ++ [x] ∧ l = before ++ y :: after'.
Proof.
  destruct after as [|z after _] using rev_ind; intros E.
  - left. apply app_inj_tail in E as [-> ->]. done.
  - right. exists after.
    rewrite app_comm_cons, app_assoc in E.
    apply app_inj_tail in E as [-> ->]. done.
Qed.

Section Groups.
Variable maxLength : nat.

Lemma fitsFrom_snoc (from : nat) (group : list string) (word : string) :
  fitsFrom maxLength from group →
  (String.length (joined group +:+ word) ≤ maxLength)%nat →
  fitsFrom maxLength from (group ++ [word]).
Proof.
  intros Hfit Hle before w after E Hfrom.
  apply snoc_split in E as [(-> & -> & ->)|(after' & -> & ->)]; [done|].
  by eapply Hfit.
Qed.

Lemma wrapLoop_groups (words cur : list string) (lines : list string)
    (from : nat) :
  fitsFrom maxLength from cur →
  ∃ groups last,
    wrapLoop maxLength words (joined cur) lines
    = (joined last,
       lines ++ ((λ group, Js.trim (joined group)) <$> groups))
    ∧ cur ++ words = concat groups ++ last
    ∧ breaksForced maxLength groups last
    ∧ ∀ i group, (groups ++ [last]) !! i = Some group →
        fitsFrom maxLength (match i with O => from | S _ => 1 end) group.
Proof.
  revert cur lines from.
  induction words as [|word rest IH]; intros cur lines from Hfit.
  - exists [], cur. simpl. rewrite !app_nil_r. split; [done|].
    split; [done|]. split; [by intros i ??|].
    intros [|i] group Hi; simplify_eq/=. done.
  - simpl.
    destruct (maxLength <? String.length (joined cur +:+ word))%nat eqn:E.
    + apply Nat.ltb_lt in E.
      destruct (IH [word] (lines ++ [Js.trim (joined cur)]) 1%nat)
        as (groups & last & Hrun & Hwords & Hbreak & Hfits).
      { intros before w after Eq Hfrom.
        destruct before as [|b before]; [simpl in Hfrom; lia|].
        destruct before; simplify_eq/=. }
      exists (cur :: groups), last.
      change (joined [word]) with ((word +:+ " ") +:+ EmptyString) in Hrun.
      rewrite sapp_nil_r in Hrun.
      split; [by rewrite Hrun, fmap_cons, <- app_assoc|].
      split; [simpl; by rewrite <- app_assoc, <- Hwords|].
      split.
      * intros [|i] group w Hi Hw; simplify_eq/=.
        -- rewrite drop_0, <- Hwords in Hw. by simplify_eq/=.
        -- by eapply Hbreak.
      * intros [|i] group Hi; simplify_eq/=; [done|].
        specialize (Hfits i group Hi). by destruct i.
    + apply Nat.ltb_ge in E.
      destruct (IH (cur ++ [word]) lines from)
        as (groups & last & Hrun & Hwords & Hbreak & Hfits).
      { by apply fitsFrom_snoc. }
      exists groups, last. rewrite joined_snoc in Hrun.
      split; [exact Hrun|].
      split; [by rewrite <- Hwords, <- app_assoc|]. done.
Qed.

(** [wrapText] cuts the words of the text into groups of consecutive
    words, greedily: a word joins the line while the line with it stays
    within the width, and a line is closed only for a word that does not
    fit. *)
Lemma wrapText_groups (text : string) :
  ∃ groups last,
    Js.split " " text = concat groups ++ last
    ∧ wrapText text maxLength = linesOf groups last
    ∧ breaksForced maxLength groups last
    ∧ ∀ i group, (groups ++ [last]) !! i = Some group →
        fitsFrom maxLength (match i with O => 0 | S _ => 1 end) group.
Proof.
  destruct (wrapLoop_groups (Js.split " " text) [] [] 0%nat)
    as (groups & last & Hrun & Hwords & Hbreak & Hfits).
  { intros before w after E _. by destruct before. }
  exists groups, last. split; [done|]. split; [|done].
  unfold wrapText, linesOf. change (joined []) with EmptyString in Hrun.
  rewrite Hrun. simpl.
  destruct (Js.truthy (Js.trim (joined last))); by rewrite ?app_nil_r.
Qed.

End Groups.

(** *** Escaping and the words of a text *)

Lemma split_prefix (p t : string) :
  Forall (λ c, c ≠ " "%char) (String.list_ascii_of_string p) →
  Js.split " " (p +:+ t)
  = match Js.split " " t with
    | first :: others => (p +:+ first) :: others
    | [] => [p]
    end.
Proof.
  induction p as [|c p IH]; intros Hp.
  - simpl. pose proof (split_nonempty " " t). by destruct (Js.split " " t).
  - simpl in Hp. apply Forall_cons in Hp as [Hc Hp].
    change (Js.split " " (String c p +:+ t))
      with (if Ascii.eqb c " " then EmptyString :: Js.split " " (p +:+ t)
            else match Js.split " " (p +:+ t) with
                 | w :: ws => String c w :: ws
                 | [] => [String c EmptyString]
                 end).
    rewrite (proj2 (Ascii.eqb_neq _ _) Hc), IH by done.
    pose proof (split_nonempty " " t). by destruct (Js.split " " t).
Qed.

Lemma escapeChar_no_space (a : ascii) :
  a ≠ " "%char →
  Forall (λ c, c ≠ " "%char) (String.list_ascii_of_string (escapeChar a)).
Proof.
  intros Ha. destruct a as [[] [] [] [] [] [] [] []]; simpl;
    repeat (constructor; [first [done|discriminate]|]); constructor.
Qed.

(** Escaping neither joins nor cuts words: the words of the escaped text
    are the escaped words of the text. *)
Lemma split_escapeXml (s : string) :
  Js.split " " (escapeXml s) = escapeXml <$> Js.split " " s.
Proof.
  induction s as [|a s IH]; [reflexivity|].
  rewrite escapeXml_cons.
  destruct (Ascii.eqb_spec a " "%char) as [->|Ha].
  - change (escapeChar " " +:+ escapeXml s) with (String " " (escapeXml s)).
    change (Js.split " " (String " " (escapeXml s)))
      with (EmptyString :: Js.split " " (escapeXml s)).
    change (Js.split " " (String " " s)) with (EmptyString :: Js.split " " s).
    by rewrite IH.
  - rewrite split_prefix by (by apply escapeChar_no_space).
    rewrite IH. simpl. rewrite (proj2 (Ascii.eqb_neq _ _) Ha).
    pose proof (split_nonempty " " s).
    destruct (Js.split " " s) as [|w ws]; [done|]. simpl.
    by rewrite escapeXml_cons.
Qed.

Lemma noWhite_escapeXml (w : string) :
  noWhite w = true → noWhite (escapeXml w) = true.
Proof.
  induction w as [|a w IH]; [done|]. simpl. intros [Ha Hw]%andb_prop.
  rewrite escapeXml_cons.
  destruct a as [[] [] [] [] [] [] [] []]; simpl in *; first [done|by apply IH].
Qed.

Lemma escapeXml_nonempty (w : string) :
  w ≠ EmptyString → escapeXml w ≠ EmptyString.
Proof.
  destruct w as [|a w]; [done|]. intros _. rewrite escapeXml_cons.
  destruct a as [[] [] [] [] [] [] [] []]; done.
Qed.

(** C8.  For every reason text the renderer returns the document of the
    template, written out here in full: the XML declaration, the [svg]
    element with the configured width and height, the background and the
    frame rectangle with the configured colours, the title, and the group
    of text elements in the configured text colour.  There is one text
    element per line, all at [x = width / 2], line [i] of [n] at
    [y = height / 2 - 13 n + 26 i]: the block of [n] lines of height 26
    that starts at the first [y] is centred on half the height.  The lines
    are the escaped words of the reason, cut greedily into groups of
    consecutive words that stay within 42 columns, each group joined by
    single spaces and trimmed.  No markup character is left in a line but
    the ampersand of an entity.  The function is total; for the empty
    reason the group of text elements is empty.  The configuration is
    taken with its five [failureImage] keys, width and height integers. *)
Theorem renderFailureSvg_document (cfg : Config) (reason : string) :
  let fi := failureImage cfg in
  let words := escapeXml <$> Js.split " " reason in
  let lines := wrapText (escapeXml reason) wrapColumns in
  let n := Z.of_nat (length lines) in
  let q := Js.dq in
  let nl := Js.nl in
  let half z := Js.showHalf (Js.Half z) in
  let element (i : nat) (line : string) :=
    "<text x=" +:+ q +:+ half (width fi) +:+ q
    +:+ " y=" +:+ q +:+ half (height fi - 26 * n + 52 * Z.of_nat i) +:+ q
    +:+ " text-anchor=" +:+ q +:+ "middle" +:+ q +:+ ">"
    +:+ line +:+ "</text>" in
  renderFailureSvg cfg reason
  = "<?xml version=" +:+ q +:+ "1.0" +:+ q
    +:+ " encoding=" +:+ q +:+ "UTF-8" +:+ q +:+ "?>" +:+ nl
    +:+ "<svg xmlns=" +:+ q +:+ "http://www.w3.org/2000/svg" +:+ q
    +:+ " width=" +:+ q +:+ Js.showInt (width fi) +:+ q
    +:+ " height=" +:+ q +:+ Js.showInt (height fi) +:+ q +:+ ">" +:+ nl
    +:+ "  <rect width=" +:+ q +:+ "100%" +:+ q
    +:+ " height=" +:+ q +:+ "100%" +:+ q
    +:+ " fill=" +:+ q +:+ background fi +:+ q +:+ " />" +:+ nl
    +:+ "  <rect x=" +:+ q +:+ "20" +:+ q +:+ " y=" +:+ q +:+ "20" +:+ q
    +:+ " width=" +:+ q +:+ Js.showInt (width fi - 40) +:+ q
    +:+ " height=" +:+ q +:+ Js.showInt (height fi - 40) +:+ q
    +:+ " rx=" +:+ q +:+ "24" +:+ q
    +:+ " fill=" +:+ q +:+ "#2a2a2a" +:+ q
    +:+ " stroke=" +:+ q +:+ accentColor fi +:+ q
    +:+ " stroke-width=" +:+ q +:+ "3" +:+ q +:+ " />" +:+ nl
    +:+ "  <text x=" +:+ q +:+ half (width fi) +:+ q
    +:+ " y=" +:+ q +:+ half (height fi - 120) +:+ q
    +:+ " text-anchor=" +:+ q +:+ "middle" +:+ q
    +:+ " fill=" +:+ q +:+ accentColor fi +:+ q
    +:+ " font-family=" +:+ q +:+ "Arial, sans-serif" +:+ q
    +:+ " font-size=" +:+ q +:+ "26" +:+ q
    +:+ " font-weight=" +:+ q +:+ "bold" +:+ q
    +:+ ">FineImgur</text>" +:+ nl
    +:+ "  <g fill=" +:+ q +:+ textColor fi +:+ q
    +:+ " font-family=" +:+ q +:+ "Arial, sans-serif" +:+ q
    +:+ " font-size=" +:+ q +:+ "18" +:+ q +:+ ">" +:+ nl
    +:+ "    " +:+ Js.joinEmpty (imap element lines) +:+ nl
    +:+ "  </g>" +:+ nl
    +:+ "</svg>"
  ∧ (∀ i line, lines !! i = Some line →
       Js.occursIn (element i line) (renderFailureSvg cfg reason))
  ∧ (∃ groups last,
       words = concat groups ++ last
       ∧ lines = linesOf groups last
       ∧ breaksForced 42 groups last
       ∧ ∀ i group, (groups ++ [last]) !! i = Some group →
           fitsFrom 42 (match i with O => 0 | S _ => 1 end) group)
  ∧ Forall (λ line, xmlSafe line = true) lines
  ∧ Forall (wrapped 42 words) lines
  ∧ (∀ w, w ∈ Js.split " " reason → noWhite w = true → w ≠ EmptyString →
          Exists (Js.occursIn (escapeXml w)) lines)
  ∧ wrapText (escapeXml EmptyString) wrapColumns = []
  ∧ (q = String (ascii_of_nat 34) EmptyString
     ∧ nl = String (ascii_of_nat 10) EmptyString
     ∧ half 640 = "320" ∧ half 361 = "180.5" ∧ half (-1) = "-0.5"
     ∧ Js.showInt 600 = "600" ∧ Js.showInt (-40) = "-40"
     ∧ Js.trim (String (ascii_of_nat 9) (" a  b " +:+ nl)) = "a  b"
     ∧ wrapText (escapeXml "Imgur said 404: Tom & Jerry <b> were not at home")
         wrapColumns
       = ["Imgur said 404: Tom &amp; Jerry &lt;b&gt;"; "were not at home"]).
Proof.
  intros fi words lines n q nl half element.
  assert (imap (textSpan fi (length lines)) lines = imap element lines)
    as Hspans.
  { apply imap_ext. intros i line _. unfold textSpan, element, attr, half.
    replace (lineY fi (length lines) i)
      with (Js.Half (height fi - 26 * n + 52 * Z.of_nat i)).
    - by rewrite !sapp_assoc.
    - unfold lineY, startY, Js.hadd, Js.hsub, Js.div2, Js.ofInt, lineHeight.
      simpl. f_equal. unfold n. lia. }
  assert (words = Js.split " " (escapeXml reason)) as Hwords
    by (unfold words; by rewrite split_escapeXml).
  split.
  { unfold renderFailureSvg. fold fi lines.
    unfold textSpans. rewrite Hspans.
    unfold svgHead, svgTail, xmlDeclaration, svgOpen, backgroundRect,
      frameRect, titleText, groupOpen, attr, half, q, nl.
    by rewrite !sapp_assoc. }
  split.
  { intros i line Hi. unfold renderFailureSvg. fold fi lines.
    apply occursIn_app_r, occursIn_app_l. unfold textSpans.
    rewrite Hspans. apply occursIn_joinEmpty, list_elem_of_lookup.
    exists i. by rewrite list_lookup_imap, Hi. }
  split.
  { rewrite Hwords. apply (wrapText_groups 42). }
  split; [apply wrapText_safe, xmlSafe_escapeXml|].
  split; [rewrite Hwords; apply wrapText_wrapped|].
  split.
  { intros w Hin Hw Hne. apply wrapText_keeps.
    - by apply noWhite_escapeXml.
    - by apply escapeXml_nonempty.
    - rewrite split_escapeXml. by apply list_elem_of_fmap_2. }
  split; [reflexivity|].
  repeat split; vm_compute; reflexivity.
Qed.

Lemma renderFailureSvg_document_witness :
  let lines := wrapText (escapeXml "a <b> & more") wrapColumns in
  lines = ["a &lt;b&gt; &amp; more"]
  ∧ Exists (Js.occursIn "more") lines
  ∧ Js.occursIn
      ("<text x=" +:+ Js.dq +:+ "320" +:+ Js.dq +:+ " y=" +:+ Js.dq
       +:+ "167" +:+ Js.dq +:+ " text-anchor=" +:+ Js.dq +:+ "middle"
       +:+ Js.dq +:+ ">a &lt;b&gt; &amp; more</text>")
      (renderFailureSvg defaultConfig "a <b> & more").
Proof.
  intros lines.
  pose proof (renderFailureSvg_document defaultConfig "a <b> & more")
    as (_ & Hel & _ & _ & _ & Hkeep & _).
  split; [reflexivity|].
  split; [apply (Hkeep "more"); [|reflexivity|discriminate]|].
  - vm_compute. do 3 apply list_elem_of_further. apply list_elem_of_here.
  - exact (Hel 0%nat "a &lt;b&gt; &amp; more" eq_refl).
Defined.

(** ** Eviction policy *)

Lemma metadataPath_ne (name : string) : metadataPathFor name ≠ name.
Proof.
  unfold metadataPathFor. intros E.
  apply (f_equal String.length) in E. rewrite slength_app in E. simpl in E. lia.
Qed.

Lemma tempFile_ne (name : string) : tempFileFor name ≠ name.
Proof.
  unfold tempFileFor. intros E.
  apply (f_equal String.length) in E. rewrite slength_app in E. simpl in E. lia.
Qed.

(** The body of the [try] of the eviction loop, case by case. *)
Lemma evictStep_run (name : string) (w : world) :
  let step :=
    try (unlinkSync name ;;
         let* ex := existsSync (metadataPathFor name) in
         if ex then unlinkSync (metadataPathFor name) else ret tt) in
  let meta := metadataPathFor name in
  step w =
    match disk w !! name with
    | None =>
        Ok (inl "ENOENT")
           (World (disk w) (clock w) (trace w ++ [FsUnlink name]))
    | Some f =>
        if locked f then
          Ok (inl "EPERM")
             (World (disk w) (clock w) (trace w ++ [FsUnlink name]))
        else
          match disk w !! meta with
          | None =>
              Ok (inr tt)
                 (World (delete name (disk w)) (clock w)
                    (trace w ++ [FsUnlink name; FsExists meta]))
          | Some g =>
              if locked g then
                Ok (inl "EPERM")
                   (World (delete name (disk w)) (clock w)
                      (trace w ++ [FsUnlink name; FsExists meta;
                                   FsUnlink meta]))
              else
                Ok (inr tt)
                   (World (delete meta (delete name (disk w))) (clock w)
                      (trace w ++ [FsUnlink name; FsExists meta;
                                   FsUnlink meta]))
          end
    end.
Proof.
  intros step meta. subst step meta.
  pose proof (metadataPath_ne name) as Hne.
  unfold try, unlinkSync, existsSync, bind, emit, getDisk,
    setDisk, throw, ret. simpl.
  destruct (disk w !! name) as [f|] eqn:Ef; [|done].
  destruct (locked f); [done|]. simpl.
  rewrite lookup_delete_ne by done.
  destruct (disk w !! metadataPathFor name) as [g|] eqn:Eg; simpl.
  - rewrite lookup_delete_ne by done. rewrite Eg.
    destruct (locked g); simpl; by rewrite <- !app_assoc.
  - by rewrite <- !app_assoc.
Qed.

Lemma endsWith_app (p s : string) : Js.endsWith p (s +:+ p) = true.
Proof.
  unfold Js.endsWith. rewrite slength_app.
  replace (String.length s + String.length p - String.length p)%nat
    with (String.length s) by lia.
  rewrite (proj2 (Nat.leb_le _ _)) by lia. simpl.
  apply String.eqb_eq. induction s; simpl; [by destruct p|done].
Qed.

Lemma metadataPath_not_payload (name : string) :
  isPayloadName (metadataPathFor name) = false.
Proof. unfold isPayloadName, metadataPathFor. by rewrite endsWith_app. Qed.

Lemma tempFile_is_payload (name : string) :
  isPayloadName (tempFileFor name) = true.
Proof.
  unfold isPayloadName, tempFileFor, Js.endsWith.
  apply negb_true_iff, andb_false_iff.
  destruct (decide (String.length ".json" ≤ String.length (name +:+ ".tmp"))%nat)
    as [Hl|Hl]; [right|left; by apply Nat.leb_gt; lia].
  apply String.eqb_neq. rewrite slength_app in *. simpl in *.
  replace (String.length name + 4 - 5)%nat
    with (String.length name - 1)%nat by lia.
  clear Hl. induction name as [|a [|b name] IH]; simpl; [done..|].
  simpl in IH. by rewrite Nat.sub_0_r in IH.
Qed.

Lemma evictLoop_eviction (cfg : Config) (entries : list cacheItem)
    (cur : Z) (w : world) :
  Forall (λ e, isPayloadName (itemFile e) = true) entries →
  ∃ cur' w' att warned Δ,
    evictLoop cfg entries cur w = Ok cur' w'
    ∧ eviction (maxCacheBytes cfg) (disk w) cur entries
        (disk w') cur' att warned
    ∧ clock w' = clock w
    ∧ trace w' = trace w ++ Δ
    ∧ payloadUnlinks Δ = itemFile <$> att
    ∧ warnedFiles Δ = warned.
Proof.
  revert cur w. induction entries as [|e rest IH]; intros cur w Hp.
  { exists cur, w, [], [], []. simpl. rewrite app_nil_r.
    repeat split; constructor. }
  apply Forall_cons in Hp as [He Hrest].
  remember (evictLoop cfg (e :: rest) cur w) as r eqn:Er. simpl in Er.
  destruct (Z.leb_spec cur (maxCacheBytes cfg)) as [Hle|Hgt].
  { exists cur, w, [], [], []. rewrite app_nil_r. subst r.
    repeat split. by constructor. }
  pose proof (evictStep_run (itemFile e) w) as Hstep. simpl in Hstep.
  unfold bind at 1 in Er. rewrite Hstep in Er. clear Hstep.
  pose proof (metadataPath_not_payload (itemFile e)) as Hmeta.
  assert (∀ w1 d1 msg,
    disk w1 = d1 → clock w1 = clock w →
    (∃ Δ1, trace w1 = trace w ++ Δ1
           ∧ payloadUnlinks Δ1 = [itemFile e] ∧ warnedFiles Δ1 = []) →
    (∀ d' cur' att warned,
       eviction (maxCacheBytes cfg) d1 cur rest d' cur' att warned →
       eviction (maxCacheBytes cfg) (disk w) cur (e :: rest) d' cur'
         (e :: att) (itemFile e :: warned)) →
    ∃ cur' w' att warned Δ,
      bind (emit (ConsoleWarn "Failed to evict cache file:"
                    (itemFile e) msg))
           (λ _, evictLoop cfg rest cur) w1 = Ok cur' w'
      ∧ eviction (maxCacheBytes cfg) (disk w) cur (e :: rest)
          (disk w') cur' att warned
      ∧ clock w' = clock w
      ∧ trace w' = trace w ++ Δ
      ∧ payloadUnlinks Δ = itemFile <$> att
      ∧ warnedFiles Δ = warned) as Hfail.
  { intros w1 d1 msg Hd Hc (Δ1 & Ht1 & Hu1 & Hw1) Hrule.
    unfold bind, emit.
    edestruct (IH cur) as (cur' & w' & att & warned & Δ & -> & Hev & Hc'
                           & Ht & Hu & Hw); [done|].
    simpl in *. rewrite Hd in Hev. do 5 eexists. split; [done|].
    split; [by apply Hrule|]. split; [congruence|].
    split; [by rewrite Ht, Ht1, <- !app_assoc|].
    unfold payloadUnlinks, warnedFiles in *.
    rewrite !omap_app, Hu1, Hw1, Hu, Hw. done. }
  assert (∀ w1 d1,
    disk w1 = d1 → clock w1 = clock w →
    (∃ Δ1, trace w1 = trace w ++ Δ1
           ∧ payloadUnlinks Δ1 = [itemFile e] ∧ warnedFiles Δ1 = []) →
    (∀ d' cur' att warned,
       eviction (maxCacheBytes cfg) d1 (cur - Z.of_nat (itemSize e)) rest
         d' cur' att warned →
       eviction (maxCacheBytes cfg) (disk w) cur (e :: rest) d' cur'
         (e :: att) warned) →
    ∃ cur' w' att warned Δ,
      evictLoop cfg rest (cur - Z.of_nat (itemSize e)) w1 = Ok cur' w'
      ∧ eviction (maxCacheBytes cfg) (disk w) cur (e :: rest)
          (disk w') cur' att warned
      ∧ clock w' = clock w
      ∧ trace w' = trace w ++ Δ
      ∧ payloadUnlinks Δ = itemFile <$> att
      ∧ warnedFiles Δ = warned) as Hok.
  { intros w1 d1 Hd Hc (Δ1 & Ht1 & Hu1 & Hw1) Hrule.
    edestruct (IH (cur - Z.of_nat (itemSize e)) w1)
      as (cur' & w' & att & warned & Δ & -> & Hev & Hc' & Ht & Hu & Hw);
      [done|].
    rewrite Hd in Hev. do 5 eexists. split; [done|].
    split; [by apply Hrule|]. split; [congruence|].
    split; [by rewrite Ht, Ht1, <- !app_assoc|].
    unfold payloadUnlinks, warnedFiles in *.
    rewrite !omap_app, Hu1, Hw1, Hu, Hw. done. }
  subst r.
  destruct (disk w !! itemFile e) as [f|] eqn:Ef.
  2:{ eapply Hfail; [done..| |].
      - eexists. split; [done|]. simpl. by rewrite He.
      - intros. eapply eviction_failed; eauto. }
  destruct (locked f) eqn:Lf.
  { eapply Hfail; [done..| |].
    - eexists. split; [done|]. simpl. by rewrite He.
    - intros. eapply eviction_failed; eauto. }
  destruct (disk w !! metadataPathFor (itemFile e)) as [g|] eqn:Eg.
  - destruct (locked g) eqn:Lg.
    + eapply Hfail; [done..| |].
      * eexists. split; [done|]. simpl. by rewrite He, Hmeta.
      * intros. eapply eviction_sidecar_left; eauto.
    + eapply Hok; [done..| |].
      * eexists. split; [done|]. simpl. by rewrite He, Hmeta.
      * intros. eapply eviction_removed; eauto. intros; congruence.
  - eapply Hok; [done..| |].
    * eexists. split; [done|]. simpl. by rewrite He.
    * intros. eapply eviction_removed; eauto; [intros; congruence|].
      rewrite delete_id; [done|].
      rewrite lookup_delete_ne; [done|]. symmetry. apply metadataPath_ne.
Qed.

Lemma totalSizeOf_from (files : list cacheItem) (start : Z) :
  foldl (λ sum item, sum + Z.of_nat (itemSize item)) start files
  = start + totalSizeOf files.
Proof.
  unfold totalSizeOf. revert start.
  induction files as [|x files IH]; intros start; simpl; [lia|].
  rewrite IH, (IH (0 + _)). lia.
Qed.

Lemma totalSizeOf_cons (x : cacheItem) (files : list cacheItem) :
  totalSizeOf (x :: files) = Z.of_nat (itemSize x) + totalSizeOf files.
Proof. unfold totalSizeOf at 1. simpl. by rewrite totalSizeOf_from. Qed.

Lemma totalSizeOf_Permutation (l1 l2 : list cacheItem) :
  l1 ≡ₚ l2 → totalSizeOf l1 = totalSizeOf l2.
Proof.
  induction 1; rewrite ?totalSizeOf_cons; lia.
Qed.

Lemma payloadItems_delete (d : gmap string file) (name : string) (f : file) :
  d !! name = Some f →
  payloadItems d ≡ₚ
    (if isPayloadName name then [CacheItem name (size f) (mtime f)] else [])
    ++ payloadItems (delete name d).
Proof.
  intros Hf. unfold payloadItems.
  rewrite <- (map_to_list_delete d name f Hf). rewrite filter_cons. simpl.
  destruct (isPayloadName name) eqn:E.
  - rewrite decide_True by done. done.
  - rewrite decide_False by (by intros ?). done.
Qed.

Lemma payloadTotal_delete (d : gmap string file) (name : string) (f : file) :
  d !! name = Some f →
  payloadTotal (delete name d)
  = payloadTotal d
    - (if isPayloadName name then Z.of_nat (size f) else 0).
Proof.
  intros Hf. unfold payloadTotal.
  rewrite (totalSizeOf_Permutation _ _ (payloadItems_delete d name f Hf)).
  destruct (isPayloadName name); simpl.
  - rewrite totalSizeOf_cons. simpl. lia.
  - lia.
Qed.


Section Eviction.
Variable limit : Z.

Lemma eviction_nothing d cur entries d' cur' warned :
  eviction limit d cur entries d' cur' [] warned →
  d' = d ∧ cur' = cur ∧ warned = [].
Proof. by inversion 1. Qed.

(** The attempts are a prefix of the entries, and the pass stops only at
    the end of the list or with the running total within the limit. *)
Lemma eviction_prefix d cur entries d' cur' att warned :
  eviction limit d cur entries d' cur' att warned →
  ∃ rest, entries = att ++ rest ∧ (rest = [] ∨ cur' ≤ limit).
Proof.
  induction 1 as [| |d cur e0 rest f d' cur' att warned Hgt Hf Hl Hg Hev IH
                  |d cur e0 rest f g d' cur' att warned Hgt Hf Hl Hg Hlg
                     Hev IH
                  |d cur e0 rest d' cur' att warned Hgt Hf Hev IH].
  - exists []. auto.
  - eexists. split; [done|]. auto.
  - destruct IH as [r [-> ?]]. by exists r.
  - destruct IH as [r [-> ?]]. by exists r.
  - destruct IH as [r [-> ?]]. by exists r.
Qed.

(** Every attempt is made with the running total above the limit: without
    the last attempted entry the total would still be above it. *)
Lemma eviction_guard d cur entries d' cur' att warned pre e :
  eviction limit d cur entries d' cur' att warned →
  att = pre ++ [e] → limit < cur' + Z.of_nat (itemSize e).
Proof.
  intros Hev. revert pre.
  induction Hev as [| |d cur e0 rest f d' cur' att warned Hgt Hf Hl Hg Hev IH
                    |d cur e0 rest f g d' cur' att warned Hgt Hf Hl Hg Hlg
                       Hev IH
                    |d cur e0 rest d' cur' att warned Hgt Hf Hev IH];
    intros pre Hatt.
  - by destruct pre.
  - by destruct pre.
  - destruct pre as [|p pre]; simplify_eq/=.
    + apply eviction_nothing in Hev as (_ & -> & _). lia.
    + by eapply IH.
  - destruct pre as [|p pre]; simplify_eq/=.
    + apply eviction_nothing in Hev as (_ & -> & _). lia.
    + by eapply IH.
  - destruct pre as [|p pre]; simplify_eq/=.
    + apply eviction_nothing in Hev as (_ & -> & _). lia.
    + by eapply IH.
Qed.

Lemma eviction_subseteq d cur entries d' cur' att warned :
  eviction limit d cur entries d' cur' att warned → d' ⊆ d.
Proof.
  induction 1; try done.
  - etrans; [eassumption|]. etrans; apply delete_subseteq.
  - etrans; [eassumption|]. apply delete_subseteq.
Qed.

(** Only the attempted entries and their sidecars are touched. *)
Lemma eviction_untouched d cur entries d' cur' att warned name :
  eviction limit d cur entries d' cur' att warned →
  (∀ e, e ∈ att →
        name ≠ itemFile e ∧ name ≠ metadataPathFor (itemFile e)) →
  d' !! name = d !! name.
Proof.
  induction 1 as [| |d cur e0 rest f d' cur' att warned Hgt Hf Hl Hg Hev IH
                  |d cur e0 rest f g d' cur' att warned Hgt Hf Hl Hg Hlg
                     Hev IH
                  |d cur e0 rest d' cur' att warned Hgt Hf Hev IH];
    intros Hn; try done.
  - destruct (Hn e0) as [? ?]; [by left|].
    rewrite IH by (intros; apply Hn; by right).
    by rewrite !lookup_delete_ne.
  - destruct (Hn e0) as [? ?]; [by left|].
    rewrite IH by (intros; apply Hn; by right).
    by rewrite lookup_delete_ne.
  - apply IH. intros; apply Hn; by right.
Qed.

(** An attempted entry is gone together with its sidecar, or a warning
    names it. *)
Lemma eviction_outcome d cur entries d' cur' att warned e :
  eviction limit d cur entries d' cur' att warned → e ∈ att →
  (d' !! itemFile e = None ∧ d' !! metadataPathFor (itemFile e) = None)
  ∨ itemFile e ∈ warned.
Proof.
  induction 1 as [| |d cur e0 rest f d' cur' att warned Hgt Hf Hl Hg Hev IH
                  |d cur e0 rest f g d' cur' att warned Hgt Hf Hl Hg Hlg
                     Hev IH
                  |d cur e0 rest d' cur' att warned Hgt Hf Hev IH];
    intros He; try (by apply elem_of_nil in He).
  - apply elem_of_cons in He as [->|He]; [|by apply IH].
    left. pose proof (eviction_subseteq _ _ _ _ _ _ _ Hev) as Hsub.
    split; eapply lookup_weaken_None; try exact Hsub.
    + rewrite lookup_delete_ne by apply metadataPath_ne.
      apply lookup_delete_eq.
    + apply lookup_delete_eq.
  - apply elem_of_cons in He as [->|He]; [right; by left|].
    destruct (IH He); [by left|right; by right].
  - apply elem_of_cons in He as [->|He]; [right; by left|].
    destruct (IH He); [by left|right; by right].
Qed.


Lemma tracks_step d e rest d1 :
  tracks d (e :: rest) →
  (∀ name, name ≠ itemFile e → name ≠ metadataPathFor (itemFile e) →
           d1 !! name = d !! name) →
  tracks d1 rest.
Proof.
  intros [Hnd Hall] Hsame. rewrite fmap_cons in Hnd.
  apply NoDup_cons in Hnd as [Hnotin Hnd].
  apply Forall_cons in Hall as [_ Hall]. split; [done|].
  apply Forall_forall. intros x Hx.
  rewrite Forall_forall in Hall. destruct (Hall x Hx) as (Hp & f & Hf & Hs).
  split; [done|]. exists f. split; [|done]. rewrite Hsame; [done| |].
  - intros E. apply Hnotin. rewrite <- E. by apply list_elem_of_fmap_2.
  - intros E. rewrite E, metadataPath_not_payload in Hp. done.
Qed.


End Eviction.

(** *** The sort and the listing *)

Lemma insertByMtime_Permutation (x : cacheItem) (l : list cacheItem) :
  insertByMtime x l ≡ₚ x :: l.
Proof.
  induction l as [|y l IH]; simpl; [done|].
  destruct (itemMtime x <=? itemMtime y); [done|].
  rewrite IH. apply perm_swap.
Qed.

Lemma sortByMtime_Permutation (l : list cacheItem) : sortByMtime l ≡ₚ l.
Proof.
  induction l as [|x l IH]; simpl; [done|].
  by rewrite insertByMtime_Permutation, IH.
Qed.

Lemma insertByMtime_Sorted (x : cacheItem) (l : list cacheItem) :
  Sorted olderOrEqual l → Sorted olderOrEqual (insertByMtime x l).
Proof.
  induction 1 as [|y l Hs IH Hhd]; simpl; [by repeat constructor|].
  destruct (Z.leb_spec (itemMtime x) (itemMtime y)) as [Hle|Hgt].
  - repeat constructor; done.
  - constructor; [done|].
    destruct l as [|z l]; simpl in *.
    + constructor. unfold olderOrEqual. lia.
    + destruct (itemMtime x <=? itemMtime z).
      * constructor. unfold olderOrEqual. lia.
      * constructor. by inversion Hhd.
Qed.

Lemma sortByMtime_Sorted (l : list cacheItem) :
  StronglySorted olderOrEqual (sortByMtime l).
Proof.
  apply Sorted_StronglySorted.
  { intros a b c. unfold olderOrEqual. lia. }
  induction l as [|x l IH]; simpl; [constructor|].
  by apply insertByMtime_Sorted.
Qed.

Lemma filter_fst_names (l : list (string * file)) :
  filter (λ name, isPayloadName name = true) (l.*1)
  = (filter (λ e, isPayloadName e.1 = true) l).*1.
Proof.
  induction l as [|[n f] l IH]; [done|]. rewrite fmap_cons, !filter_cons.
  simpl. destruct (decide (isPayloadName n = true)); simpl; by rewrite IH.
Qed.

Lemma mapM_stat (d : gmap string file) (c : Z) (es : list (string * file))
    (t : list effect) :
  Forall (λ e, d !! e.1 = Some e.2) es →
  mapM (λ name, let* stats := statSync name in
                ret (CacheItem name (size stats) (mtime stats)))
       (es.*1) (World d c t)
  = Ok (toItem <$> es) (World d c (t ++ (FsStat <$> es.*1))).
Proof.
  revert t. induction es as [|[n f] es IH]; intros t Hall; simpl.
  { by rewrite app_nil_r. }
  apply Forall_cons in Hall as [Hn Hall]. simpl in Hn.
  unfold bind at 1. unfold statSync at 1, bind, emit, getDisk. simpl.
  rewrite Hn. unfold ret at 1. simpl.
  rewrite IH by done. unfold ret. simpl.
  by rewrite <- app_assoc.
Qed.

Lemma listFiles_run (w : world) :
  listFiles w =
    Ok (payloadItems (disk w))
       (World (disk w) (clock w)
          (trace w ++ FsReaddir
                   :: (FsStat <$> (itemFile <$> payloadItems (disk w))))).
Proof.
  unfold listFiles, readdirSync. unfold bind at 1 2 3, emit, getDisk, ret.
  simpl. rewrite filter_fst_names, mapM_stat.
  - unfold payloadItems. rewrite <- app_assoc. simpl.
    do 3 f_equal. rewrite <- !list_fmap_compose. done.
  - apply Forall_forall. intros [n f] [_ Hin]%list_elem_of_filter.
    by apply elem_of_map_to_list in Hin.
Qed.

Lemma payloadItems_elem (d : gmap string file) (x : cacheItem) :
  x ∈ payloadItems d ↔
  isPayloadName (itemFile x) = true
  ∧ ∃ f, d !! itemFile x = Some f ∧ itemSize x = size f
         ∧ itemMtime x = mtime f.
Proof.
  unfold payloadItems. rewrite list_elem_of_fmap. split.
  - intros ([n f] & -> & [Hp Hin]%list_elem_of_filter).
    apply elem_of_map_to_list in Hin. split; [done|]. by exists f.
  - intros (Hp & f & Hf & Hs & Hm). exists (itemFile x, f). split.
    + destruct x. simpl in *. by subst.
    + apply list_elem_of_filter. split; [done|].
      by apply elem_of_map_to_list.
Qed.

Lemma tracks_payloadItems (d : gmap string file) (l : list cacheItem) :
  l ≡ₚ payloadItems d → tracks d l.
Proof.
  intros Hl. split.
  - rewrite Hl. unfold payloadItems. rewrite <- list_fmap_compose.
    eapply sublist_NoDup; [apply (NoDup_fst_map_to_list d)|].
    apply fmap_sublist, sublist_filter.
  - apply Forall_forall. intros x Hx. rewrite Hl in Hx.
    apply payloadItems_elem in Hx as (Hp & f & Hf & Hs & _).
    split; [done|]. by exists f.
Qed.

Lemma payloadUnlinks_stats (names : list string) :
  payloadUnlinks (FsStat <$> names) = []
  ∧ warnedFiles (FsStat <$> names) = [].
Proof. induction names as [|n names [IH1 IH2]]; [done|]. simpl. done. Qed.


(** The pass as one run of the eviction relation over the sorted payload
    entries, starting from their total. *)
Lemma enforceCacheLimit_eviction (cfg : Config) (w : world) :
  ∃ w' cur' att warned Δ,
    enforceCacheLimit cfg w = Ok tt w'
    ∧ eviction (maxCacheBytes cfg) (disk w) (payloadTotal (disk w))
        (sortByMtime (payloadItems (disk w))) (disk w') cur' att warned
    ∧ clock w' = clock w
    ∧ trace w' = trace w ++ Δ
    ∧ payloadUnlinks Δ = itemFile <$> att
    ∧ warnedFiles Δ = warned.
Proof.
  pose proof (sortByMtime_Permutation (payloadItems (disk w))) as Hperm.
  pose proof (payloadUnlinks_stats (itemFile <$> payloadItems (disk w)))
    as [Hstat1 Hstat2].
  remember (enforceCacheLimit cfg w) as r eqn:Er.
  unfold enforceCacheLimit in Er. unfold bind at 1 in Er.
  rewrite listFiles_run in Er.
  change (totalSizeOf (payloadItems (disk w))) with (payloadTotal (disk w))
    in Er.
  destruct (Z.leb_spec (payloadTotal (disk w)) (maxCacheBytes cfg))
    as [Hle|Hgt].
  - subst r. eexists _, (payloadTotal (disk w)), [], [], _.
    split; [reflexivity|]. simpl. split.
    { destruct (sortByMtime (payloadItems (disk w))); by constructor. }
    split; [done|]. split; [done|]. simpl. done.
  - set (w1 := World (disk w) (clock w)
                 (trace w ++ FsReaddir
                    :: (FsStat <$> (itemFile <$> payloadItems (disk w)))))
      in Er.
    destruct (evictLoop_eviction cfg (sortByMtime (payloadItems (disk w)))
                (payloadTotal (disk w)) w1)
      as (cur' & w' & att & warned & Δ & Hrun & Hev & Hc & Ht & Hu & Hw).
    { destruct (tracks_payloadItems (disk w) _ Hperm) as [_ Hall].
      eapply Forall_impl; [exact Hall|]. by intros ? [? _]. }
    unfold bind in Er. rewrite Hrun in Er. unfold ret in Er. subst r.
    exists w', cur', att, warned,
      (FsReaddir :: (FsStat <$> (itemFile <$> payloadItems (disk w))) ++ Δ).
    split; [done|]. split; [exact Hev|]. split; [done|].
    split; [by rewrite Ht; unfold w1; simpl; rewrite <- app_assoc|].
    unfold payloadUnlinks, warnedFiles in *. simpl.
    by rewrite !omap_app, Hstat1, Hstat2, Hu, Hw.
Qed.

Lemma eviction_attempted_in limit d cur entries d' cur' att warned e :
  eviction limit d cur entries d' cur' att warned → e ∈ att → e ∈ entries.
Proof.
  intros Hev He. apply eviction_prefix in Hev as (rest & -> & _).
  apply elem_of_app. by left.
Qed.

Lemma metadataPathFor_inj (a b : string) :
  metadataPathFor a = metadataPathFor b → a = b.
Proof.
  unfold metadataPathFor. revert b.
  induction a as [|x a IH]; intros [|y b] E; simpl in E; try done.
  - injection E as -> E. destruct b as [|? [|? [|? [|? [|? ?]]]]]; done.
  - injection E as -> E. destruct a as [|? [|? [|? [|? [|? ?]]]]]; done.
  - injection E as -> E. f_equal. by apply IH.
Qed.

Lemma eviction_within limit d cur entries d' cur' att warned :
  eviction limit d cur entries d' cur' att warned → cur ≤ limit →
  d' = d ∧ att = [].
Proof. inversion 1; intros; first [done|lia]. Qed.

Section EvictionRun.
Variable limit : Z.






End EvictionRun.




(** C9.  The eviction pass works on exactly the entries of the directory
    whose names do not end in [.json].  So the staging file [<key>.tmp] of
    an ingestion in flight is one of them: its size is part of the total
    and it can be removed.  In the interleaving [Sample.interleaved] the
    pass that ends the ingestion of one request removes the staging file of
    another request that has neither ended nor been aborted, whose own end
    then fails on the rename. *)
Theorem eviction_candidates_include_staging :
  (∀ w, ∃ w', listFiles w = Ok (payloadItems (disk w)) w'
              ∧ disk w' = disk w)
  ∧ (∀ d x, x ∈ payloadItems d ↔
       Js.endsWith ".json" (itemFile x) = false
       ∧ ∃ f, d !! itemFile x = Some f ∧ itemSize x = size f
              ∧ itemMtime x = mtime f)
  ∧ (∀ d cacheFile f,
       d !! tempFileFor cacheFile = Some f →
       CacheItem (tempFileFor cacheFile) (size f) (mtime f) ∈ payloadItems d
       ∧ payloadTotal d
         = Z.of_nat (size f) + payloadTotal (delete (tempFileFor cacheFile) d))
  ∧ (∃ ig w,
       Sample.interleaved = Ok ig w
       ∧ aborted ig = false
       ∧ disk w !! tempFileFor (igCacheFile ig) = None
       ∧ FsUnlink (tempFileFor (igCacheFile ig)) ∈ trace w
       ∧ ∃ w', onEnd (H:=Sample.runtime) Sample.smallConfig ig w
               = Threw "ENOENT" w').
Proof.
  split; [|split; [|split]].
  - intros w. rewrite listFiles_run. by eexists.
  - intros d x. rewrite payloadItems_elem. unfold isPayloadName.
    by rewrite negb_true_iff.
  - intros d cacheFile f Hf. split.
    + apply payloadItems_elem. simpl. split; [apply tempFile_is_payload|].
      by exists f.
    + rewrite (payloadTotal_delete _ _ f Hf), tempFile_is_payload. lia.
  - eexists _, _. split; [vm_compute; reflexivity|].
    split; [reflexivity|]. split; [reflexivity|].
    split; [|eexists; vm_compute; reflexivity].
    vm_compute. do 10 apply list_elem_of_further. apply list_elem_of_here.
Qed.

Lemma eviction_candidates_include_staging_witness :
  let d : gmap string file :=
    <["k.png.tmp" := File "xyz" 4 true false]>
      (<["k.png.json" := File "{}" 1 true false]> ∅) in
  CacheItem "k.png.tmp" 3 4 ∈ payloadItems d
  ∧ payloadTotal d = 3 + payloadTotal (delete "k.png.tmp" d).
Proof.
  intros d.
  destruct eviction_candidates_include_staging as (_ & _ & Hstaging & _).
  exact (Hstaging d "k.png" (File "xyz" 4 true false) eq_refl).
Defined.

(** ** Failure responses and the response callback *)

#[local] Arguments renderFailureSvg : simpl never.
#[local] Arguments sendFailure : simpl never.

Lemma sendFailure_run (cfg : Config) (rq : nat) (reason : string)
    (status : option Z) (w : world) :
  sendFailure cfg rq reason status w
  = Ok tt (World (disk w) (clock w)
             (trace w ++ failureResponse cfg rq reason (default 413 status))).
Proof. unfold sendFailure, bind, emit. simpl. by rewrite <- app_assoc. Qed.

Lemma drain_run (rq : nat) (chunks : list string) (w : world) :
  drain rq chunks w
  = Ok tt (World (disk w) (clock w) (trace w ++ drainEffects rq chunks)).
Proof.
  revert w. induction chunks as [|c chunks IH]; intros w; simpl.
  - unfold ret. rewrite app_nil_r. by destruct w.
  - unfold bind, emit. rewrite IH. simpl. by rewrite <- app_assoc.
Qed.

(** The reason and status of the failure by which the response callback
    turns a response down, in the order of its three checks. *)
Lemma onResponse_rejected `{Runtime} (cfg : Config) (rq : nat)
    (cacheFile : string) (r : upstreamResponse) (w : world) :
  let contentType := default EmptyString (headers r !! "content-type") in
  ∀ reason status,
    (statusCode r ≠ 200
     ∧ reason = "Imgur responded with status "
                +:+ Js.showInt (statusCode r) +:+ "."
     ∧ status = (if statusCode r =? 0 then 502 else statusCode r))
    ∨ (statusCode r = 200
       ∧ Js.startsWith "image/" contentType = false
       ∧ reason = "Imgur response was not an image." ∧ status = 413)
    ∨ (statusCode r = 200
       ∧ Js.startsWith "image/" contentType = true
       ∧ declaredTooLong cfg r = true
       ∧ reason = oversizeReason ∧ status = 413) →
    onResponse cfg rq cacheFile r w
    = Ok None (World (disk w) (clock w)
                 (trace w ++ failureResponse cfg rq reason status
                          ++ [UpResume rq])).
Proof.
  intros contentType reason status Hcase. subst contentType.
  unfold onResponse.
  destruct Hcase as [(Hs & -> & ->) | [(Hs & Ht & -> & ->)
                                      | (Hs & Ht & Hd & -> & ->)]].
  - apply Z.eqb_neq in Hs. rewrite Hs. cbn [negb].
    unfold bind at 1. rewrite sendFailure_run. unfold bind, emit, ret. simpl.
    by rewrite <- app_assoc.
  - rewrite Hs, Z.eqb_refl, Ht. cbn [negb].
    unfold bind at 1. rewrite sendFailure_run. unfold bind, emit, ret. simpl.
    by rewrite <- app_assoc.
  - rewrite Hs, Z.eqb_refl, Ht, Hd. cbn [negb].
    unfold bind at 1. rewrite sendFailure_run. unfold bind, emit, ret. simpl.
    by rewrite <- app_assoc.
Qed.

(** The staging entry that [createWriteStream] leaves in the directory. *)
Lemma onResponse_accepted `{Runtime} (cfg : Config) (rq : nat)
    (cacheFile : string) (r : upstreamResponse) (w : world) :
  let contentType := default EmptyString (headers r !! "content-type") in
  let tempFile := tempFileFor cacheFile in
  statusCode r = 200 →
  Js.startsWith "image/" contentType = true →
  declaredTooLong cfg r = false →
  (∀ f, disk w !! tempFile = Some f → locked f = false) →
  ∃ staged,
    content staged = EmptyString ∧ locked staged = false
    ∧ onResponse cfg rq cacheFile r w
      = Ok (Some (Ingest rq cacheFile contentType 0 false))
           (World (<[tempFile := staged]> (disk w)) (clock w)
              (trace w ++ [FsCreateWriteStream tempFile])).
Proof.
  intros contentType tempFile Hs Ht Hd Hl. subst contentType tempFile.
  unfold onResponse. rewrite Hs, Z.eqb_refl, Ht, Hd. cbn [negb].
  unfold bind at 1. unfold createWriteStream, bind, emit, getDisk, getClock,
    setDisk, ret, throw. simpl.
  destruct (disk w !! tempFileFor cacheFile) as [f|] eqn:Ef.
  - rewrite (Hl f eq_refl). simpl.
    by exists (File EmptyString (clock w) (readable f) false).
  - simpl. by exists (File EmptyString (clock w) true false).
Qed.

(** ** The stream handlers *)

Lemma onData_within (cfg : Config) (chunk : string) (ig : ingest)
    (w : world) :
  aborted ig = false →
  Z.of_nat (downloaded ig + String.length chunk) ≤ maxDownloadBytes cfg →
  onData cfg chunk ig w
  = Ok (Ingest (igRq ig) (igCacheFile ig) (igContentType ig)
          (downloaded ig + String.length chunk) false)
       (World (alter (appendChunk (clock w) chunk)
                 (tempFileFor (igCacheFile ig)) (disk w))
          (clock w)
          (trace w ++ [FsStreamWrite (tempFileFor (igCacheFile ig)) chunk])).
Proof.
  intros Ha Hle. unfold onData. rewrite Ha.
  rewrite (proj2 (Z.ltb_ge _ _)) by lia. cbn [negb andb].
  unfold bind, streamWrite, bind, emit, getDisk, getClock, setDisk, ret.
  simpl. done.
Qed.

Lemma onData_overflow (cfg : Config) (chunk : string) (ig : ingest)
    (w : world) (f : file) :
  let tempFile := tempFileFor (igCacheFile ig) in
  aborted ig = false →
  maxDownloadBytes cfg < Z.of_nat (downloaded ig + String.length chunk) →
  disk w !! tempFile = Some f → locked f = false →
  onData cfg chunk ig w
  = Ok (Ingest (igRq ig) (igCacheFile ig) (igContentType ig)
          (downloaded ig + String.length chunk) true)
       (World (delete tempFile (disk w)) (clock w)
          (trace w ++ [UpDestroy (igRq ig); FsStreamDestroy tempFile;
                       FsExists tempFile; FsUnlink tempFile]
                   ++ failureResponse cfg (igRq ig) oversizeReason 413)).
Proof.
  intros tempFile Ha Hgt Hf Hl. subst tempFile. unfold onData. rewrite Ha.
  rewrite (proj2 (Z.ltb_lt _ _)) by lia. cbn [negb andb].
  unfold bind at 1 2 3 4, emit, streamDestroy, emit, discardStaging,
    existsSync, bind, emit, getDisk, ret. simpl. rewrite Hf. simpl.
  unfold unlinkSync, bind, emit, getDisk, setDisk, throw. simpl.
  rewrite Hf, Hl. simpl. unfold failureResponse.
  by rewrite <- !app_assoc.
Qed.

(** Once aborted, no handler touches the world any more. *)
Lemma handlers_after_abort `{Runtime} (cfg : Config) (ig : ingest)
    (w : world) :
  aborted ig = true →
  (∀ chunk, ∃ ig', onData cfg chunk ig w = Ok ig' w ∧ aborted ig' = true)
  ∧ onEnd cfg ig w = Ok tt w
  ∧ (∀ message, onError cfg message ig w = Ok tt w).
Proof.
  intros Ha. split; [|split].
  - intros chunk. unfold onData. rewrite Ha, andb_false_r. simpl.
    unfold bind, ret. by eexists.
  - unfold onEnd. by rewrite Ha.
  - intros message. unfold onError. by rewrite Ha.
Qed.

(** *** Running the steps of a handler *)

Lemma bind_ok {A B} (m : M A) (k : A → M B) (w w' : world) (a : A) :
  m w = Ok a w' → bind m k w = k a w'.
Proof. unfold bind. by intros ->. Qed.

Lemma emit_run (e : effect) (w : world) :
  emit e w = Ok tt (World (disk w) (clock w) (trace w ++ [e])).
Proof. reflexivity. Qed.

Lemma renameSync_run (src dst : string) (w : world) (f : file) :
  disk w !! src = Some f →
  (∀ g, disk w !! dst = Some g → locked g = false) →
  renameSync src dst w
  = Ok tt (World (<[dst := f]> (delete src (disk w))) (clock w)
             (trace w ++ [FsRename src dst])).
Proof.
  intros Hf Hg. unfold renameSync, bind, emit, getDisk, setDisk, throw.
  simpl. rewrite Hf. destruct (disk w !! dst) as [g|] eqn:Eg; [|done].
  by rewrite (Hg g eq_refl).
Qed.

Lemma writeFileSync_run (name data : string) (w : world) :
  (∀ g, disk w !! name = Some g → locked g = false) →
  ∃ recorded,
    content recorded = data ∧ mtime recorded = clock w
    ∧ locked recorded = false
    ∧ writeFileSync name data w
      = Ok tt (World (<[name := recorded]> (disk w)) (clock w)
                 (trace w ++ [FsWriteFile name data])).
Proof.
  intros Hg. unfold writeFileSync, bind, emit, getDisk, getClock, setDisk,
    throw. simpl.
  destruct (disk w !! name) as [g|] eqn:Eg.
  - rewrite (Hg g eq_refl). by exists (File data (clock w) (readable g) false).
  - by exists (File data (clock w) true false).
Qed.

(** *** The staging entry under the writes of a body *)

Lemma writeChunks_lookup_ne (name other : string) (now : Z)
    (chunks : list string) (d : gmap string file) :
  name ≠ other → writeChunks name now chunks d !! other = d !! other.
Proof.
  intros Hne. revert d. unfold writeChunks.
  induction chunks as [|c chunks IH]; intros d; simpl; [done|].
  by rewrite IH, lookup_alter_ne.
Qed.

Lemma writeChunks_lookup (name : string) (now : Z) (chunks : list string)
    (d : gmap string file) (f : file) :
  d !! name = Some f →
  ∃ f', writeChunks name now chunks d !! name = Some f'
        ∧ content f' = content f +:+ Js.joinEmpty chunks
        ∧ locked f' = locked f ∧ readable f' = readable f.
Proof.
  revert d f. unfold writeChunks.
  induction chunks as [|c chunks IH]; intros d f Hf; simpl.
  - exists f. by rewrite sapp_nil_r.
  - destruct (IH (alter (appendChunk now c) name d) (appendChunk now c f))
      as (f' & Hl & Hc & Hk & Hr).
    { by rewrite lookup_alter_eq, Hf. }
    exists f'. split; [done|]. simpl in *. by rewrite Hc, sapp_assoc.
Qed.

Lemma delete_writeChunks (name : string) (now : Z) (chunks : list string)
    (d : gmap string file) :
  delete name (writeChunks name now chunks d) = delete name d.
Proof.
  apply map_eq. intros other. destruct (decide (name = other)) as [->|Hne].
  - by rewrite !lookup_delete_eq.
  - by rewrite !lookup_delete_ne, writeChunks_lookup_ne.
Qed.

Lemma writeChunks_app (name : string) (now : Z) (c1 c2 : list string)
    (d : gmap string file) :
  writeChunks name now (c1 ++ c2) d
  = writeChunks name now c2 (writeChunks name now c1 d).
Proof. unfold writeChunks. by rewrite foldl_app. Qed.

Lemma totalLength_app (c1 c2 : list string) :
  totalLength (c1 ++ c2) = (totalLength c1 + totalLength c2)%nat.
Proof. induction c1; simpl; lia. Qed.

Lemma chunkEffects_app (rq : nat) (name : string) (c1 c2 : list string) :
  chunkEffects rq name (c1 ++ c2)
  = chunkEffects rq name c1 ++ chunkEffects rq name c2.
Proof. unfold chunkEffects. by rewrite bind_app. Qed.

(** Chunks that stay within the ceiling are received and written, and the
    delivery goes on with what follows them. *)
Lemma flow_within `{Runtime} (cfg : Config) (pre rest : list string)
    (ending : upstreamEnd) (ig : ingest) (w : world) :
  aborted ig = false →
  Z.of_nat (downloaded ig + totalLength pre) ≤ maxDownloadBytes cfg →
  flow cfg (pre ++ rest) ending ig w
  = flow cfg rest ending
      (Ingest (igRq ig) (igCacheFile ig) (igContentType ig)
         (downloaded ig + totalLength pre) false)
      (World (writeChunks (tempFileFor (igCacheFile ig)) (clock w) pre
                (disk w))
         (clock w)
         (trace w ++ chunkEffects (igRq ig) (tempFileFor (igCacheFile ig))
                       pre)).
Proof.
  revert ig w. induction pre as [|c pre IH]; intros ig w Ha Hle.
  - simpl. rewrite Nat.add_0_r, app_nil_r. destruct ig, w. simpl in *.
    by subst.
  - simpl in Hle. rewrite <- app_comm_cons.
    change (flow cfg (c :: pre ++ rest) ending ig w)
      with (bind (emit (UpReceive (igRq ig) (String.length c)))
              (λ _, bind (onData cfg c ig)
                      (λ ig', if aborted ig' then ret tt
                              else flow cfg (pre ++ rest) ending ig')) w).
    rewrite (bind_ok _ _ _ _ _ (emit_run _ _)).
    erewrite bind_ok; [|apply onData_within; [done|simpl; lia]].
    cbn [aborted]. rewrite IH; [|done|simpl; lia]. simpl.
    by rewrite <- Nat.add_assoc, <- !app_assoc.
Qed.

Lemma flow_to_end `{Runtime} (cfg : Config) (chunks : list string)
    (ending : upstreamEnd) (ig : ingest) (w : world) :
  aborted ig = false →
  Z.of_nat (downloaded ig + totalLength chunks) ≤ maxDownloadBytes cfg →
  flow cfg chunks ending ig w
  = match ending with
    | StreamEnds => onEnd cfg
    | StreamErrors message => onError cfg message
    end
      (Ingest (igRq ig) (igCacheFile ig) (igContentType ig)
         (downloaded ig + totalLength chunks) false)
      (World (writeChunks (tempFileFor (igCacheFile ig)) (clock w) chunks
                (disk w))
         (clock w)
         (trace w ++ chunkEffects (igRq ig) (tempFileFor (igCacheFile ig))
                       chunks)).
Proof.
  intros Ha Hle. rewrite <- (app_nil_r chunks) at 1.
  rewrite flow_within by done. simpl. by destruct ending.
Qed.

Lemma overflow_split (ceiling : Z) (chunks : list string) :
  0 ≤ ceiling → ceiling < Z.of_nat (totalLength chunks) →
  ∃ pre chunk post,
    chunks = pre ++ chunk :: post
    ∧ Z.of_nat (totalLength pre) ≤ ceiling
      < Z.of_nat (totalLength pre + String.length chunk).
Proof.
  revert ceiling. induction chunks as [|c chunks IH]; intros ceiling H0 Hgt.
  - simpl in Hgt. lia.
  - destruct (decide (ceiling < Z.of_nat (String.length c))) as [Hc|Hc].
    + exists [], c, chunks. simpl. split; [done|lia].
    + destruct (IH (ceiling - Z.of_nat (String.length c)))
        as (pre & chunk & post & -> & Hpre); [lia|simpl in Hgt; lia|].
      exists (c :: pre), chunk, post. simpl. split; [done|lia].
Qed.

(** C1.  A response that the callback lets in (status 200, an image type,
    no declared length above the ceiling) and whose body grows beyond
    [maxDownloadBytes] is cut at the first chunk that takes the count over
    the ceiling: the chunks before it are received and written, that chunk
    is received and not written, the upstream and the staging stream are
    destroyed, the staging entry is unlinked and the oversize placeholder
    is sent with status 413.  Nothing of the rest of the body is received
    or written, the directory ends as it began without the staging entry,
    and a handler that runs after the abort changes nothing. *)
Theorem ingestion_aborts_on_overflow `{Runtime} (cfg : Config) (rq : nat)
    (cacheFile : string) (r : upstreamResponse) (w : world) :
  let tempFile := tempFileFor cacheFile in
  statusCode r = 200 →
  Js.startsWith "image/"
    (default EmptyString (headers r !! "content-type")) = true →
  declaredTooLong cfg r = false →
  (∀ f, disk w !! tempFile = Some f → locked f = false) →
  0 ≤ maxDownloadBytes cfg →
  maxDownloadBytes cfg < Z.of_nat (totalLength (body r)) →
  ∃ pre chunk post w',
    body r = pre ++ chunk :: post
    ∧ Z.of_nat (totalLength pre) ≤ maxDownloadBytes cfg
      < Z.of_nat (totalLength pre + String.length chunk)
    ∧ handleResponse cfg rq cacheFile r w = Ok tt w'
    ∧ trace w'
      = trace w ++ [FsCreateWriteStream tempFile]
          ++ chunkEffects rq tempFile pre
          ++ [UpReceive rq (String.length chunk); UpDestroy rq;
              FsStreamDestroy tempFile; FsExists tempFile;
              FsUnlink tempFile]
          ++ failureResponse cfg rq oversizeReason 413
    ∧ disk w' = delete tempFile (disk w)
    ∧ (∀ ig w0, aborted ig = true →
         (∀ c, ∃ ig', onData cfg c ig w0 = Ok ig' w0 ∧ aborted ig' = true)
         ∧ onEnd cfg ig w0 = Ok tt w0
         ∧ ∀ message, onError cfg message ig w0 = Ok tt w0).
Proof.
  intros tempFile Hs Ht Hd Hl H0 Hgt.
  destruct (overflow_split _ _ H0 Hgt) as (pre & chunk & post & Hb & Hsum).
  destruct (onResponse_accepted cfg rq cacheFile r w Hs Ht Hd Hl)
    as (staged & Hc & Hk & Hrun).
  destruct (writeChunks_lookup tempFile (clock w) pre
              (<[tempFile := staged]> (disk w)) staged)
    as (f' & Hf' & _ & Hk' & _); [apply lookup_insert_eq|].
  exists pre, chunk, post. eexists. split; [exact Hb|]. split; [exact Hsum|].
  split; [|split; [|split]].
  - unfold handleResponse. erewrite bind_ok by exact Hrun.
    rewrite Hb, flow_within by (simpl; first [done|lia]).
    simpl. rewrite (bind_ok _ _ _ _ _ (emit_run _ _)).
    erewrite bind_ok;
      [|eapply (onData_overflow cfg chunk _ _ f'); simpl;
        [done|lia|exact Hf'|congruence]].
    reflexivity.
  - simpl. by rewrite <- !app_assoc.
  - simpl. subst tempFile. by rewrite delete_writeChunks, delete_insert_eq.
  - intros ig w0 Ha. by apply handlers_after_abort.
Qed.

Lemma ingestion_aborts_on_overflow_witness :
  ∃ w',
    handleResponse (H:=Sample.runtime) Sample.smallConfig 1 "k.png"
      (Sample.imageResponse ["ab"; "cd"; "ef"; "g"]) Sample.emptyWorld
    = Ok tt w'
    ∧ disk w' = ∅
    ∧ trace w'
      = [FsCreateWriteStream "k.png.tmp";
         UpReceive 1 2; FsStreamWrite "k.png.tmp" "ab";
         UpReceive 1 2; FsStreamWrite "k.png.tmp" "cd";
         UpReceive 1 2; UpDestroy 1; FsStreamDestroy "k.png.tmp";
         FsExists "k.png.tmp"; FsUnlink "k.png.tmp"]
        ++ failureResponse Sample.smallConfig 1 oversizeReason 413.
Proof.
  destruct (ingestion_aborts_on_overflow (H:=Sample.runtime)
              Sample.smallConfig 1 "k.png"
              (Sample.imageResponse ["ab"; "cd"; "ef"; "g"])
              Sample.emptyWorld)
    as (pre & chunk & post & w' & _ & _ & Hrun & _);
    [reflexivity|reflexivity|reflexivity|
     intros f Hf; simpl in Hf; by rewrite lookup_empty in Hf|
     vm_compute; discriminate|vm_compute; reflexivity|].
  exists w'. split; [exact Hrun|].
  vm_compute in Hrun. injection Hrun as <-. split; reflexivity.
Defined.

(** ** A declared length above the ceiling *)

(** C5, as the code has it.  A response whose [content-length] header is
    a number above [maxDownloadBytes] is turned down by the callback before
    any handler is attached: no staging entry is created, the directory is
    unchanged and nothing is written.  The caller receives a failure
    placeholder, which for a 200 response of an image type is the oversize
    one with status 413.  The body is not left unread: after
    [proxyRes.resume()] its chunks are received from the upstream and
    discarded. *)
Theorem declared_oversize_rejected `{Runtime} (cfg : Config) (rq : nat)
    (cacheFile : string) (r : upstreamResponse) (w : world)
    (header : string) (contentLength : Z) :
  headers r !! "content-length" = Some header →
  header ≠ EmptyString →
  toNumber header = Some contentLength →
  maxDownloadBytes cfg < contentLength →
  ∃ reason status,
    handleResponse cfg rq cacheFile r w
    = Ok tt (World (disk w) (clock w)
               (trace w ++ failureResponse cfg rq reason status
                        ++ [UpResume rq] ++ drainEffects rq (body r)))
    ∧ (statusCode r = 200 →
       Js.startsWith "image/"
         (default EmptyString (headers r !! "content-type")) = true →
       reason = oversizeReason ∧ status = 413).
Proof.
  intros Hh Hne Hn Hgt.
  assert (declaredTooLong cfg r = true) as Hd.
  { unfold declaredTooLong. rewrite Hh, Hn.
    rewrite (proj2 (Z.ltb_lt _ _)) by done. by destruct header. }
  assert (∀ reason status,
    onResponse cfg rq cacheFile r w
    = Ok None (World (disk w) (clock w)
                 (trace w ++ failureResponse cfg rq reason status
                          ++ [UpResume rq])) →
    handleResponse cfg rq cacheFile r w
    = Ok tt (World (disk w) (clock w)
               (trace w ++ failureResponse cfg rq reason status
                        ++ [UpResume rq] ++ drainEffects rq (body r))))
    as Hdrain.
  { intros reason status Hrun. unfold handleResponse.
    erewrite bind_ok by exact Hrun. cbv beta iota. rewrite drain_run. simpl.
    by rewrite <- !app_assoc. }
  destruct (decide (statusCode r = 200)) as [Hs|Hs].
  - destruct (Js.startsWith "image/"
                (default EmptyString (headers r !! "content-type"))) eqn:Ht.
    + exists oversizeReason, 413. split; [|done].
      apply Hdrain, onResponse_rejected. right; right. done.
    + exists "Imgur response was not an image.", 413. split; [|done].
      apply Hdrain, onResponse_rejected. right; left. done.
  - eexists _, _. split; [|done].
    apply Hdrain, onResponse_rejected. left. done.
Qed.

Lemma declared_oversize_rejected_witness :
  handleResponse (H:=Sample.runtime) defaultConfig 1 "k.png"
    Sample.declaredHuge Sample.emptyWorld
  = Ok tt (World ∅ 0
             (failureResponse defaultConfig 1 oversizeReason 413
              ++ [UpResume 1; UpReceive 1 3])).
Proof.
  destruct (declared_oversize_rejected (H:=Sample.runtime) defaultConfig 1
              "k.png" Sample.declaredHuge Sample.emptyWorld
              "50000000" 50000000)
    as (reason & status & Hrun & Hwhich);
    [reflexivity|discriminate|reflexivity|reflexivity|].
  destruct (Hwhich eq_refl eq_refl) as [-> ->]. exact Hrun.
Defined.

Lemma declaredHuge_run :
  handleResponse (H:=Sample.runtime) defaultConfig 1 "k.png"
    Sample.declaredHuge Sample.emptyWorld
  = Ok tt (World ∅ 0
             (failureResponse defaultConfig 1 oversizeReason 413
              ++ [UpResume 1; UpReceive 1 3])).
Proof. vm_compute. reflexivity. Qed.

(** The claim C5 as the specification words it fails on [Sample.declaredHuge]
    under the default configuration: bytes of the body are received. *)
Lemma declared_oversize_body_is_received :
  ¬ (∀ w',
       handleResponse (H:=Sample.runtime) defaultConfig 1 "k.png"
         Sample.declaredHuge Sample.emptyWorld = Ok tt w' →
       Forall (λ e, ∀ bytes, e ≠ UpReceive 1 bytes) (trace w')).
Proof.
  intros Hnone. specialize (Hnone _ declaredHuge_run).
  rewrite Forall_forall in Hnone.
  eapply (Hnone (UpReceive 1 3)); [|reflexivity].
  cbn [trace]. apply elem_of_app. right.
  apply list_elem_of_further, list_elem_of_here.
Qed.

(** ** A body that ends within the ceiling *)

Lemma tempFile_ne_metadataPath (name : string) :
  tempFileFor name ≠ metadataPathFor name.
Proof.
  unfold tempFileFor, metadataPathFor. intros E.
  apply (f_equal String.length) in E. rewrite !slength_app in E.
  simpl in E. lia.
Qed.

Lemma enforceCacheLimit_run (cfg : Config) (w : world) :
  ∃ w' Δ,
    enforceCacheLimit cfg w = Ok tt w'
    ∧ trace w' = trace w ++ FsReaddir :: Δ
    ∧ clock w' = clock w
    ∧ disk w' ⊆ disk w.
Proof.
  remember (enforceCacheLimit cfg w) as r eqn:Er.
  unfold enforceCacheLimit in Er. unfold bind at 1 in Er.
  rewrite listFiles_run in Er.
  destruct (totalSizeOf (payloadItems (disk w)) <=? maxCacheBytes cfg).
  - subst r. eexists _, _. split; [reflexivity|]. simpl. done.
  - destruct (evictLoop_eviction cfg (sortByMtime (payloadItems (disk w)))
                (totalSizeOf (payloadItems (disk w)))
                (World (disk w) (clock w)
                   (trace w ++ FsReaddir
                      :: (FsStat <$> (itemFile <$> payloadItems (disk w))))))
      as (cur' & w' & att & warned & Δ & Hrun & Hev & Hc & Ht & _).
    { apply Forall_forall. intros x Hx.
      rewrite sortByMtime_Permutation in Hx.
      by apply payloadItems_elem in Hx as [? _]. }
    unfold bind in Er. rewrite Hrun in Er. unfold ret in Er. subst r.
    exists w', ((FsStat <$> (itemFile <$> payloadItems (disk w))) ++ Δ).
    split; [reflexivity|]. simpl in *.
    split; [by rewrite Ht, <- app_assoc|]. split; [done|].
    by eapply eviction_subseteq.
Qed.

(** The end handler up to the eviction pass: the staging stream is ended,
    the staging entry is renamed to the payload name, and the sidecar is
    written. *)
Lemma onEnd_publish `{Runtime} (cfg : Config) (ig : ingest) (w : world)
    (staged : file) :
  let cacheFile := igCacheFile ig in
  let tempFile := tempFileFor cacheFile in
  let metaFile := metadataPathFor cacheFile in
  let record := JSON_stringify (metadataRecord ig (clock w)) in
  aborted ig = false →
  disk w !! tempFile = Some staged →
  (∀ g, disk w !! cacheFile = Some g → locked g = false) →
  (∀ g, disk w !! metaFile = Some g → locked g = false) →
  ∃ recorded,
    content recorded = record
    ∧ onEnd cfg ig w
      = (enforceCacheLimit cfg ;;
         let* stats := statSync cacheFile in
         emit (ResWriteHead (igRq ig) 200
                 (successHeaders (JStr (igContentType ig)) (size stats))) ;;
         pipeFile (igRq ig) cacheFile)
          (World (<[metaFile := recorded]>
                    (<[cacheFile := staged]> (delete tempFile (disk w))))
             (clock w)
             (trace w ++ [FsStreamEnd tempFile; FsRename tempFile cacheFile;
                          FsWriteFile metaFile record])).
Proof.
  intros cacheFile tempFile metaFile record Ha Hs Hc Hm.
  pose proof (tempFile_ne cacheFile) as Hn1.
  pose proof (metadataPath_ne cacheFile) as Hn2.
  pose proof (tempFile_ne_metadataPath cacheFile) as Hn3.
  fold tempFile in Hn1, Hn3. fold metaFile in Hn2, Hn3.
  set (w1 := World (disk w) (clock w) (trace w ++ [FsStreamEnd tempFile])).
  set (w2 := World (<[cacheFile := staged]> (delete tempFile (disk w)))
               (clock w)
               (trace w ++ [FsStreamEnd tempFile;
                            FsRename tempFile cacheFile])).
  assert (renameSync tempFile cacheFile w1 = Ok tt w2) as Hren.
  { rewrite (renameSync_run _ _ _ staged); [|done|done].
    unfold w1, w2. simpl. by rewrite <- app_assoc. }
  destruct (writeFileSync_run metaFile record w2) as (recorded & Hrc & _ & _
                                                      & Hwr).
  { intros g. unfold w2. simpl.
    rewrite lookup_insert_ne, lookup_delete_ne by done. apply Hm. }
  exists recorded. split; [done|].
  unfold onEnd. rewrite Ha. fold cacheFile tempFile.
  rewrite (bind_ok _ _ _ _ _ (emit_run _ _ : streamEnd tempFile w = _)).
  fold w1. rewrite (bind_ok _ _ _ _ _ Hren).
  erewrite bind_ok; [reflexivity|].
  unfold bind at 1. unfold getClock. unfold writeMetadata.
  fold metaFile. change (clock w2) with (clock w). fold record.
  rewrite Hwr. unfold w2. simpl. by rewrite <- app_assoc.
Qed.

(** C3.  For a response that the callback lets in and whose body ends
    cleanly within the ceiling, the effects are, in this order: the staging
    stream is created, every chunk is received and written, the stream is
    ended, the staging entry is renamed to the payload name (one rename:
    afterwards the staging name is gone and the payload entry holds the
    whole body), the sidecar is written, and only then the eviction pass
    starts with its [readdirSync]; the answer to the caller comes after the
    pass. *)
Theorem ingestion_publishes_then_records `{Runtime} (cfg : Config)
    (rq : nat) (cacheFile : string) (r : upstreamResponse) (w : world) :
  let tempFile := tempFileFor cacheFile in
  let metaFile := metadataPathFor cacheFile in
  let contentType := default EmptyString (headers r !! "content-type") in
  let ig := Ingest rq cacheFile contentType (totalLength (body r)) false in
  let record := JSON_stringify (metadataRecord ig (clock w)) in
  statusCode r = 200 →
  Js.startsWith "image/" contentType = true →
  declaredTooLong cfg r = false →
  (∀ f, disk w !! tempFile = Some f → locked f = false) →
  (∀ f, disk w !! cacheFile = Some f → locked f = false) →
  (∀ f, disk w !! metaFile = Some f → locked f = false) →
  ending r = StreamEnds →
  Z.of_nat (totalLength (body r)) ≤ maxDownloadBytes cfg →
  ∃ staged recorded w2 Δ,
    let d1 := <[metaFile := recorded]>
                (<[cacheFile := staged]> (delete tempFile (disk w))) in
    let t1 := trace w ++ [FsCreateWriteStream tempFile]
                ++ chunkEffects rq tempFile (body r)
                ++ [FsStreamEnd tempFile; FsRename tempFile cacheFile;
                    FsWriteFile metaFile record] in
    content staged = Js.joinEmpty (body r)
    ∧ content recorded = record
    ∧ d1 !! tempFile = None
    ∧ d1 !! cacheFile = Some staged
    ∧ enforceCacheLimit cfg (World d1 (clock w) t1) = Ok tt w2
    ∧ trace w2 = t1 ++ FsReaddir :: Δ
    ∧ handleResponse cfg rq cacheFile r w
      = (let* stats := statSync cacheFile in
         emit (ResWriteHead rq 200
                 (successHeaders (JStr contentType) (size stats))) ;;
         pipeFile rq cacheFile) w2.
Proof.
  intros tempFile metaFile contentType ig record Hs Ht Hd Hl Hc Hm He Hle.
  pose proof (tempFile_ne cacheFile) as Hn1.
  pose proof (metadataPath_ne cacheFile) as Hn2.
  pose proof (tempFile_ne_metadataPath cacheFile) as Hn3.
  fold tempFile in Hn1, Hn3. fold metaFile in Hn2, Hn3.
  destruct (onResponse_accepted cfg rq cacheFile r w Hs Ht Hd Hl)
    as (staged0 & Hc0 & Hk0 & Hrun).
  fold tempFile contentType in Hrun.
  destruct (writeChunks_lookup tempFile (clock w) (body r)
              (<[tempFile := staged0]> (disk w)) staged0)
    as (staged & Hst & Hcont & _ & _); [apply lookup_insert_eq|].
  rewrite Hc0 in Hcont. simpl in Hcont.
  set (wb := World (writeChunks tempFile (clock w) (body r)
                      (<[tempFile := staged0]> (disk w)))
               (clock w)
               (trace w ++ [FsCreateWriteStream tempFile]
                        ++ chunkEffects rq tempFile (body r))).
  destruct (onEnd_publish cfg ig wb staged) as (recorded & Hrec & Hend).
  { done. }
  { exact Hst. }
  { intros g. unfold wb. simpl.
    rewrite writeChunks_lookup_ne, lookup_insert_ne by done. apply Hc. }
  { intros g. unfold wb. simpl.
    rewrite writeChunks_lookup_ne, lookup_insert_ne by done. apply Hm. }
  simpl in Hend. fold tempFile metaFile in Hend.
  rewrite delete_writeChunks, delete_insert_eq, <- app_assoc in Hend.
  simpl in Hend.
  match type of Hend with _ = bind _ _ ?x => set (w1 := x) in * end.
  destruct (enforceCacheLimit_run cfg w1) as (w2 & Δ & Hev & Htr2 & _ & _).
  exists staged, recorded, w2, Δ.
  split; [done|]. split; [done|].
  split; [by rewrite lookup_insert_ne, lookup_insert_ne, lookup_delete_eq|].
  split; [by rewrite lookup_insert_ne, lookup_insert_eq|].
  split; [exact Hev|]. split; [exact Htr2|].
  unfold handleResponse. erewrite bind_ok by exact Hrun.
  cbv beta iota.
  rewrite flow_to_end by (simpl; first [done|lia]).
  rewrite He.
  change (onEnd cfg ig wb = bind (enforceCacheLimit cfg)
            (λ _, bind (statSync cacheFile)
               (λ stats, bind (emit (ResWriteHead rq 200
                  (successHeaders (JStr contentType) (size stats))))
                  (λ _, pipeFile rq cacheFile))) w1) in Hend.
  unfold wb in Hend. simpl. rewrite <- app_assoc. simpl.
  etrans; [exact Hend|]. unfold bind at 1. by rewrite Hev.
Qed.

Lemma ingestion_publishes_then_records_witness :
  ∃ w',
    handleResponse (H:=Sample.runtime) Sample.smallConfig 1 "k.png"
      (Sample.imageResponse ["ab"; "cd"]) Sample.emptyWorld = Ok tt w'
    ∧ trace w'
      = [FsCreateWriteStream "k.png.tmp";
         UpReceive 1 2; FsStreamWrite "k.png.tmp" "ab";
         UpReceive 1 2; FsStreamWrite "k.png.tmp" "cd";
         FsStreamEnd "k.png.tmp"; FsRename "k.png.tmp" "k.png";
         FsWriteFile "k.png.json" Sample.metadataText;
         FsReaddir; FsStat "k.png"; FsStat "k.png";
         ResWriteHead 1 200 (successHeaders (JStr "image/png") 4);
         ResPipeFile 1 "k.png"]
    ∧ (content <$> disk w' !! "k.png") = Some "abcd"
    ∧ disk w' !! "k.png.tmp" = None.
Proof.
  destruct (ingestion_publishes_then_records (H:=Sample.runtime)
              Sample.smallConfig 1 "k.png"
              (Sample.imageResponse ["ab"; "cd"]) Sample.emptyWorld)
    as (staged & recorded & w2 & Δ & _ & _ & _ & _ & _ & _ & Hrun);
    [reflexivity|reflexivity|reflexivity|
     intros f Hf; simpl in Hf; by rewrite lookup_empty in Hf|
     intros f Hf; simpl in Hf; by rewrite lookup_empty in Hf|
     intros f Hf; simpl in Hf; by rewrite lookup_empty in Hf|
     reflexivity|vm_compute; discriminate|].
  clear Hrun. eexists. split; [vm_compute; reflexivity|].
  split; [reflexivity|]. split; reflexivity.
Defined.

(** ** Cache lookup *)

Lemma readMetadata_run `{Runtime} (cacheFile : string) (w : world) :
  readMetadata cacheFile w
  = Ok (metadataOf (disk w) cacheFile)
       (World (disk w) (clock w)
          (trace w ++ [FsReadFile (metadataPathFor cacheFile)])).
Proof.
  unfold readMetadata, metadataOf, bind, try, readFileSync, bind, emit,
    getDisk, throw, ret. simpl.
  destruct (disk w !! metadataPathFor cacheFile) as [f|]; [|done].
  destruct (readable f); [|done]. simpl.
  by destruct (JSON_parse (content f)).
Qed.

(** All a lookup can do: a miss after the sidecar read, a miss after the
    failed [statSync], or a hit that writes the head, refreshes the
    modification time and hands the file to the response. *)
Lemma serveCached_run `{Runtime} (rq : nat) (cacheFile : string) (w : world) :
  let metaFile := metadataPathFor cacheFile in
  let metadata := metadataOf (disk w) cacheFile in
  serveCached rq cacheFile w =
    if negb (Jv.truthy metadata) then
      Ok false (World (disk w) (clock w) (trace w ++ [FsReadFile metaFile]))
    else
      match disk w !! cacheFile with
      | None =>
          Ok false (World (disk w) (clock w)
                      (trace w ++ [FsReadFile metaFile; FsStat cacheFile]))
      | Some f =>
          Ok true
             (World (<[cacheFile := File (content f) (clock w) (readable f)
                                      (locked f)]> (disk w))
                (clock w)
                (trace w ++ [FsReadFile metaFile; FsStat cacheFile;
                             ResWriteHead rq 200
                               (successHeaders
                                  (orElse (Jv.getProp metadata "contentType")
                                     (JStr "application/octet-stream"))
                                  (size f));
                             FsUtimes cacheFile;
                             ResPipeFile rq cacheFile]))
      end.
Proof.
  intros metaFile metadata. subst metaFile metadata. unfold serveCached.
  rewrite (bind_ok _ _ _ _ _ (readMetadata_run cacheFile w)).
  destruct (Jv.truthy (metadataOf (disk w) cacheFile)); [|done]. simpl.
  unfold bind, try, statSync, utimesSync, pipeFile, bind, emit, getDisk,
    getClock, setDisk, throw, ret. simpl.
  destruct (disk w !! cacheFile) as [f|] eqn:Ef; simpl.
  - rewrite Ef. simpl. by rewrite <- !app_assoc.
  - by rewrite <- !app_assoc.
Qed.

(** The part of C4 that the code keeps: a lookup never throws, and it is a
    miss that writes nothing to the response when the sidecar is missing,
    unreadable, corrupt or falsy, and when the payload entry is absent. *)
Lemma serveCached_miss `{Runtime} (rq : nat) (cacheFile : string)
    (w : world) :
  (∃ served w', serveCached rq cacheFile w = Ok served w')
  ∧ (Jv.truthy (metadataOf (disk w) cacheFile) = false
     ∨ disk w !! cacheFile = None →
     ∃ Δ, serveCached rq cacheFile w
          = Ok false (World (disk w) (clock w) (trace w ++ Δ))
          ∧ Forall (λ e, e = FsReadFile (metadataPathFor cacheFile)
                         ∨ e = FsStat cacheFile) Δ).
Proof.
  rewrite serveCached_run. split.
  - destruct (negb _); [by eexists _, _|].
    destruct (disk w !! cacheFile); by eexists _, _.
  - intros [Hm|Hp].
    + rewrite Hm. simpl. eexists. split; [done|].
      repeat first [apply Forall_nil_2 | apply Forall_cons_2; [auto|]].
    + rewrite Hp. destruct (negb _); eexists; (split; [done|]);
        repeat first [apply Forall_nil_2 | apply Forall_cons_2; [auto|]].
Qed.

(** C4 fails on the code for a payload that is there and cannot be read:
    with a sidecar in order, [statSync] succeeds, the 200 head is sent, the
    modification time is refreshed and the lookup reports a hit; the read
    fails later, in the stream, where no handler of the program catches
    it. *)
Theorem serveCached_unreadable_payload_is_hit `{Runtime} (rq : nat)
    (cacheFile : string) (w : world) (f : file) :
  let metadata := metadataOf (disk w) cacheFile in
  Jv.truthy metadata = true →
  disk w !! cacheFile = Some f →
  readable f = false →
  ∃ w',
    serveCached rq cacheFile w = Ok true w'
    ∧ trace w'
      = trace w ++ [FsReadFile (metadataPathFor cacheFile); FsStat cacheFile;
                    ResWriteHead rq 200
                      (successHeaders
                         (orElse (Jv.getProp metadata "contentType")
                            (JStr "application/octet-stream"))
                         (size f));
                    FsUtimes cacheFile; ResPipeFile rq cacheFile]
    ∧ pipeOutcome (disk w') cacheFile = UnhandledError "EACCES".
Proof.
  intros metadata Hm Hf Hr. rewrite serveCached_run. fold metadata.
  rewrite Hm, Hf. cbn [negb]. eexists. split; [reflexivity|].
  split; [reflexivity|]. unfold pipeOutcome. cbn [disk].
  by rewrite lookup_insert_eq, Hr.
Qed.

Lemma serveCached_unreadable_payload_is_hit_witness :
  ∃ w',
    serveCached (H:=Sample.runtime) 1 "k.png"
      (World Sample.unreadablePayload 5 []) = Ok true w'
    ∧ trace w'
      = [FsReadFile "k.png.json"; FsStat "k.png";
         ResWriteHead 1 200 (successHeaders (JStr "image/png") 4);
         FsUtimes "k.png"; ResPipeFile 1 "k.png"]
    ∧ pipeOutcome (disk w') "k.png" = UnhandledError "EACCES".
Proof.
  destruct (serveCached_unreadable_payload_is_hit (H:=Sample.runtime) 1
              "k.png" (World Sample.unreadablePayload 5 [])
              (File "data" 1 false false))
    as (w' & Hrun & Htrace & Hpipe); [reflexivity..|].
  exists w'. split; [exact Hrun|]. split; [|exact Hpipe].
  rewrite Htrace. reflexivity.
Defined.

(** ** Decimal numbers in a reason text *)

Lemma pretty_N_go_chars (P : string → Prop) :
  (∀ c s, isDigit c = true → P s → P (String c s)) →
  ∀ x s, P s → P (pretty_N_go x s).
Proof.
  intros Hstep x. induction (N.lt_wf_0 x) as [x _ IH]. intros s Hs.
  destruct (decide (x = 0)%N) as [->|Hx]; [by rewrite pretty_N_go_0|].
  rewrite pretty_N_go_step by lia. apply IH.
  - apply N.div_lt; lia.
  - apply Hstep; [|done]. unfold pretty_N_char.
    by repeat case_match.
Qed.

Lemma showInt_chars (P : string → Prop) :
  (∀ c s, isDigit c = true → P s → P (String c s)) →
  (∀ s, P s → P (String "-" s)) →
  P EmptyString → ∀ z, P (Js.showInt z).
Proof.
  intros Hd Hm He z. unfold Js.showInt, pretty, pretty_Z.
  assert (∀ p, P (pretty (Npos p))) as Hpos.
  { intros p. unfold pretty, pretty_N. rewrite decide_False by done.
    by apply pretty_N_go_chars. }
  destruct z as [|p|p].
  - apply (Hd "0"%char); done.
  - apply Hpos.
  - apply Hm, Hpos.
Qed.

Lemma showInt_noWhite (z : Z) : noWhite (Js.showInt z) = true.
Proof.
  apply (showInt_chars (λ s, noWhite s = true)); [|done..].
  intros c s Hc Hs. simpl. rewrite Hs, andb_true_r.
  destruct c as [[] [] [] [] [] [] [] []]; done.
Qed.

Lemma showInt_noSpecial (z : Z) : noSpecial (Js.showInt z) = true.
Proof.
  apply (showInt_chars (λ s, noSpecial s = true)); [|done..].
  intros c s Hc Hs. simpl. rewrite Hs, andb_true_r.
  destruct c as [[] [] [] [] [] [] [] []]; done.
Qed.

Lemma noWhite_app (a b : string) :
  noWhite (a +:+ b) = noWhite a && noWhite b.
Proof. induction a; simpl; [done|]. by rewrite IHa, andb_assoc. Qed.

Lemma noSpecial_app (a b : string) :
  noSpecial (a +:+ b) = noSpecial a && noSpecial b.
Proof. induction a; simpl; [done|]. by rewrite IHa, andb_assoc. Qed.

(** The status number is part of the text of the placeholder. *)
Lemma status_in_placeholder (cfg : Config) (status : Z) :
  Js.occursIn (Js.showInt status)
    (renderFailureSvg cfg (failureReason (UpstreamStatusError status))).
Proof.
  set (word := Js.showInt status +:+ ".").
  assert (failureReason (UpstreamStatusError status)
          = "Imgur responded with status" +:+ String " " word) as Hr
    by reflexivity.
  assert (noWhite word = true) as Hw.
  { unfold word. by rewrite noWhite_app, showInt_noWhite. }
  assert (word ≠ EmptyString) as Hne.
  { unfold word. by destruct (Js.showInt status). }
  assert (escapeXml (failureReason (UpstreamStatusError status))
          = failureReason (UpstreamStatusError status)) as Hesc.
  { apply escapeXml_noSpecial. rewrite Hr, noSpecial_app. simpl.
    unfold word. by rewrite noSpecial_app, showInt_noSpecial. }
  assert (word ∈ Js.split " " (failureReason (UpstreamStatusError status)))
    as Hin.
  { rewrite Hr, split_app_sep, (split_noWhite word Hw).
    apply elem_of_app. right. apply list_elem_of_here. }
  pose proof (wrapText_keeps wrapColumns word _ Hw Hne Hin) as Hex.
  apply Exists_exists in Hex as (line & Hline & Hocc).
  eapply occursIn_trans; [|eapply occursIn_trans; [exact Hocc|]].
  - unfold word. apply occursIn_app_l, occursIn_refl.
  - apply render_contains_line. by rewrite Hesc.
Qed.

(** ** Every failure is answered with the placeholder *)

Lemma placeholder_shape (cfg : Config) (reason : string) :
  let svg := renderFailureSvg cfg reason in
  svg ≠ EmptyString
  ∧ Js.startsWith "<?xml" svg = true
  ∧ Js.occursIn "<svg " svg
  ∧ Js.endsWith "</svg>" svg = true.
Proof.
  unfold renderFailureSvg. set (fi := failureImage cfg).
  set (spans := textSpans fi _). cbv zeta. split; [|split; [|split]].
  - unfold svgHead, xmlDeclaration. simpl. done.
  - unfold svgHead, xmlDeclaration. simpl. done.
  - apply occursIn_app_l. unfold svgHead. apply occursIn_app_r, occursIn_app_l.
    unfold svgOpen. apply occursIn_app_l, occursIn_refl.
  - unfold svgTail.
    replace (svgHead fi +:+ spans +:+ Js.nl +:+ "  </g>" +:+ Js.nl +:+ "</svg>")
      with ((svgHead fi +:+ spans +:+ Js.nl +:+ "  </g>" +:+ Js.nl)
            +:+ "</svg>") by (by rewrite !sapp_assoc).
    apply endsWith_app.
Qed.

Lemma onResponse_rejection `{Runtime} (cfg : Config) (rq : nat)
    (cacheFile : string) (r : upstreamResponse) (f : failure) (w : world) :
  rejection cfg r = Some f →
  onResponse cfg rq cacheFile r w
  = (sendFailure cfg rq (failureReason f) (failureStatusArg f) ;;
     emit (UpResume rq) ;; ret None) w.
Proof.
  unfold rejection, onResponse.
  destruct (negb (statusCode r =? 200)); [by intros [= <-]|].
  destruct (negb (Js.startsWith "image/" _)); [by intros [= <-]|].
  destruct (declaredTooLong cfg r); [by intros [= <-]|done].
Qed.

(** C6.  Each of the seven failures is answered by [sendFailure]: the head
    carries the status of the failure, which is 413 unless the call names
    another, with the content type [image/svg+xml; charset=utf-8],
    [Cache-Control: no-store] and the byte length of the body; the body is
    the placeholder document for the reason, never empty.  A status other
    than 200 from the upstream is the status of the answer and its decimal
    digits are part of the text of the document.  The seven places are: an
    unparsable request URL, the three checks of the response callback, the
    overflow in the data handler, the error handler of the response, and
    the error handler of the request. *)
Theorem failure_paths_send_placeholder `{Runtime} (cfg : Config) (rq : nat) :
  (∀ f w,
     let svg := renderFailureSvg cfg (failureReason f) in
     sendFailure cfg rq (failureReason f) (failureStatusArg f) w
     = Ok tt (World (disk w) (clock w)
                (trace w
                 ++ [ResWriteHead rq (failureStatus f)
                       [("Content-Type", JStr "image/svg+xml; charset=utf-8");
                        ("Cache-Control", JStr "no-store");
                        ("Content-Length",
                         JNum (Z.of_nat (Js.byteLength svg)))];
                     ResEnd rq svg]))
     ∧ svg ≠ EmptyString
     ∧ Js.startsWith "<?xml" svg = true
     ∧ Js.occursIn "<svg " svg
     ∧ Js.endsWith "</svg>" svg = true
     ∧ (failureStatusArg f = None → failureStatus f = 413))
  ∧ (∀ status,
       status ≠ 0 →
       failureStatus (UpstreamStatusError status) = status
       ∧ Js.occursIn (Js.showInt status)
           (renderFailureSvg cfg
              (failureReason (UpstreamStatusError status))))
  ∧ (∀ req up w,
       method req = "GET" → url req ≠ "/" → url req ≠ EmptyString →
       resolveUrl (url req) = None →
       proxyRequest cfg rq req up w
       = sendFailure cfg rq (failureReason InvalidRequest)
           (failureStatusArg InvalidRequest) w)
  ∧ (∀ cacheFile r f w,
       rejection cfg r = Some f →
       (statusCode r ≠ 200 → f = UpstreamStatusError (statusCode r))
       ∧ handleResponse cfg rq cacheFile r w
         = Ok tt (World (disk w) (clock w)
                    (trace w
                     ++ failureResponse cfg rq (failureReason f)
                          (failureStatus f)
                     ++ [UpResume rq] ++ drainEffects rq (body r))))
  ∧ (∀ chunk ig w,
       igRq ig = rq → aborted ig = false →
       maxDownloadBytes cfg
       < Z.of_nat (downloaded ig + String.length chunk) →
       onData cfg chunk ig w
       = (emit (UpDestroy rq) ;;
          streamDestroy (tempFileFor (igCacheFile ig)) ;;
          discardStaging (tempFileFor (igCacheFile ig)) ;;
          sendFailure cfg rq (failureReason OversizeActual)
            (failureStatusArg OversizeActual) ;;
          ret (Ingest rq (igCacheFile ig) (igContentType ig)
                 (downloaded ig + String.length chunk) true)) w)
  ∧ (∀ message ig w,
       igRq ig = rq → aborted ig = false →
       onError cfg message ig w
       = (streamDestroy (tempFileFor (igCacheFile ig)) ;;
          discardStaging (tempFileFor (igCacheFile ig)) ;;
          sendFailure cfg rq (failureReason (UpstreamTransportError message))
            (failureStatusArg (UpstreamTransportError message))) w)
  ∧ (∀ req targetUrl message w,
       method req = "GET" → url req ≠ "/" → url req ≠ EmptyString →
       resolveUrl (url req) = Some targetUrl →
       let cacheFile :=
         cacheKeyFromPath (pathname targetUrl +:+ search targetUrl) in
       proxyRequest cfg rq req (RequestFails message) w
       = (let* present := existsSync cacheFile in
          let* served :=
            (if present then serveCached rq cacheFile else ret false) in
          if served then ret tt
          else
            emit (UpRequest rq) ;;
            sendFailure cfg rq (failureReason (RequestError message))
              (failureStatusArg (RequestError message))) w).
Proof.
  assert (∀ req, method req = "GET" → url req ≠ "/" →
                 url req ≠ EmptyString →
                 negb (String.eqb (method req) "GET") = false
                 ∧ String.eqb (url req) "/"
                   || String.eqb (url req) EmptyString = false) as Hroute.
  { intros req -> H1 H2. split; [done|].
    apply orb_false_iff. split; by apply String.eqb_neq. }
  split; [|split; [|split; [|split; [|split; [|split]]]]].
  - intros f w svg. split; [by rewrite sendFailure_run|].
    destruct (placeholder_shape cfg (failureReason f)) as (? & ? & ? & ?).
    repeat (split; [done|]). unfold failureStatus. by intros ->.
  - intros status Hs. split; [|apply status_in_placeholder].
    unfold failureStatus. simpl. by rewrite (proj2 (Z.eqb_neq _ _) Hs).
  - intros req up w Hm H1 H2 Hu. unfold proxyRequest.
    destruct (Hroute req Hm H1 H2) as [-> ->]. by rewrite Hu.
  - intros cacheFile r f w Hrej. split.
    + intros Hs. unfold rejection in Hrej.
      rewrite (proj2 (Z.eqb_neq _ _) Hs) in Hrej. simpl in Hrej. congruence.
    + unfold handleResponse.
      erewrite bind_ok.
      2:{ rewrite (onResponse_rejection _ _ _ _ _ _ Hrej).
          unfold bind at 1. rewrite sendFailure_run.
          unfold bind, emit, ret. simpl. reflexivity. }
      cbv beta iota. rewrite drain_run. simpl.
      by rewrite <- !app_assoc.
  - intros chunk ig w <- Ha Hgt. unfold onData. rewrite Ha.
    by rewrite (proj2 (Z.ltb_lt _ _)) by lia.
  - intros message ig w <- Ha. unfold onError. by rewrite Ha.
  - intros req targetUrl message w Hm H1 H2 Hu cacheFile.
    unfold proxyRequest. destruct (Hroute req Hm H1 H2) as [-> ->].
    by rewrite Hu.
Qed.

Lemma failure_paths_send_placeholder_witness :
  let r := {| statusCode := 404; headers := ∅; body := [];
              ending := StreamEnds |} in
  ∃ svg,
    handleResponse (H:=Sample.runtime) defaultConfig 1 "k.png" r
      Sample.emptyWorld
    = Ok tt (World ∅ 0 ([ResWriteHead 1 404 (failureHeaders svg);
                         ResEnd 1 svg] ++ [UpResume 1]))
    ∧ Js.occursIn "404" svg.
Proof.
  intros r.
  destruct (failure_paths_send_placeholder (H:=Sample.runtime)
              defaultConfig 1) as (_ & Hstatus & _ & Hrej & _).
  destruct (Hstatus 404) as [_ Hocc]; [discriminate|].
  destruct (Hrej "k.png" r (UpstreamStatusError 404) Sample.emptyWorld
              eq_refl) as [_ Hrun].
  eexists. split; [exact Hrun|exact Hocc].
Defined.

(** ** Key derivation *)

Lemma substring_list (a len : nat) (s : string) :
  String.list_ascii_of_string (String.substring a len s)
  = take len (drop a (String.list_ascii_of_string s)).
Proof.
  revert a len. induction s as [|c s IH]; intros a len.
  - destruct a, len; reflexivity.
  - destruct a as [|a]; simpl.
    + destruct len as [|len]; simpl; [done|]. by rewrite IH.
    + by rewrite IH.
Qed.

Lemma length_list_ascii (s : string) :
  length (String.list_ascii_of_string s) = String.length s.
Proof. induction s; simpl; congruence. Qed.

Lemma extScan_inv (l : list ascii) (n : nat) (st : extState) :
  (n ≤ length l)%nat → extInv l n st →
  ∃ n', (n' ≤ n)%nat ∧ extInv l n' (extScan (reverse (take n l)) n st).
Proof.
  revert st. induction n as [|i IH]; intros st Hn Hinv.
  { exists 0%nat. by rewrite take_0. }
  destruct (lookup_lt_is_Some_2 l i) as [code Hcode]; [lia|].
  rewrite (take_S_r _ _ _ Hcode), reverse_snoc. simpl.
  destruct (Ascii.eqb_spec code "/"%char) as [->|Hslash].
  - destruct (matchedSlash st) eqn:Hm; simpl.
    + destruct (IH st) as (n' & Hn' & Hinv'); [lia| |].
      * unfold extInv in *. destruct (endPos st); [|done].
        destruct Hinv as (Hf & _). congruence.
      * exists n'. split; [lia|done].
    + exists (S i). split; [done|].
      unfold extInv in *. simpl.
      destruct (endPos st) as [e|]; [|destruct Hinv; congruence].
      destruct Hinv as (_ & ? & ? & ?). done.
  - match goal with |- context [extScan _ i ?s] => set (st2 := s) end.
    destruct (IH st2) as (n' & Hn' & Hinv'); [lia| |exists n'; split;
                                                     [lia|done]].
    unfold extInv in *. subst st2.
    destruct (endPos st) as [e|] eqn:He; simpl.
    + destruct Hinv as (Hm & Hle & Hnos & Hdot).
      assert (∀ j, (i ≤ j < e)%nat → l !! j ≠ Some "/"%char) as Hnos'.
      { intros j Hj. destruct (decide (j = i)) as [->|]; [congruence|].
        apply Hnos. lia. }
      destruct (Ascii.eqb_spec code "."%char) as [->|Hd];
        destruct (startDot st) as [sd|] eqn:Hsd; simpl; rewrite ?He, ?Hsd;
        repeat split; try done; try lia;
        try (destruct Hdot; first [done|lia]).
    + destruct Hinv as (Hsd & Hm). rewrite Hsd.
      assert (∀ j, (i ≤ j < S i)%nat → l !! j ≠ Some "/"%char) as Hnos'.
      { intros j Hj. assert (j = i) as -> by lia. congruence. }
      destruct (Ascii.eqb_spec code "."%char) as [->|Hd]; simpl;
        repeat split; try done; try lia.
Qed.

(** The extension is empty, or it starts with a dot and has no slash: the
    key is one file name of the cache directory. *)
Lemma extname_shape (path : string) :
  extname path = EmptyString
  ∨ (Js.startsWith "." (extname path) = true
     ∧ Forall (λ c, c ≠ "/"%char) (String.list_ascii_of_string (extname path))).
Proof.
  unfold extname.
  set (l := String.list_ascii_of_string path).
  destruct (extScan_inv l (String.length path) extInit) as (n' & _ & Hinv).
  { unfold l. by rewrite length_list_ascii. }
  { unfold extInv. simpl. done. }
  replace (take (String.length path) l) with l in Hinv
    by (unfold l; by rewrite <- length_list_ascii, firstn_all).
  destruct (extScan (reverse l) (String.length path) extInit) as
    [sdot spart epos mslash pds]. unfold extInv in Hinv. simpl in *.
  destruct sdot as [sd|]; [|by left]. destruct epos as [e|]; [|by left].
  destruct (_ || _); [by left|]. right.
  destruct Hinv as (_ & Hle & Hnos & Hsd & Hdot).
  set (ext := String.substring sd (e - sd) path).
  assert (String.list_ascii_of_string ext = take (e - sd) (drop sd l)) as Hext
    by apply substring_list.
  split.
  - assert (String.list_ascii_of_string ext !! 0%nat = Some "."%char) as H0.
    { rewrite Hext, lookup_take_lt, lookup_drop by lia.
      by rewrite Nat.add_0_r. }
    destruct ext as [|c ext']; [done|]. simpl in H0. injection H0 as ->.
    done.
  - rewrite Hext. apply Forall_forall. intros c Hc.
    apply list_elem_of_lookup in Hc as [j Hj].
    assert (j < e - sd)%nat as Hlt.
    { apply lookup_lt_Some in Hj. rewrite length_take in Hj. lia. }
    rewrite lookup_take_lt, lookup_drop in Hj by lia.
    intros ->. apply (Hnos (sd + j)%nat); [lia|done].
Qed.

Lemma hexDigit_not_slash (n : Z) : Sha256.hexDigit n ≠ "/"%char.
Proof. unfold Sha256.hexDigit. repeat case_match; done. Qed.

Lemma sha256_hex_length (s : string) : String.length (sha256_hex s) = 64%nat.
Proof. unfold sha256_hex. by generalize (Sha256.digest s). Qed.

Lemma sha256_hex_no_slash (s : string) :
  Forall (λ c, c ≠ "/"%char) (String.list_ascii_of_string (sha256_hex s)).
Proof.
  unfold sha256_hex. generalize (Sha256.digest s). intros r.
  unfold Sha256.hex, Sha256.hex8, Sha256.nibble.
  cbn [String.list_ascii_of_string].
  repeat (constructor; [apply hexDigit_not_slash|]). constructor.
Qed.

Lemma list_ascii_app (a b : string) :
  String.list_ascii_of_string (a +:+ b)
  = String.list_ascii_of_string a ++ String.list_ascii_of_string b.
Proof. induction a; simpl; congruence. Qed.

(** *** The extension of a last component [name.ext] *)

Lemma extScan_plain (l1 rest : list ascii) (n : nat) (st : extState) :
  Forall plainChar l1 → is_Some (endPos st) → startDot st = None →
  extScan (l1 ++ rest) (length l1 + n) st = extScan rest n st.
Proof.
  induction l1 as [|c l1 IH]; intros Hall [e He] Hsd; [done|].
  apply Forall_cons in Hall as [[Hs Hd] Hall]. simpl.
  rewrite (proj2 (Ascii.eqb_neq _ _) Hs), (proj2 (Ascii.eqb_neq _ _) Hd).
  rewrite He. cbv iota. rewrite Hsd. apply IH; [done|by exists e|done].
Qed.

Lemma extScan_first_plain (c : ascii) (rest : list ascii) (i : nat) :
  plainChar c →
  extScan (c :: rest) (S i) extInit
  = extScan rest i {| startDot := None; startPart := 0%nat;
                      endPos := Some (S i); matchedSlash := false;
                      preDotState := 0 |}.
Proof.
  intros [Hs Hd]. simpl.
  by rewrite (proj2 (Ascii.eqb_neq _ _) Hs), (proj2 (Ascii.eqb_neq _ _) Hd).
Qed.

(** Characters before the dot, up to the slash: each sets [preDotState]. *)
Lemma extScan_before_dot (l1 rest : list ascii) (n : nat) (st : extState)
    (sd e : nat) :
  Forall (λ c, c ≠ "/"%char) l1 → l1 ≠ [] →
  endPos st = Some e → startDot st = Some sd →
  ∃ p, (p = 1 ∨ p = -1)
       ∧ extScan (l1 ++ rest) (length l1 + n) st
         = extScan rest n
             {| startDot := Some sd; startPart := startPart st;
                endPos := Some e; matchedSlash := matchedSlash st;
                preDotState := p |}.
Proof.
  revert st. induction l1 as [|c l1 IH]; intros st Hall Hne He Hsd; [done|].
  apply Forall_cons in Hall as [Hs Hall].
  destruct st as [sdot spart epos ms pds]. simpl in He, Hsd. subst.
  cbn [length Nat.add app extScan].
  rewrite (proj2 (Ascii.eqb_neq _ _) Hs).
  cbn [endPos startDot startPart matchedSlash preDotState].
  destruct l1 as [|c' l1].
  - simpl. destruct (Ascii.eqb c "."); eexists; (split; [|reflexivity]); auto.
  - destruct (Ascii.eqb c ".").
    + destruct (IH {| startDot := Some sd; startPart := spart;
                      endPos := Some e; matchedSlash := ms;
                      preDotState := 1 |}) as (p & Hp & ->); try done.
      by exists p.
    + destruct (IH {| startDot := Some sd; startPart := spart;
                      endPos := Some e; matchedSlash := ms;
                      preDotState := -1 |}) as (p & Hp & ->); try done.
      by exists p.
Qed.

Lemma substring_app_r (a b : string) :
  String.substring (String.length a) (String.length b) (a +:+ b) = b.
Proof.
  induction a as [|c a IH]; simpl; [|done].
  induction b as [|c b IH]; simpl; [done|]. by rewrite IH.
Qed.

Lemma plain_no_slash (l : list ascii) :
  Forall plainChar l → Forall (λ c, c ≠ "/"%char) l.
Proof. intros H. eapply Forall_impl; [exact H|]. by intros c [? _]. Qed.

(** For a string that ends in [/name.ext], with a name that is not empty
    and an extension of at least one character, neither with a slash and
    the extension without a dot, [path.extname] is [.ext]. *)
Lemma extname_name_ext (dir name ext : string) :
  name ≠ EmptyString → ext ≠ EmptyString →
  Forall (λ c, c ≠ "/"%char) (String.list_ascii_of_string name) →
  Forall plainChar (String.list_ascii_of_string ext) →
  extname (dir +:+ "/" +:+ name +:+ "." +:+ ext) = "." +:+ ext.
Proof.
  intros Hname Hext Hn He. unfold extname.
  set (path := dir +:+ "/" +:+ name +:+ "." +:+ ext).
  remember (reverse (String.list_ascii_of_string ext)) as le eqn:Hce.
  set (ln := reverse (String.list_ascii_of_string name)).
  set (ld := reverse (String.list_ascii_of_string dir)).
  assert (reverse (String.list_ascii_of_string path)
          = le ++ "."%char :: ln ++ "/"%char :: ld) as Hrev.
  { unfold path, ln, ld. rewrite Hce, !list_ascii_app.
    cbn [String.list_ascii_of_string app].
    rewrite reverse_app, reverse_cons, reverse_app, reverse_cons.
    by rewrite <- !app_assoc. }
  assert (String.length path
          = (length le + S (length ln + S (length ld)))%nat) as Hlen.
  { unfold path, ln, ld. rewrite Hce, !slength_app, !length_reverse,
      !length_list_ascii. simpl. lia. }
  assert (le ≠ [] ∧ ln ≠ []) as [Hle Hln].
  { unfold ln. rewrite Hce. split; intros E; apply (f_equal length) in E;
      rewrite length_reverse, length_list_ascii in E.
    - by destruct ext.
    - by destruct name. }
  assert (Forall plainChar le) as Hple by (rewrite Hce; by apply Forall_reverse).
  assert (Forall (λ c, c ≠ "/"%char) ln) as Hpln by (by apply Forall_reverse).
  rewrite Hrev, Hlen.
  destruct le as [|c le']; [done|].
  apply Forall_cons in Hple as [Hc Hple].
  cbn [length app Nat.add].
  rewrite extScan_first_plain by done.
  rewrite extScan_plain by (simpl; eauto).
  cbn [extScan]. cbn [Ascii.eqb Bool.eqb endPos startDot].
  change (Ascii.eqb "." "/") with false.
  change (Ascii.eqb "." ".") with true. cbv iota.
  cbn [startPart endPos matchedSlash preDotState startDot].
  set (e := S (length le' + S (length ln + S (length ld)))).
  edestruct (extScan_before_dot ln ("/"%char :: ld) (S (length ld)))
    as (p & Hp & ->); [done|done|reflexivity|reflexivity|].
  cbn [extScan]. change (Ascii.eqb "/" "/") with true.
  cbn [matchedSlash negb startDot endPos preDotState startPart].
  assert ((p =? 0) = false) as -> by (destruct Hp as [-> | ->]; done).
  assert ((length ln + S (length ld) =? e - 1)%nat = false) as ->.
  { apply Nat.eqb_neq. unfold e. lia. }
  rewrite andb_false_r. simpl orb. cbv iota.
  assert (length ln + S (length ld)
          = String.length (dir +:+ "/" +:+ name))%nat as ->.
  { unfold ln, ld. rewrite !slength_app, !length_reverse,
      !length_list_ascii. simpl. lia. }
  assert (e - String.length (dir +:+ "/" +:+ name)
          = String.length ("." +:+ ext))%nat as ->.
  { unfold e, ln, ld. rewrite !slength_app, !length_reverse.
    assert (S (length le') = String.length ext) as E.
    { change (S (length le')) with (length (c :: le')).
      by rewrite Hce, length_reverse, length_list_ascii. }
    rewrite !length_list_ascii. simpl. lia. }
  replace path with ((dir +:+ "/" +:+ name) +:+ ("." +:+ ext))
    by (unfold path; by rewrite !sapp_assoc).
  apply substring_app_r.
Qed.

(** A last component without a dot has no extension. *)
Lemma extname_no_dot (dir name : string) :
  name ≠ EmptyString →
  Forall plainChar (String.list_ascii_of_string name) →
  extname (dir +:+ "/" +:+ name) = EmptyString.
Proof.
  intros Hname Hn. unfold extname.
  set (path := dir +:+ "/" +:+ name).
  remember (reverse (String.list_ascii_of_string name)) as ln eqn:Hcn.
  set (ld := reverse (String.list_ascii_of_string dir)).
  assert (reverse (String.list_ascii_of_string path)
          = ln ++ "/"%char :: ld) as Hrev.
  { unfold path, ld. rewrite Hcn, !list_ascii_app.
    cbn [String.list_ascii_of_string app].
    rewrite reverse_app, reverse_cons. by rewrite <- !app_assoc. }
  assert (String.length path = (length ln + S (length ld))%nat) as Hlen.
  { unfold path, ld. rewrite Hcn, !slength_app, !length_reverse,
      !length_list_ascii. simpl. lia. }
  assert (Forall plainChar ln) as Hpl by (rewrite Hcn; by apply Forall_reverse).
  rewrite Hrev, Hlen.
  destruct ln as [|c ln'].
  { apply (f_equal length) in Hcn.
    rewrite length_reverse, length_list_ascii in Hcn. by destruct name. }
  apply Forall_cons in Hpl as [Hc Hpl].
  cbn [length app Nat.add].
  rewrite extScan_first_plain by done.
  rewrite extScan_plain by (simpl; eauto).
  reflexivity.
Qed.

Lemma sapp_inj (a1 a2 b1 b2 : string) :
  String.length a1 = String.length a2 →
  a1 +:+ b1 = a2 +:+ b2 → a1 = a2 ∧ b1 = b2.
Proof.
  revert a2. induction a1 as [|c a1 IH]; intros [|c2 a2] Hl E; try done.
  simpl in *. injection E as -> E. injection Hl as Hl.
  destruct (IH _ Hl E) as [-> ->]. done.
Qed.

Lemma hexDigit_isHex (n : Z) : isHexDigit (Sha256.hexDigit n) = true.
Proof. unfold Sha256.hexDigit. repeat case_match; done. Qed.

Lemma sha256_hex_digits (s : string) :
  Forall (λ c, isHexDigit c = true)
    (String.list_ascii_of_string (sha256_hex s)).
Proof.
  unfold sha256_hex. generalize (Sha256.digest s). intros r.
  unfold Sha256.hex, Sha256.hex8, Sha256.nibble.
  cbn [String.list_ascii_of_string].
  repeat (constructor; [apply hexDigit_isHex|]). constructor.
Qed.

(** C7, as the code has it.  The cache key is a function of the
    path-plus-query string alone: the 64 lower-case hexadecimal digits of
    the SHA-256 digest of the string, followed by what [path.extname]
    returns for the same string.  Two strings share a key exactly when
    they share digest and extension.  The extension is empty or starts
    with a dot and the key has no slash, so the key names one entry of the
    cache directory, and the relay looks up and ingests under this name.
    The suffix is [.ext] when the string ends in [/name.ext] with no dot
    or slash after it, and empty when the last component has no dot: that
    is the extension of the requested file when there is no query, but the
    scan runs over a query as well. *)
Theorem cacheKey_is_hash_plus_extension (requestPath : string) :
  cacheKeyFromPath requestPath
  = sha256_hex requestPath +:+ extname requestPath
  ∧ String.length (sha256_hex requestPath) = 64%nat
  ∧ Forall (λ c, isHexDigit c = true)
      (String.list_ascii_of_string (sha256_hex requestPath))
  ∧ String.length (cacheKeyFromPath requestPath)
    = (64 + String.length (extname requestPath))%nat
  ∧ Js.endsWith (extname requestPath) (cacheKeyFromPath requestPath) = true
  ∧ (extname requestPath = EmptyString
     ∨ Js.startsWith "." (extname requestPath) = true)
  ∧ Forall (λ c, c ≠ "/"%char)
      (String.list_ascii_of_string (cacheKeyFromPath requestPath))
  ∧ (∀ other,
       cacheKeyFromPath requestPath = cacheKeyFromPath other
       ↔ sha256_hex requestPath = sha256_hex other
         ∧ extname requestPath = extname other)
  ∧ (∀ dir name ext,
       requestPath = dir +:+ "/" +:+ name +:+ "." +:+ ext →
       name ≠ EmptyString → ext ≠ EmptyString →
       Forall (λ c, c ≠ "/"%char) (String.list_ascii_of_string name) →
       Forall plainChar (String.list_ascii_of_string ext) →
       cacheKeyFromPath requestPath
       = sha256_hex requestPath +:+ "." +:+ ext)
  ∧ (∀ dir name,
       requestPath = dir +:+ "/" +:+ name →
       name ≠ EmptyString →
       Forall plainChar (String.list_ascii_of_string name) →
       cacheKeyFromPath requestPath = sha256_hex requestPath)
  ∧ (∀ `{Runtime} cfg rq req r w targetUrl,
       method req = "GET" → url req ≠ "/" → url req ≠ EmptyString →
       resolveUrl (url req) = Some targetUrl →
       requestPath = pathname targetUrl +:+ search targetUrl →
       disk w !! cacheKeyFromPath requestPath = None →
       proxyRequest cfg rq req (Responds r) w
       = handleResponse cfg rq (cacheKeyFromPath requestPath) r
           (World (disk w) (clock w)
              (trace w ++ [FsExists (cacheKeyFromPath requestPath);
                           UpRequest rq])))
  ∧ (sha256_hex EmptyString
     = "e3b0c44298fc1c149afbf4c8996fb92427ae41e4649b934ca495991b7852b855"
     ∧ sha256_hex "abc"
       = "ba7816bf8f01cfea414140de5dae2223b00361a396177a9cb410ff61f20015ad"
     ∧ sha256_hex "abcdbcdecdefdefgefghfghighijhijkijkljklmklmnlmnomnopnopq"
       = "248d6a61d20638b8e5c026930c3e6039a33ce45964ff2167f6ecedd419db06c1"
     ∧ cacheKeyFromPath "/abc123.png"
       = "517cfca813468c02ef2c1cb4883fabb239249bbf15eddf0b87fa0a669816b4cc.png")
  ∧ (extname "/abc123" = EmptyString
     ∧ extname "/abc123.png?w=1" = ".png?w=1"
     ∧ extname "/abc123.png?next=/foo" = EmptyString
     ∧ extname "/abc123?v=1.5" = ".5"
     ∧ extname "/index.coffee.md" = ".md"
     ∧ extname "/index." = "."
     ∧ extname "/.index" = EmptyString
     ∧ extname "/.index.md" = ".md"
     ∧ extname "/.." = EmptyString
     ∧ extname "/a.png/" = ".png"
     ∧ extname "/dir.d/file" = EmptyString).
Proof.
  split; [reflexivity|]. split; [apply sha256_hex_length|].
  split; [apply sha256_hex_digits|].
  split; [unfold cacheKeyFromPath; by rewrite slength_app, sha256_hex_length|].
  split; [apply endsWith_app|].
  split; [destruct (extname_shape requestPath) as [?|[? _]]; auto|].
  split.
  { unfold cacheKeyFromPath. rewrite list_ascii_app. apply Forall_app.
    split; [apply sha256_hex_no_slash|].
    destruct (extname_shape requestPath) as [->|[_ ?]]; [constructor|done]. }
  split.
  { intros other. unfold cacheKeyFromPath. split.
    - apply sapp_inj. by rewrite !sha256_hex_length.
    - by intros [-> ->]. }
  split.
  { intros dir name ext -> Hname Hext Hn He. unfold cacheKeyFromPath.
    by rewrite extname_name_ext. }
  split.
  { intros dir name -> Hname Hn. unfold cacheKeyFromPath.
    by rewrite extname_no_dot, sapp_nil_r. }
  split; [|split; [repeat split; vm_compute; reflexivity
                  |repeat split; vm_compute; reflexivity]].
  intros R cfg rq req r w targetUrl Hm H1 H2 Hu -> Hmiss.
  set (key := cacheKeyFromPath (pathname targetUrl +:+ search targetUrl))
    in *.
  unfold proxyRequest. rewrite Hm. cbn [String.eqb negb].
  rewrite (proj2 (String.eqb_neq _ _) H1), (proj2 (String.eqb_neq _ _) H2).
  cbn [orb]. rewrite Hu. cbv zeta. fold key. clearbody key.
  unfold bind at 1. unfold existsSync, bind, emit, getDisk, ret. simpl.
  rewrite Hmiss. simpl. by rewrite <- app_assoc.
Qed.

Lemma cacheKey_is_hash_plus_extension_witness :
  let key :=
    "517cfca813468c02ef2c1cb4883fabb239249bbf15eddf0b87fa0a669816b4cc.png" in
  cacheKeyFromPath "/abc123.png" = key
  ∧ cacheKeyFromPath "/abc123.png"
    = sha256_hex "/abc123.png" +:+ "." +:+ "png"
  ∧ proxyRequest (H:=Sample.runtime) Sample.smallConfig 1
      {| method := "GET"; url := "/abc123.png" |}
      (Responds (Sample.imageResponse ["ab"; "cd"])) Sample.emptyWorld
    = handleResponse (H:=Sample.runtime) Sample.smallConfig 1 key
        (Sample.imageResponse ["ab"; "cd"])
        (World ∅ 0 [FsExists key; UpRequest 1]).
Proof.
  intros key.
  destruct (cacheKey_is_hash_plus_extension "/abc123.png")
    as (_ & _ & _ & _ & _ & _ & _ & _ & Hext & _ & Hrun & (_ & _ & _ & Hkey)
        & _).
  split; [exact Hkey|]. split.
  { apply (Hext EmptyString "abc123" "png"); [reflexivity|discriminate..| |].
    - repeat (constructor; [discriminate|]). constructor.
    - repeat (constructor; [split; discriminate|]). constructor. }
  rewrite (Hrun Sample.runtime Sample.smallConfig 1%nat
             {| method := "GET"; url := "/abc123.png" |}
             (Sample.imageResponse ["ab"; "cd"]) Sample.emptyWorld
             {| pathname := "/abc123.png"; search := EmptyString;
                protocol := "https:" |});
    [|reflexivity|discriminate|discriminate|reflexivity|reflexivity|
     apply lookup_empty].
  rewrite Hkey. reflexivity.
Defined.

(** The claim C7 as the specification words it, with the extension of the
    requested file as the suffix, fails once the URL has a query: for
    [/abc123.png?next=/foo] the key has no suffix at all. *)
Lemma query_replaces_the_extension :
  ¬ (∀ t : target,
       cacheKeyFromPath (pathname t +:+ search t)
       = sha256_hex (pathname t +:+ search t) +:+ originalExtension t).
Proof.
  intros Hclaim.
  specialize (Hclaim {| pathname := "/abc123.png"; search := "?next=/foo";
                        protocol := "https:" |}).
  apply (f_equal String.length) in Hclaim.
  unfold cacheKeyFromPath, originalExtension in Hclaim.
  rewrite !slength_app, !sha256_hex_length in Hclaim.
  vm_compute in Hclaim. discriminate.
Qed.

(** * Further properties of the code *)

(** ** More on the eviction pass *)

(** X1.  An entry whose name ends in [.json] is invisible to the eviction pass
    unless it is the sidecar of a payload that is there: it is not counted
    in the total and the pass leaves it as it is.  So a sidecar without its
    payload is never cleaned up, and neither is a payload that was cached
    under a key ending in [.json]. *)
Theorem eviction_spares_json_names (cfg : Config) (w : world)
    (name : string) :
  Js.endsWith ".json" name = true →
  (∀ base, name = metadataPathFor base → isPayloadName base = true →
           disk w !! base = None) →
  (∃ w', enforceCacheLimit cfg w = Ok tt w'
         ∧ disk w' !! name = disk w !! name)
  ∧ payloadTotal (delete name (disk w)) = payloadTotal (disk w)
  ∧ (∀ requestPath, extname requestPath = ".json" →
       Js.endsWith ".json" (cacheKeyFromPath requestPath) = true).
Proof.
  intros Hjson Horphan. split; [|split].
  - destruct (enforceCacheLimit_eviction cfg w)
      as (w' & cur' & att & warned & Δ & Hrun & Hev & _).
    exists w'. split; [done|].
    eapply eviction_untouched; [exact Hev|]. intros e He.
    pose proof (eviction_attempted_in _ _ _ _ _ _ _ _ _ Hev He) as Hin.
    rewrite sortByMtime_Permutation in Hin.
    apply payloadItems_elem in Hin as (Hp & f & Hf & _).
    split.
    + intros ->. unfold isPayloadName in Hp. by rewrite Hjson in Hp.
    + intros E. by rewrite (Horphan _ E Hp) in Hf.
  - destruct (disk w !! name) as [f|] eqn:Ef.
    + rewrite (payloadTotal_delete _ _ f Ef). unfold isPayloadName.
      rewrite Hjson. simpl. lia.
    + by rewrite delete_id.
  - intros requestPath Hext. unfold cacheKeyFromPath. rewrite Hext.
    apply endsWith_app.
Qed.

Lemma eviction_spares_json_names_witness :
  let d : gmap string file :=
    <["old.png.json" := File "{}" 1 true false]>
      (<["a.png" := File "aaaaaaaaa" 2 true false]>
        (<["a.png.json" := File "{}" 2 true false]> ∅)) in
  ∃ w', enforceCacheLimit Sample.smallConfig (World d 9 []) = Ok tt w'
        ∧ disk w' !! "old.png.json" = Some (File "{}" 1 true false)
        ∧ disk w' !! "a.png" = None.
Proof.
  intros d.
  destruct (eviction_spares_json_names Sample.smallConfig (World d 9 [])
              "old.png.json") as ((w' & Hrun & Hkeep) & _).
  { reflexivity. }
  { intros base E _. apply (metadataPathFor_inj "old.png" base) in E.
    by subst base. }
  exists w'. split; [exact Hrun|]. split; [by rewrite Hkeep|].
  vm_compute in Hrun. injection Hrun as <-. reflexivity.
Defined.

(** A step of the relation keeps payload and sidecar together: a payload
    that stays keeps its sidecar as it was, and one that goes takes its
    sidecar along unless the sidecar is locked. *)
Lemma eviction_pairs limit d cur entries d' cur' att warned :
  eviction limit d cur entries d' cur' att warned → tracks d entries →
  ∀ name, isPayloadName name = true →
    (is_Some (d' !! name) →
     d' !! metadataPathFor name = d !! metadataPathFor name)
    ∧ (d' !! name = None → is_Some (d !! name) →
       d' !! metadataPathFor name = None
       ∨ ∃ g, d !! metadataPathFor name = Some g ∧ locked g = true).
Proof.
  induction 1 as [| |d cur e0 rest f d' cur' att warned Hgt Hf Hl Hg Hev IH
                  |d cur e0 rest f g d' cur' att warned Hgt Hf Hl Hg Hlg
                     Hev IH
                  |d cur e0 rest d' cur' att warned Hgt Hf Hev IH];
    intros Ht name Hp.
  - split; [done|]. intros E [? E']. congruence.
  - split; [done|]. intros E [? E']. congruence.
  - pose proof (eviction_subseteq _ _ _ _ _ _ _ _ Hev) as Hsub.
    assert (isPayloadName (itemFile e0) = true) as Hp0.
    { destruct Ht as [_ Hall]. by apply Forall_cons in Hall as [(? & _) _]. }
    destruct (decide (name = itemFile e0)) as [->|Hne].
    + split.
      * intros [x Hx]. pose proof (lookup_weaken _ _ _ _ Hx Hsub) as Hc.
        rewrite lookup_delete_ne in Hc by apply metadataPath_ne.
        by rewrite lookup_delete_eq in Hc.
      * intros _ _. left. eapply lookup_weaken_None; [|exact Hsub].
        apply lookup_delete_eq.
    + assert (metadataPathFor name ≠ itemFile e0) as Hne1.
      { intros E. by rewrite <- E, metadataPath_not_payload in Hp0. }
      assert (metadataPathFor name ≠ metadataPathFor (itemFile e0)) as Hne2.
      { by intros E%metadataPathFor_inj. }
      assert (name ≠ metadataPathFor (itemFile e0)) as Hne3.
      { intros E. by rewrite E, metadataPath_not_payload in Hp. }
      destruct (IH (tracks_step _ _ _ _ Ht
                      (λ n H1 H2, eq_trans (lookup_delete_ne _ _ _ (not_eq_sym H2))
                                     (lookup_delete_ne _ _ _ (not_eq_sym H1))))
                  name Hp) as [IH1 IH2].
      rewrite !lookup_delete_ne in IH1, IH2 by done.
      split; [exact IH1|]. intros Hn Hs.
      destruct (IH2 Hn Hs) as [?|(g0 & Hg0 & ?)]; [by left|right].
      exists g0. by rewrite !lookup_delete_ne in Hg0 by done.
  - pose proof (eviction_subseteq _ _ _ _ _ _ _ _ Hev) as Hsub.
    assert (isPayloadName (itemFile e0) = true) as Hp0.
    { destruct Ht as [_ Hall]. by apply Forall_cons in Hall as [(? & _) _]. }
    destruct (decide (name = itemFile e0)) as [->|Hne].
    + split.
      * intros [x Hx]. pose proof (lookup_weaken _ _ _ _ Hx Hsub) as Hc.
        by rewrite lookup_delete_eq in Hc.
      * intros _ _. right. by exists g.
    + assert (metadataPathFor name ≠ itemFile e0) as Hne1.
      { intros E. by rewrite <- E, metadataPath_not_payload in Hp0. }
      destruct (IH (tracks_step _ _ _ _ Ht
                      (λ n H1 H2, lookup_delete_ne _ _ _ (not_eq_sym H1)))
                  name Hp) as [IH1 IH2].
      rewrite !lookup_delete_ne in IH1, IH2 by done.
      split; [exact IH1|]. intros Hn Hs.
      destruct (IH2 Hn Hs) as [?|(g0 & Hg0 & ?)]; [by left|right].
      exists g0. by rewrite !lookup_delete_ne in Hg0 by done.
  - apply IH; [|done]. eapply tracks_step; [exact Ht|]. done.
Qed.

(** X2.  When no sidecar is locked, a pass removes a payload and its sidecar
    together or leaves both as they were: it never leaves metadata behind
    for a payload it removed, and never takes the metadata of a payload it
    kept. *)
Theorem enforceCacheLimit_keeps_pairs (cfg : Config) (w : world) :
  (∀ name g, disk w !! metadataPathFor name = Some g → locked g = false) →
  ∃ w',
    enforceCacheLimit cfg w = Ok tt w'
    ∧ ∀ name, isPayloadName name = true →
        (is_Some (disk w' !! name) →
         disk w' !! name = disk w !! name
         ∧ disk w' !! metadataPathFor name
           = disk w !! metadataPathFor name)
        ∧ (disk w' !! name = None → disk w' !! metadataPathFor name = None
           ∨ disk w !! name = None).
Proof.
  intros Hfree.
  destruct (enforceCacheLimit_eviction cfg w)
    as (w' & cur' & att & warned & Δ & Hrun & Hev & _).
  exists w'. split; [done|]. intros name Hp.
  pose proof (tracks_payloadItems (disk w) _
                (sortByMtime_Permutation (payloadItems (disk w)))) as Ht.
  pose proof (eviction_subseteq _ _ _ _ _ _ _ _ Hev) as Hsub.
  destruct (eviction_pairs _ _ _ _ _ _ _ _ Hev Ht name Hp) as [H1 H2].
  split.
  - intros Hs. split; [|by apply H1].
    destruct Hs as [x Hx]. rewrite Hx. symmetry.
    by eapply lookup_weaken.
  - intros Hnone. destruct (disk w !! name) as [f|] eqn:Ef; [|by right].
    left. destruct (H2 Hnone) as [?|(g & Hg & Hl)]; [by eexists|done|].
    by rewrite (Hfree _ _ Hg) in Hl.
Qed.

Lemma enforceCacheLimit_keeps_pairs_witness :
  let d : gmap string file :=
    <["a.png" := File "aaaaaa" 1 true false]>
      (<["a.png.json" := File "{}" 1 true false]>
        (<["b.png" := File "bbbb" 2 true false]>
          (<["b.png.json" := File "{}" 2 true false]> ∅))) in
  ∃ w', enforceCacheLimit Sample.smallConfig (World d 9 []) = Ok tt w'
        ∧ disk w' !! "a.png" = None ∧ disk w' !! "a.png.json" = None
        ∧ disk w' !! "b.png.json" = Some (File "{}" 2 true false).
Proof.
  intros d.
  destruct (enforceCacheLimit_keeps_pairs Sample.smallConfig (World d 9 []))
    as (w' & Hrun & Hpairs).
  { intros name g Hg.
    unfold d in Hg. cbn [disk] in Hg.
    repeat (apply lookup_insert_Some in Hg as [[_ <-]|[_ Hg]]; [done|]).
    by rewrite lookup_empty in Hg. }
  exists w'. split; [exact Hrun|].
  destruct (Hpairs "a.png" eq_refl) as [_ Ha].
  destruct (Hpairs "b.png" eq_refl) as [Hb _].
  assert (disk w' !! "a.png" = None ∧ is_Some (disk w' !! "b.png"))
    as [Hgone Hkept].
  { vm_compute in Hrun. injection Hrun as <-. split; [reflexivity|].
    eexists. reflexivity. }
  split; [exact Hgone|]. split.
  - by destruct (Ha Hgone).
  - destruct (Hb Hkept) as [_ Hside]. exact Hside.
Defined.

(** *** The most recently served entry goes last *)

Lemma sorted_newest_last (l : list cacheItem) (e : cacheItem) :
  StronglySorted olderOrEqual l → NoDup l → e ∈ l →
  (∀ y, y ∈ l → y ≠ e → itemMtime y < itemMtime e) →
  ∃ pre, l = pre ++ [e].
Proof.
  induction 1 as [|x l Hs IH Hall]; intros Hnd He Hnew.
  { by apply elem_of_nil in He. }
  apply NoDup_cons in Hnd as [Hx Hnd].
  destruct l as [|y l].
  { apply elem_of_cons in He as [->|He]; [by exists []|].
    by apply elem_of_nil in He. }
  apply elem_of_cons in He as [->|He].
  - apply Forall_cons in Hall as [Hxy _]. unfold olderOrEqual in Hxy.
    assert (itemMtime y < itemMtime x); [|lia].
    apply Hnew; [right; by left|]. intros ->. apply Hx. by left.
  - destruct IH as [pre ->]; [done..| |by exists (x :: pre)].
    intros z Hz. apply Hnew. by right.
Qed.

Lemma NoDup_names_eq (l : list cacheItem) (a b : cacheItem) :
  NoDup (itemFile <$> l) → a ∈ l → b ∈ l → itemFile a = itemFile b → a = b.
Proof.
  induction l as [|x l IH]; intros Hnd Ha Hb E.
  { by apply elem_of_nil in Ha. }
  rewrite fmap_cons in Hnd. apply NoDup_cons in Hnd as [Hx Hnd].
  apply elem_of_cons in Ha as [->|Ha]; apply elem_of_cons in Hb as [->|Hb].
  - done.
  - exfalso. apply Hx. rewrite E. by apply list_elem_of_fmap_2.
  - exfalso. apply Hx. rewrite <- E. by apply list_elem_of_fmap_2.
  - by apply IH.
Qed.

(** X3.  A hit refreshes the modification time, and the eviction pass goes by
    modification time: when every other payload entry is older than the
    moment of the hit, the entry just served is the last one a following
    pass removes, after it has tried every other payload entry. *)
Theorem served_entry_is_evicted_last `{Runtime} (cfg : Config) (rq : nat)
    (cacheFile : string) (w w1 : world) :
  serveCached rq cacheFile w = Ok true w1 →
  (∀ name f, name ≠ cacheFile → isPayloadName name = true →
             disk w !! name = Some f → mtime f < clock w) →
  ∃ w2 Δ,
    enforceCacheLimit cfg w1 = Ok tt w2
    ∧ trace w2 = trace w1 ++ Δ
    ∧ (cacheFile ∈ payloadUnlinks Δ →
       (∃ pre, payloadUnlinks Δ = pre ++ [cacheFile])
       ∧ ∀ name, isPayloadName name = true → is_Some (disk w !! name) →
                 name ∈ payloadUnlinks Δ).
Proof.
  intros Hhit Hold. rewrite serveCached_run in Hhit.
  destruct (negb _); [done|].
  destruct (disk w !! cacheFile) as [f|] eqn:Ef; [|done].
  injection Hhit as <-.
  set (f1 := File (content f) (clock w) (readable f) (locked f)).
  set (d1 := <[cacheFile := f1]> (disk w)).
  match goal with |- context [enforceCacheLimit cfg ?x] => set (w1 := x) end.
  destruct (enforceCacheLimit_eviction cfg w1)
    as (w2 & cur' & att & warned & Δ & Hrun & Hev & _ & Ht & Hu & _).
  exists w2, Δ. split; [done|]. split; [done|]. rewrite Hu.
  change (disk w1) with d1 in Hev.
  pose proof (sortByMtime_Permutation (payloadItems d1)) as Hperm.
  pose proof (sortByMtime_Sorted (payloadItems d1)) as Hsorted.
  pose proof (tracks_payloadItems d1 _ Hperm) as [Hnd _].
  apply eviction_prefix in Hev as (rest & Hsplit & _).
  intros (e & Hname & He)%list_elem_of_fmap.
  assert (e ∈ sortByMtime (payloadItems d1)) as Hin.
  { rewrite Hsplit. apply elem_of_app. by left. }
  assert (itemMtime e = clock w) as Hme.
  { rewrite Hperm in Hin. apply payloadItems_elem in Hin as (_ & g & Hg & _ & ->).
    rewrite <- Hname in Hg. unfold d1 in Hg.
    rewrite lookup_insert_eq in Hg. by injection Hg as <-. }
  destruct (sorted_newest_last _ e Hsorted) as [pre Hpre].
  { by eapply NoDup_fmap_1. }
  { done. }
  { intros y Hy Hye. rewrite Hme.
    assert (itemFile y ≠ cacheFile) as Hyn.
    { intros E. apply Hye.
      eapply NoDup_names_eq; [exact Hnd|done..|congruence]. }
    rewrite Hperm in Hy.
    apply payloadItems_elem in Hy as (Hp & g & Hg & _ & ->).
    unfold d1 in Hg. rewrite lookup_insert_ne in Hg by done.
    by eapply Hold. }
  assert (rest = []) as ->.
  { destruct rest as [|r rest _] using rev_ind; [done|]. exfalso.
    rewrite Hpre, app_assoc in Hsplit.
    apply app_inj_tail in Hsplit as [Hsplit ->].
    rewrite Hpre in Hnd. rewrite fmap_app in Hnd.
    apply NoDup_app in Hnd as (_ & Hdis & _).
    apply (Hdis (itemFile r)).
    - apply list_elem_of_fmap_2. rewrite Hsplit. apply elem_of_app. by left.
    - simpl. by left. }
  rewrite app_nil_r in Hsplit. rewrite <- Hsplit, Hpre. split.
  - exists (itemFile <$> pre). by rewrite fmap_app, Hname.
  - intros name Hp [g Hg]. rewrite <- Hpre.
    assert (∃ g1, d1 !! name = Some g1) as [g1 Hg1].
    { unfold d1. destruct (decide (name = cacheFile)) as [->|Hn].
      - rewrite lookup_insert_eq. by eexists.
      - rewrite lookup_insert_ne by done. by eexists. }
    apply (list_elem_of_fmap_2' itemFile _ (CacheItem name (size g1) (mtime g1)));
      [|done].
    rewrite Hperm. apply payloadItems_elem. split; [done|]. by exists g1.
Qed.

Lemma served_entry_is_evicted_last_witness :
  let d : gmap string file :=
    <["a.png" := File "aaaaaa" 1 true false]>
      (<["a.png.json" := File Sample.metadataText 1 true false]>
        (<["b.png" := File "bbbb" 2 true false]> ∅)) in
  ∃ w1 w2,
    serveCached (H:=Sample.runtime) 1 "a.png" (World d 5 []) = Ok true w1
    ∧ enforceCacheLimit Sample.smallConfig w1 = Ok tt w2
    ∧ payloadUnlinks (trace w2) = ["b.png"]
    ∧ is_Some (disk w2 !! "a.png").
Proof.
  intros d.
  destruct (serveCached (H:=Sample.runtime) 1 "a.png" (World d 5 []))
    as [[] w1|] eqn:Hhit; try (vm_compute in Hhit; discriminate).
  destruct (served_entry_is_evicted_last (H:=Sample.runtime)
              Sample.smallConfig 1 "a.png" (World d 5 []) w1 Hhit)
    as (w2 & Δ & Hrun & Ht & Hlast).
  { intros name f Hn Hp Hf. unfold d in Hf. cbn [disk clock] in *.
    apply lookup_insert_Some in Hf as [[<- _]|[_ Hf]]; [done|].
    apply lookup_insert_Some in Hf as [[<- _]|[_ Hf]]; [done|].
    apply lookup_insert_Some in Hf as [[_ <-]|[_ Hf]]; [simpl; lia|].
    by rewrite lookup_empty in Hf. }
  exists w1, w2. split; [done|]. split; [exact Hrun|].
  vm_compute in Hhit. injection Hhit as <-.
  vm_compute in Hrun. injection Hrun as <-.
  split; [reflexivity|]. eexists. reflexivity.
Defined.

(** ** The whole of an ingestion *)

Lemma writeChunks_insert (name : string) (now : Z) (chunks : list string)
    (d : gmap string file) (f : file) :
  mtime f = now →
  writeChunks name now chunks (<[name := f]> d)
  = <[name := File (content f +:+ Js.joinEmpty chunks) now (readable f)
                (locked f)]> d.
Proof.
  revert f. unfold writeChunks.
  induction chunks as [|c chunks IH]; intros f Hm; simpl.
  - rewrite sapp_nil_r. destruct f. simpl in *. by subst.
  - rewrite alter_insert_eq. unfold appendChunk at 2.
    rewrite IH by done. simpl. by rewrite sapp_assoc.
Qed.

Lemma length_joinEmpty (chunks : list string) :
  String.length (Js.joinEmpty chunks) = totalLength chunks.
Proof.
  induction chunks as [|c chunks IH]; simpl; [done|].
  by rewrite slength_app, IH.
Qed.

(** A response that is let in and stays within the ceiling reaches its end
    or error handler with the whole body in the staging entry. *)
Lemma ingestion_staged `{Runtime} (cfg : Config) (rq : nat)
    (cacheFile : string) (r : upstreamResponse) (w : world) :
  let tempFile := tempFileFor cacheFile in
  let contentType := default EmptyString (headers r !! "content-type") in
  statusCode r = 200 →
  Js.startsWith "image/" contentType = true →
  declaredTooLong cfg r = false →
  (∀ f, disk w !! tempFile = Some f → locked f = false) →
  Z.of_nat (totalLength (body r)) ≤ maxDownloadBytes cfg →
  handleResponse cfg rq cacheFile r w
  = match ending r with
    | StreamEnds => onEnd cfg
    | StreamErrors message => onError cfg message
    end
      (Ingest rq cacheFile contentType (totalLength (body r)) false)
      (World (<[tempFile := stagedFile w tempFile (body r)]> (disk w))
         (clock w)
         (trace w ++ [FsCreateWriteStream tempFile]
                  ++ chunkEffects rq tempFile (body r))).
Proof.
  intros tempFile contentType Hs Ht Hd Hl Hle.
  unfold handleResponse, onResponse.
  fold contentType. rewrite Hs, Z.eqb_refl, Ht, Hd. cbn [negb].
  fold tempFile.
  assert (createWriteStream tempFile w
          = Ok tt (World (<[tempFile := stagedFile w tempFile []]> (disk w))
                     (clock w) (trace w ++ [FsCreateWriteStream tempFile])))
    as Hcreate.
  { unfold createWriteStream, bind, emit, getDisk, getClock, setDisk, throw,
      stagedFile. simpl.
    destruct (disk w !! tempFile) as [f|] eqn:Ef; [|done].
    by rewrite (Hl f eq_refl). }
  unfold bind at 1 2. rewrite Hcreate. unfold ret. cbv beta iota.
  rewrite flow_to_end by (simpl; first [done|lia]).
  cbn [igRq igCacheFile igContentType downloaded disk clock trace].
  fold tempFile. rewrite writeChunks_insert by done.
  unfold stagedFile. simpl. by rewrite <- app_assoc.
Qed.

(** A stream error within the ceiling: the staging entry is removed and the
    placeholder goes out. *)
Lemma onError_run (cfg : Config) (message : string) (ig : ingest)
    (w : world) (f : file) :
  let tempFile := tempFileFor (igCacheFile ig) in
  aborted ig = false →
  disk w !! tempFile = Some f → locked f = false →
  onError cfg message ig w
  = Ok tt (World (delete tempFile (disk w)) (clock w)
             (trace w ++ [FsStreamDestroy tempFile; FsExists tempFile;
                          FsUnlink tempFile]
                      ++ failureResponse cfg (igRq ig)
                           ("Proxy error: " +:+ message) 413)).
Proof.
  intros tempFile Ha Hf Hl. unfold onError. rewrite Ha. fold tempFile.
  unfold bind at 1 2, streamDestroy, emit, discardStaging,
    existsSync, bind, emit, getDisk, ret. simpl. rewrite Hf. simpl.
  unfold unlinkSync, bind, emit, getDisk, setDisk, throw. simpl.
  rewrite Hf, Hl. simpl. rewrite sendFailure_run. simpl.
  by rewrite <- !app_assoc.
Qed.

(** X4.  When the upstream stream breaks before the ceiling is reached, the
    ingestion is rolled back: what was written to the staging entry is
    removed, the directory is as before (without a staging entry), nothing
    is published, and the caller gets the placeholder with the error
    message and status 413. *)
Theorem stream_error_rolls_back `{Runtime} (cfg : Config) (rq : nat)
    (cacheFile : string) (r : upstreamResponse) (w : world)
    (message : string) :
  let tempFile := tempFileFor cacheFile in
  statusCode r = 200 →
  Js.startsWith "image/"
    (default EmptyString (headers r !! "content-type")) = true →
  declaredTooLong cfg r = false →
  (∀ f, disk w !! tempFile = Some f → locked f = false) →
  Z.of_nat (totalLength (body r)) ≤ maxDownloadBytes cfg →
  ending r = StreamErrors message →
  handleResponse cfg rq cacheFile r w
  = Ok tt (World (delete tempFile (disk w)) (clock w)
             (trace w ++ [FsCreateWriteStream tempFile]
                ++ chunkEffects rq tempFile (body r)
                ++ [FsStreamDestroy tempFile; FsExists tempFile;
                    FsUnlink tempFile]
                ++ failureResponse cfg rq ("Proxy error: " +:+ message)
                     413)).
Proof.
  intros tempFile Hs Ht Hd Hl Hle He.
  rewrite ingestion_staged by done. rewrite He. fold tempFile.
  erewrite onError_run; [|done|apply lookup_insert_eq|done].
  cbn [igRq igCacheFile disk clock trace]. fold tempFile.
  by rewrite delete_insert_eq, <- !app_assoc.
Qed.

Lemma stream_error_rolls_back_witness :
  handleResponse (H:=Sample.runtime) Sample.smallConfig 1 "k.png"
    {| statusCode := 200; headers := {["content-type" := "image/png"]};
       body := ["ab"; "c"]; ending := StreamErrors "socket hang up" |}
    (World {["k.png" := File "old" 1 true false]} 3 [])
  = Ok tt (World {["k.png" := File "old" 1 true false]} 3
             ([FsCreateWriteStream "k.png.tmp";
               UpReceive 1 2; FsStreamWrite "k.png.tmp" "ab";
               UpReceive 1 1; FsStreamWrite "k.png.tmp" "c";
               FsStreamDestroy "k.png.tmp"; FsExists "k.png.tmp";
               FsUnlink "k.png.tmp"]
              ++ failureResponse Sample.smallConfig 1
                   "Proxy error: socket hang up" 413)).
Proof.
  rewrite (stream_error_rolls_back (H:=Sample.runtime) Sample.smallConfig 1
             "k.png" _ _ "socket hang up");
    [|reflexivity|reflexivity|reflexivity| |vm_compute; discriminate
     |reflexivity].
  - reflexivity.
  - intros f Hf. by vm_compute in Hf.
Defined.

(** A body that ends within the ceiling is published, and the handler goes
    on with the eviction pass and the answer. *)
Lemma ingestion_published `{Runtime} (cfg : Config) (rq : nat)
    (cacheFile : string) (r : upstreamResponse) (w : world) :
  let tempFile := tempFileFor cacheFile in
  let metaFile := metadataPathFor cacheFile in
  let contentType := default EmptyString (headers r !! "content-type") in
  let ig := Ingest rq cacheFile contentType (totalLength (body r)) false in
  statusCode r = 200 →
  Js.startsWith "image/" contentType = true →
  declaredTooLong cfg r = false →
  (∀ f, disk w !! tempFile = Some f → locked f = false) →
  (∀ f, disk w !! cacheFile = Some f → locked f = false) →
  (∀ f, disk w !! metaFile = Some f → locked f = false) →
  Z.of_nat (totalLength (body r)) ≤ maxDownloadBytes cfg →
  ending r = StreamEnds →
  handleResponse cfg rq cacheFile r w
  = (enforceCacheLimit cfg ;;
     let* stats := statSync cacheFile in
     emit (ResWriteHead rq 200
             (successHeaders (JStr contentType) (size stats))) ;;
     pipeFile rq cacheFile)
      (World (publishedDisk w ig (body r)) (clock w)
         (trace w ++ publishEffects w ig (body r))).
Proof.
  intros tempFile metaFile contentType ig Hs Ht Hd Hl Hc Hm Hle He.
  pose proof (tempFile_ne cacheFile) as Hn1.
  pose proof (metadataPath_ne cacheFile) as Hn2.
  pose proof (tempFile_ne_metadataPath cacheFile) as Hn3.
  fold tempFile in Hn1, Hn3. fold metaFile in Hn2, Hn3.
  rewrite ingestion_staged by done. rewrite He.
  fold tempFile contentType ig.
  set (staged := stagedFile w tempFile (body r)).
  set (wb := World (<[tempFile := staged]> (disk w)) (clock w)
               (trace w ++ [FsCreateWriteStream tempFile]
                        ++ chunkEffects rq tempFile (body r))).
  unfold onEnd. cbn [aborted ig igCacheFile igRq igContentType].
  fold tempFile.
  rewrite (bind_ok _ _ _ _ _ (emit_run _ _ : streamEnd tempFile wb = _)).
  erewrite bind_ok.
  2:{ apply (renameSync_run _ _ _ staged).
      - simpl. apply lookup_insert_eq.
      - intros g. simpl. rewrite lookup_insert_ne by done. apply Hc. }
  cbn [disk clock trace wb].
  rewrite delete_insert_eq.
  erewrite bind_ok; [reflexivity|].
  unfold bind at 1. unfold getClock, writeMetadata. cbn [clock].
  fold metaFile.
  unfold writeFileSync, bind, emit, getDisk, getClock, setDisk, throw.
  cbn [disk clock trace].
  rewrite lookup_insert_ne, lookup_delete_ne by done.
  unfold publishedDisk, publishEffects, recordedFile.
  cbn [igCacheFile igRq ig]. fold tempFile metaFile staged.
  destruct (disk w !! metaFile) as [g|] eqn:Eg; simpl.
  - rewrite (Hm g eq_refl). by rewrite <- !app_assoc.
  - by rewrite <- !app_assoc.
Qed.

(** *** The eviction pass answers no request *)

Lemma answers_app (rq : nat) (t1 t2 : list effect) :
  answers rq (t1 ++ t2) = answers rq t1 ++ answers rq t2.
Proof. apply filter_app. Qed.

Lemma answers_stats (rq : nat) (names : list string) :
  answers rq (FsStat <$> names) = [].
Proof. induction names as [|n names IH]; [done|]. simpl. done. Qed.

Lemma answers_chunkEffects (rq : nat) (name : string)
    (chunks : list string) :
  answers rq (chunkEffects rq name chunks) = [].
Proof. induction chunks as [|c chunks IH]; [done|]. simpl. exact IH. Qed.

Lemma evictLoop_answers (cfg : Config) (rq : nat)
    (entries : list cacheItem) (cur : Z) (w : world) :
  ∃ cur' w', evictLoop cfg entries cur w = Ok cur' w'
             ∧ answers rq (trace w') = answers rq (trace w).
Proof.
  revert cur w. induction entries as [|e rest IH]; intros cur w.
  { by exists cur, w. }
  simpl. destruct (cur <=? maxCacheBytes cfg); [by exists cur, w|].
  pose proof (evictStep_run (itemFile e) w) as Hstep. simpl in Hstep.
  unfold bind at 1. rewrite Hstep. clear Hstep.
  destruct (disk w !! itemFile e) as [f|];
    [destruct (locked f);
     [|destruct (disk w !! metadataPathFor (itemFile e)) as [g|];
       [destruct (locked g)|]]|];
    unfold bind, emit; cbn [disk clock trace];
    match goal with
    | |- context [evictLoop cfg rest ?c ?w1] =>
        destruct (IH c w1) as (cur' & w' & -> & Ha)
    end;
    exists cur', w'; (split; [done|]); rewrite Ha; cbn [trace];
    rewrite ?answers_app; simpl; by rewrite ?app_nil_r.
Qed.

Lemma enforceCacheLimit_answers (cfg : Config) (rq : nat) (w : world) :
  ∃ w', enforceCacheLimit cfg w = Ok tt w'
        ∧ answers rq (trace w') = answers rq (trace w).
Proof.
  unfold enforceCacheLimit. unfold bind at 1. rewrite listFiles_run.
  assert (answers rq (trace w ++ FsReaddir
            :: (FsStat <$> (itemFile <$> payloadItems (disk w))))
          = answers rq (trace w)) as Hlist.
  { rewrite answers_app. unfold answers at 2. rewrite filter_cons. simpl.
    fold (answers rq (FsStat <$> (itemFile <$> payloadItems (disk w)))).
    by rewrite answers_stats, app_nil_r. }
  destruct (_ <=? _).
  - eexists. split; [reflexivity|]. exact Hlist.
  - unfold bind.
    match goal with
    | |- context [evictLoop cfg ?l ?c ?w1] =>
        destruct (evictLoop_answers cfg rq l c w1) as (cur' & w' & -> & Ha)
    end.
    exists w'. split; [done|]. rewrite Ha. exact Hlist.
Qed.

(** *** A payload larger than the whole cache *)

Lemma totalSizeOf_nonneg (l : list cacheItem) : 0 ≤ totalSizeOf l.
Proof.
  induction l as [|x l IH]; [done|]. rewrite totalSizeOf_cons. lia.
Qed.

Lemma totalSizeOf_elem (l : list cacheItem) (e : cacheItem) :
  e ∈ l → Z.of_nat (itemSize e) ≤ totalSizeOf l.
Proof.
  induction l as [|x l IH]; intros He; [by apply elem_of_nil in He|].
  rewrite totalSizeOf_cons. pose proof (totalSizeOf_nonneg l).
  apply elem_of_cons in He as [->|He]; [lia|]. specialize (IH He). lia.
Qed.

(** An entry that alone exceeds the limit cannot survive the pass when it
    and its sidecar can be removed. *)
Lemma eviction_oversized limit d cur entries d' cur' att warned e f :
  eviction limit d cur entries d' cur' att warned → tracks d entries →
  e ∈ entries → limit < Z.of_nat (itemSize e) → totalSizeOf entries ≤ cur →
  d !! itemFile e = Some f → locked f = false →
  (∀ g, d !! metadataPathFor (itemFile e) = Some g → locked g = false) →
  d' !! itemFile e = None ∧ d' !! metadataPathFor (itemFile e) = None.
Proof.
  induction 1 as [| |d cur e0 rest f0 d' cur' att warned Hgt Hf Hl Hg Hev IH
                  |d cur e0 rest f0 g d' cur' att warned Hgt Hf Hl Hg Hlg
                     Hev IH
                  |d cur e0 rest d' cur' att warned Hgt Hf Hev IH];
    intros Ht He Hbig Hsum Hfe Hle Hge.
  - by apply elem_of_nil in He.
  - apply totalSizeOf_elem in He. lia.
  - pose proof (eviction_subseteq _ _ _ _ _ _ _ _ Hev) as Hsub.
    destruct (decide (itemFile e = itemFile e0)) as [E|Hne].
    { rewrite E. split; eapply lookup_weaken_None; try exact Hsub.
      - rewrite lookup_delete_ne by apply metadataPath_ne.
        apply lookup_delete_eq.
      - apply lookup_delete_eq. }
    assert (isPayloadName (itemFile e0) = true ∧ isPayloadName (itemFile e) = true)
      as [Hp0 Hp].
    { destruct Ht as [_ Hall]. rewrite Forall_forall in Hall.
      split; [apply (Hall e0); by left|by apply (Hall e)]. }
    apply elem_of_cons in He as [->|He]; [done|].
    rewrite totalSizeOf_cons in Hsum.
    apply IH; try done.
    + eapply tracks_step; [exact Ht|]. intros. by rewrite !lookup_delete_ne.
    + lia.
    + rewrite !lookup_delete_ne; [done|done|].
      intros E. by rewrite <- E, metadataPath_not_payload in Hp.
    + intros g0. rewrite !lookup_delete_ne; [apply Hge| |].
      * intros E. by rewrite E, metadataPath_not_payload in Hp0.
      * by intros E%metadataPathFor_inj.
  - pose proof (eviction_subseteq _ _ _ _ _ _ _ _ Hev) as Hsub.
    destruct (decide (itemFile e = itemFile e0)) as [E|Hne].
    { rewrite E in Hge. by rewrite (Hge _ Hg) in Hlg. }
    assert (isPayloadName (itemFile e0) = true ∧ isPayloadName (itemFile e) = true)
      as [Hp0 Hp].
    { destruct Ht as [_ Hall]. rewrite Forall_forall in Hall.
      split; [apply (Hall e0); by left|by apply (Hall e)]. }
    apply elem_of_cons in He as [->|He]; [done|].
    rewrite totalSizeOf_cons in Hsum.
    apply IH; try done.
    + eapply tracks_step; [exact Ht|]. intros. by rewrite !lookup_delete_ne.
    + lia.
    + by rewrite !lookup_delete_ne.
    + intros g0. rewrite !lookup_delete_ne; [apply Hge|].
      intros E. by rewrite E, metadataPath_not_payload in Hp0.
  - destruct (decide (itemFile e = itemFile e0)) as [E|Hne].
    { rewrite E in Hfe. destruct Hf as [Hf|(f1 & Hf & Hl1)]; congruence. }
    apply elem_of_cons in He as [->|He]; [done|].
    rewrite totalSizeOf_cons in Hsum.
    apply IH; try done; [|lia].
    eapply tracks_step; [exact Ht|]. done.
Qed.

(** X5.  A body that fits the download ceiling but is larger than the whole
    cache limit is published and then removed again by the eviction pass of
    its own ingestion: the [statSync] that follows throws, the handler ends
    in an uncaught [ENOENT], and the request is never answered. *)
Theorem oversized_for_cache_is_never_answered `{Runtime} (cfg : Config)
    (rq : nat) (cacheFile : string) (r : upstreamResponse) (w : world) :
  let tempFile := tempFileFor cacheFile in
  let metaFile := metadataPathFor cacheFile in
  statusCode r = 200 →
  Js.startsWith "image/"
    (default EmptyString (headers r !! "content-type")) = true →
  declaredTooLong cfg r = false →
  (∀ f, disk w !! tempFile = Some f → locked f = false) →
  (∀ f, disk w !! cacheFile = Some f → locked f = false) →
  (∀ f, disk w !! metaFile = Some f → locked f = false) →
  ending r = StreamEnds →
  isPayloadName cacheFile = true →
  maxCacheBytes cfg < Z.of_nat (totalLength (body r))
    ≤ maxDownloadBytes cfg →
  ∃ w',
    handleResponse cfg rq cacheFile r w = Threw "ENOENT" w'
    ∧ FsRename tempFile cacheFile ∈ trace w'
    ∧ answers rq (trace w') = answers rq (trace w)
    ∧ disk w' !! cacheFile = None
    ∧ disk w' !! metaFile = None
    ∧ disk w' !! tempFile = None.
Proof.
  intros tempFile metaFile Hs Ht Hd Hl Hc Hm He Hp [Hbig Hle].
  pose proof (tempFile_ne cacheFile) as Hn1.
  pose proof (metadataPath_ne cacheFile) as Hn2.
  pose proof (tempFile_ne_metadataPath cacheFile) as Hn3.
  fold tempFile in Hn1, Hn3. fold metaFile in Hn2, Hn3.
  rewrite ingestion_published by done.
  set (ig := Ingest rq cacheFile _ _ false).
  set (d1 := publishedDisk w ig (body r)).
  set (w1 := World d1 (clock w) (trace w ++ publishEffects w ig (body r))).
  set (staged := stagedFile w tempFile (body r)).
  assert (d1 !! cacheFile = Some staged) as Hd1.
  { unfold d1, publishedDisk. cbn [igCacheFile ig].
    fold metaFile tempFile staged.
    by rewrite lookup_insert_ne, lookup_insert_eq. }
  destruct (enforceCacheLimit_eviction cfg w1)
    as (w2 & cur' & att & warned & Δ & Hrun & Hev & _ & Htr & _).
  destruct (enforceCacheLimit_answers cfg rq w1) as (w2' & Hrun' & Hans).
  rewrite Hrun in Hrun'. injection Hrun' as <-.
  change (disk w1) with d1 in Hev.
  pose proof (sortByMtime_Permutation (payloadItems d1)) as Hperm.
  destruct (eviction_oversized _ _ _ _ _ _ _ _
              (CacheItem cacheFile (size staged) (mtime staged)) staged Hev)
    as [Hgone Hgone'].
  { by apply tracks_payloadItems. }
  { rewrite Hperm. apply payloadItems_elem. split; [done|]. by exists staged. }
  { simpl. unfold size, staged, stagedFile. simpl.
    rewrite length_joinEmpty. lia. }
  { unfold payloadTotal. by rewrite (totalSizeOf_Permutation _ _ Hperm). }
  { done. }
  { done. }
  { intros g. simpl. unfold d1, publishedDisk. cbn [igCacheFile ig].
    fold metaFile. rewrite lookup_insert_eq. by intros [= <-]. }
  simpl in Hgone, Hgone'. fold metaFile in Hgone'.
  pose proof (eviction_subseteq _ _ _ _ _ _ _ _ Hev) as Hsub.
  exists (World (disk w2) (clock w2) (trace w2 ++ [FsStat cacheFile])).
  split.
  { unfold bind at 1. rewrite Hrun. unfold bind at 1.
    unfold statSync, bind, emit, getDisk, throw. simpl. by rewrite Hgone. }
  cbn [disk trace]. split.
  { rewrite Htr. apply elem_of_app. left. apply elem_of_app. left.
    unfold w1, publishEffects. cbn [trace igCacheFile igRq ig].
    fold tempFile. apply elem_of_app. right.
    apply elem_of_app. right. apply elem_of_app. right.
    apply list_elem_of_further, list_elem_of_here. }
  split.
  { rewrite answers_app, Hans. unfold w1. cbn [trace].
    rewrite answers_app. simpl. rewrite app_nil_r.
    unfold publishEffects. cbn [igCacheFile igRq ig]. fold tempFile.
    rewrite !answers_app. simpl.
    by rewrite answers_chunkEffects, !app_nil_r. }
  split; [done|]. split; [done|].
  eapply lookup_weaken_None; [|exact Hsub].
  unfold d1, publishedDisk. cbn [igCacheFile ig]. fold metaFile tempFile.
  by rewrite !lookup_insert_ne, lookup_delete_eq.
Qed.

Lemma oversized_for_cache_is_never_answered_witness :
  ∃ w',
    handleResponse (H:=Sample.runtime)
      {| maxCacheBytes := 3; maxDownloadBytes := 5;
         failureImage := defaultFailureImage |} 1 "k.png"
      (Sample.imageResponse ["ab"; "cd"]) Sample.emptyWorld
    = Threw "ENOENT" w'
    ∧ answers 1 (trace w') = []
    ∧ disk w' = ∅.
Proof.
  destruct (oversized_for_cache_is_never_answered (H:=Sample.runtime)
              {| maxCacheBytes := 3; maxDownloadBytes := 5;
                 failureImage := defaultFailureImage |} 1 "k.png"
              (Sample.imageResponse ["ab"; "cd"]) Sample.emptyWorld)
    as (w' & Hrun & _ & Hans & _);
    [reflexivity|reflexivity|reflexivity|
     intros f Hf; simpl in Hf; by rewrite lookup_empty in Hf|
     intros f Hf; simpl in Hf; by rewrite lookup_empty in Hf|
     intros f Hf; simpl in Hf; by rewrite lookup_empty in Hf|
     reflexivity|reflexivity|simpl; lia|].
  exists w'. split; [exact Hrun|]. split; [exact Hans|].
  vm_compute in Hrun. injection Hrun as <-. reflexivity.
Defined.

(** *** From ingestion to hit *)



Lemma answers_publishEffects `{Runtime} (w : world) (ig : ingest)
    (chunks : list string) :
  answers (igRq ig) (publishEffects w ig chunks) = [].
Proof.
  unfold publishEffects. rewrite !answers_app, answers_chunkEffects. done.
Qed.

(** X6.  A body that was ingested with room left in the cache is answered from
    the published file, and the next lookup of the same key is a hit that
    needs no upstream: the same bytes, the content type the upstream gave,
    and the length of the body as [Content-Length].  The sidecar must read
    back from its JSON text with its [contentType]. *)
Theorem ingested_body_is_served_from_cache `{Runtime} (cfg : Config)
    (rq : nat) (cacheFile : string) (r : upstreamResponse) (w : world)
    (metadata : jsval) :
  let tempFile := tempFileFor cacheFile in
  let metaFile := metadataPathFor cacheFile in
  let contentType := default EmptyString (headers r !! "content-type") in
  let ig := Ingest rq cacheFile contentType (totalLength (body r)) false in
  let answer (q : nat) :=
    ResWriteHead q 200
      (successHeaders (JStr contentType) (totalLength (body r))) in
  statusCode r = 200 →
  Js.startsWith "image/" contentType = true →
  declaredTooLong cfg r = false →
  (∀ f, disk w !! tempFile = Some f → locked f = false ∧ readable f = true) →
  (∀ f, disk w !! cacheFile = Some f → locked f = false) →
  (∀ f, disk w !! metaFile = Some f → locked f = false ∧ readable f = true) →
  ending r = StreamEnds →
  Z.of_nat (totalLength (body r)) ≤ maxDownloadBytes cfg →
  payloadTotal (publishedDisk w ig (body r)) ≤ maxCacheBytes cfg →
  JSON_parse (JSON_stringify (metadataRecord ig (clock w))) = Some metadata →
  Jv.truthy metadata = true →
  Jv.getProp metadata "contentType" = Some (JStr contentType) →
  ∃ w1,
    handleResponse cfg rq cacheFile r w = Ok tt w1
    ∧ disk w1 = publishedDisk w ig (body r)
    ∧ answers rq (trace w1)
      = answers rq (trace w) ++ [answer rq; ResPipeFile rq cacheFile]
    ∧ pipeOutcome (disk w1) cacheFile = Streams (Js.joinEmpty (body r))
    ∧ ∀ q now t,
        ∃ w2,
          serveCached q cacheFile (World (disk w1) now t) = Ok true w2
          ∧ trace w2
            = t ++ [FsReadFile metaFile; FsStat cacheFile; answer q;
                    FsUtimes cacheFile; ResPipeFile q cacheFile]
          ∧ pipeOutcome (disk w2) cacheFile
            = Streams (Js.joinEmpty (body r)).
Proof.
  intros tempFile metaFile contentType ig answer Hs Ht Hd Hl Hc Hm He Hle
    Hroom Hparse Htruthy Htype.
  pose proof (tempFile_ne cacheFile) as Hn1.
  pose proof (metadataPath_ne cacheFile) as Hn2.
  fold tempFile in Hn1. fold metaFile in Hn2.
  rewrite ingestion_published;
    [|done|done|done|intros f Hf; by destruct (Hl f Hf)|done
     |intros f Hf; by destruct (Hm f Hf)|done|done].
  fold contentType ig.
  set (d1 := publishedDisk w ig (body r)) in *.
  set (w1 := World d1 (clock w) (trace w ++ publishEffects w ig (body r))).
  set (staged := stagedFile w tempFile (body r)).
  assert (d1 !! cacheFile = Some staged) as Hd1.
  { unfold d1, publishedDisk. cbn [igCacheFile ig].
    fold metaFile tempFile staged.
    by rewrite lookup_insert_ne, lookup_insert_eq. }
  assert (readable staged = true ∧ content staged = Js.joinEmpty (body r)
          ∧ size staged = totalLength (body r)) as (Hrd & Hct & Hsz).
  { unfold size, staged, stagedFile. simpl. rewrite length_joinEmpty.
    split; [|done]. destruct (disk w !! tempFile) as [f|] eqn:Ef; [|done].
    by destruct (Hl f eq_refl). }
  destruct (enforceCacheLimit_eviction cfg w1)
    as (w2 & cur' & att & warned & Δ & Hrun & Hev & Hclock & Htr & _).
  destruct (enforceCacheLimit_answers cfg rq w1) as (w2' & Hrun' & Hans).
  rewrite Hrun in Hrun'. injection Hrun' as <-.
  apply eviction_within in Hev as [Hsame _]; [|done].
  change (disk w1) with d1 in Hsame.
  eexists. split.
  { unfold bind at 1. rewrite Hrun. unfold bind at 1.
    unfold statSync, bind, emit, getDisk, pipeFile, emit. simpl.
    rewrite Hsame, Hd1. simpl. reflexivity. }
  cbn [disk trace]. split; [done|]. split.
  { rewrite !answers_app, Hans. unfold w1. cbn [trace].
    rewrite answers_app.
    rewrite (answers_publishEffects w ig (body r) : answers rq _ = []).
    rewrite app_nil_r, Hsz. unfold answers at 2 3 4.
    rewrite !filter_cons, filter_nil. cbn [answerOf].
    rewrite Nat.eqb_refl. simpl. by rewrite <- !app_assoc. }
  split.
  { unfold pipeOutcome. by rewrite Hd1, Hrd, Hct. }
  intros q now t. rewrite serveCached_run. cbn [disk clock trace].
  assert (metadataOf d1 cacheFile = metadata) as ->.
  { unfold metadataOf, d1, publishedDisk. cbn [igCacheFile ig].
    fold metaFile. rewrite lookup_insert_eq. unfold recordedFile. simpl.
    destruct (disk w !! metaFile) as [f|] eqn:Ef; simpl.
    - destruct (Hm f eq_refl) as [_ ->]. by rewrite Hparse.
    - by rewrite Hparse. }
  rewrite Htruthy, Hd1, Htype. cbn [negb].
  assert (orElse (Some (JStr contentType)) (JStr "application/octet-stream")
          = JStr contentType) as ->.
  { unfold orElse. simpl. by destruct contentType. }
  eexists. split; [reflexivity|]. cbn [disk trace]. rewrite Hsz.
  split; [done|]. unfold pipeOutcome.
  by rewrite lookup_insert_eq, Hrd, Hct.
Qed.

Lemma ingested_body_is_served_from_cache_witness :
  ∃ w1 w2,
    handleResponse (H:=Sample.runtime) Sample.smallConfig 1 "k.png"
      (Sample.imageResponse ["ab"; "cd"]) Sample.emptyWorld = Ok tt w1
    ∧ pipeOutcome (disk w1) "k.png" = Streams "abcd"
    ∧ serveCached (H:=Sample.runtime) 2 "k.png" (World (disk w1) 7 [])
      = Ok true w2
    ∧ trace w2
      = [FsReadFile "k.png.json"; FsStat "k.png";
         ResWriteHead 2 200 (successHeaders (JStr "image/png") 4);
         FsUtimes "k.png"; ResPipeFile 2 "k.png"]
    ∧ pipeOutcome (disk w2) "k.png" = Streams "abcd".
Proof.
  destruct (ingested_body_is_served_from_cache (H:=Sample.runtime)
              Sample.smallConfig 1 "k.png"
              (Sample.imageResponse ["ab"; "cd"]) Sample.emptyWorld
              (JObj {["contentType" := JStr "image/png"]}))
    as (w1 & Hrun & _ & _ & Hpipe & Hhit).
  - reflexivity.
  - reflexivity.
  - reflexivity.
  - intros f Hf; simpl in Hf; by rewrite lookup_empty in Hf.
  - intros f Hf; simpl in Hf; by rewrite lookup_empty in Hf.
  - intros f Hf; simpl in Hf; by rewrite lookup_empty in Hf.
  - reflexivity.
  - simpl; lia.
  - vm_compute; discriminate.
  - vm_compute; reflexivity.
  - vm_compute; reflexivity.
  - vm_compute; reflexivity.
  - destruct (Hhit 2%nat 7 []) as (w2 & Hserve & Htrace & Hpipe2).
    exists w1, w2. split; [exact Hrun|]. split; [exact Hpipe|].
    split; [exact Hserve|]. split; [exact Htrace|exact Hpipe2].
Defined.

(** ** More on the renderer's text functions *)

Lemma escapeChar_cases (a : ascii) :
  (isXmlSpecial a = false ∧ escapeChar a = String a EmptyString)
  ∨ a = "&"%char ∨ a = "<"%char ∨ a = ">"%char ∨ a = "034"%char
  ∨ a = "'"%char.
Proof. destruct a as [[] [] [] [] [] [] [] []]; auto 10. Qed.

Lemma escapeChar_app_inj (a b : ascii) (x y : string) :
  escapeChar a +:+ x = escapeChar b +:+ y → a = b ∧ x = y.
Proof.
  destruct (escapeChar_cases a) as [[Ha ->]|Ha];
    destruct (escapeChar_cases b) as [[Hb ->]|Hb].
  - simpl. by intros [= -> ->].
  - destruct Hb as [-> | [-> | [-> | [-> | ->]]]]; simpl; intros [= -> ?];
      discriminate.
  - destruct Ha as [-> | [-> | [-> | [-> | ->]]]]; simpl; intros [= <- ?];
      discriminate.
  - destruct Ha as [-> | [-> | [-> | [-> | ->]]]];
      destruct Hb as [-> | [-> | [-> | [-> | ->]]]]; simpl; intros E;
      first [discriminate|by injection E].
Qed.

(** X7.  Escaping loses nothing: two texts with the same escaped form are the
    same text.  It is the identity exactly on the texts without a markup
    character, so escaping an escaped text again changes it whenever the
    text had one. *)
Theorem escapeXml_injective (s t : string) :
  (escapeXml s = escapeXml t → s = t)
  ∧ (escapeXml s = s ↔ noSpecial s = true)
  ∧ (escapeXml (escapeXml s) = escapeXml s ↔ noSpecial s = true).
Proof.
  assert (∀ s t, escapeXml s = escapeXml t → s = t) as Hinj.
  { clear. induction s as [|a s IH]; intros [|b t] E.
    - done.
    - rewrite escapeXml_cons in E. change (escapeXml EmptyString)
        with EmptyString in E.
      destruct (escapeChar_cases b) as [[_ Hb]|Hb].
      + by rewrite Hb in E.
      + destruct Hb as [-> | [-> | [-> | [-> | ->]]]]; discriminate.
    - rewrite escapeXml_cons in E. change (escapeXml EmptyString)
        with EmptyString in E.
      destruct (escapeChar_cases a) as [[_ Ha]|Ha].
      + by rewrite Ha in E.
      + destruct Ha as [-> | [-> | [-> | [-> | ->]]]]; discriminate.
    - rewrite !escapeXml_cons in E.
      apply escapeChar_app_inj in E as [-> E]. f_equal. by apply IH. }
  assert (∀ s, escapeXml s = s → noSpecial s = true) as Hfix.
  { clear. induction s as [|a s IH]; [done|]. rewrite escapeXml_cons.
    destruct (escapeChar_cases a) as [[Ha ->]|Ha].
    - simpl. intros [= E]. by rewrite Ha, IH.
    - intros E. apply (f_equal String.length) in E.
      rewrite slength_app in E.
      assert (String.length s ≤ String.length (escapeXml s))%nat as Hlen.
      { clear. induction s as [|b s IH]; [done|].
        rewrite escapeXml_cons, slength_app. simpl.
        destruct (escapeChar_cases b) as [[_ ->]|Hb]; [simpl; lia|].
        destruct Hb as [-> | [-> | [-> | [-> | ->]]]]; simpl; lia. }
      destruct Ha as [-> | [-> | [-> | [-> | ->]]]]; simpl in E; lia. }
  split; [apply Hinj|]. split.
  - split; [apply Hfix|apply escapeXml_noSpecial].
  - split.
    + intros E. by apply Hfix, Hinj.
    + intros Hs. rewrite (escapeXml_noSpecial s Hs).
      by apply escapeXml_noSpecial.
Qed.

Lemma escapeXml_injective_witness :
  escapeXml "<" ≠ escapeXml "&lt;" ∧ escapeXml "&lt;" = "&amp;lt;".
Proof.
  destruct (escapeXml_injective "<" "&lt;") as [Hinj _].
  split; [|reflexivity]. intros E. specialize (Hinj E). discriminate.
Defined.

Lemma trimStart_app_space_eq (s : string) :
  Js.trimStart (s +:+ " ")
  = match Js.trimStart s with
    | EmptyString => EmptyString
    | t => t +:+ " "
    end.
Proof.
  induction s as [|a s IH]; [done|]. simpl.
  destruct (Js.isWhite a); [exact IH|done].
Qed.

Lemma trim_app_space (s : string) : Js.trim (s +:+ " ") = Js.trim s.
Proof.
  unfold Js.trim. rewrite trimStart_app_space_eq.
  destruct (Js.trimStart s) eqn:E; [done|]. apply trimEnd_app_space.
Qed.

Lemma joined_cons (word : string) (group : list string) :
  joined (word :: group) = word +:+ " " +:+ joined group.
Proof. unfold joined. simpl. by rewrite sapp_assoc. Qed.

(** The words of a text, each with a space after it, give the text back
    with one space at its end. *)
Lemma joined_split (text : string) :
  joined (Js.split " " text) = text +:+ " ".
Proof.
  induction text as [|a s IH]; [done|].
  change (Js.split " " (String a s))
    with (if Ascii.eqb a " " then EmptyString :: Js.split " " s
          else match Js.split " " s with
               | w :: ws => String a w :: ws
               | [] => [String a EmptyString]
               end).
  destruct (Ascii.eqb_spec a " "%char) as [->|Ha].
  - rewrite joined_cons, IH. done.
  - pose proof (split_nonempty " " s).
    destruct (Js.split " " s) as [|w ws]; [done|].
    rewrite joined_cons in *. simpl in *. by rewrite IH.
Qed.

Lemma wrapLoop_fits (maxLength : nat) (words : list string)
    (line : string) (lines : list string) :
  (String.length (line +:+ joined words) ≤ S maxLength)%nat →
  wrapLoop maxLength words line lines = (line +:+ joined words, lines).
Proof.
  revert line. induction words as [|word rest IH]; intros line Hle.
  - simpl. by rewrite sapp_nil_r.
  - rewrite joined_cons in *. simpl.
    rewrite !slength_app in Hle. simpl in Hle.
    rewrite (proj2 (Nat.ltb_ge _ _)) by (rewrite slength_app; lia).
    rewrite IH.
    + by rewrite !sapp_assoc.
    + rewrite !slength_app. simpl. lia.
Qed.

(** X8.  A text that fits the width is one line, the text trimmed; a text of
    white space only gives no line at all.  And a text whose first word is
    longer than the width starts with an empty line. *)
Theorem wrapText_short_and_long (text : string) (maxLength : nat) :
  ((String.length text ≤ maxLength)%nat →
   wrapText text maxLength
   = if Js.truthy (Js.trim text) then [Js.trim text] else [])
  ∧ (∀ word others,
       Js.split " " text = word :: others →
       (maxLength < String.length word)%nat →
       ∃ rest, wrapText text maxLength = EmptyString :: rest).
Proof.
  split.
  - intros Hle. unfold wrapText.
    rewrite (wrapLoop_fits maxLength (Js.split " " text) EmptyString []).
    + change (EmptyString +:+ joined (Js.split " " text))
        with (joined (Js.split " " text)).
      rewrite joined_split, trim_app_space. by destruct (Js.truthy _).
    + change (EmptyString +:+ joined (Js.split " " text))
        with (joined (Js.split " " text)).
      rewrite joined_split, slength_app. simpl. lia.
  - intros word others Hsplit Hlong. unfold wrapText. rewrite Hsplit.
    simpl. rewrite (proj2 (Nat.ltb_lt _ _)) by done.
    destruct (wrapLoop_groups maxLength others [word] [Js.trim EmptyString]
                1%nat) as (groups & last & Hrun & _).
    { intros before w after Eq Hfrom.
      destruct before as [|b before]; [simpl in Hfrom; lia|].
      destruct before; simplify_eq/=. }
    change (joined [word]) with ((word +:+ " ") +:+ EmptyString) in Hrun.
    rewrite sapp_nil_r in Hrun. rewrite Hrun.
    destruct (Js.truthy (Js.trim (joined last))); by eexists.
Qed.

Lemma wrapText_short_and_long_witness :
  wrapText "Invalid request URL." 42 = ["Invalid request URL."]
  ∧ ∃ rest,
      wrapText "0123456789012345678901234567890123456789xyz end" 42
      = EmptyString :: rest.
Proof.
  destruct (wrapText_short_and_long "Invalid request URL." 42) as [Hs _].
  destruct (wrapText_short_and_long
              "0123456789012345678901234567890123456789xyz end" 42)
    as [_ Hl].
  split.
  - rewrite Hs by (simpl; lia). reflexivity.
  - apply (Hl "0123456789012345678901234567890123456789xyz" ["end"]).
    + reflexivity.
    + simpl. lia.
Defined.

(** ** Metadata, lookup and configuration *)

(** X9.  What is written as the metadata of a cache file is what the next read
    returns, as far as the JSON text takes it: [readMetadata] after
    [writeMetadata] gives [JSON.parse] of [JSON.stringify] of the record,
    or [null] where that does not parse.  A sidecar that cannot be
    replaced makes the write throw and leaves the directory alone. *)
Theorem metadata_written_is_read `{Runtime} (cacheFile : string)
    (metadata : jsval) (w : world) :
  let metaFile := metadataPathFor cacheFile in
  let text := JSON_stringify metadata in
  ((∀ g, disk w !! metaFile = Some g → locked g = false ∧ readable g = true) →
   ∃ w',
     (writeMetadata cacheFile metadata ;; readMetadata cacheFile) w
     = Ok (default JNull (JSON_parse text)) w'
     ∧ (content <$> disk w' !! metaFile) = Some text
     ∧ (∀ name, name ≠ metaFile → disk w' !! name = disk w !! name)
     ∧ trace w' = trace w ++ [FsWriteFile metaFile text; FsReadFile metaFile])
  ∧ (∀ g, disk w !! metaFile = Some g → locked g = true →
       writeMetadata cacheFile metadata w
       = Threw "EACCES"
           (World (disk w) (clock w)
              (trace w ++ [FsWriteFile metaFile text]))).
Proof.
  intros metaFile text. split.
  - intros Hfree.
    set (recorded := File text (clock w)
                       (from_option readable true (disk w !! metaFile))
                       false).
    assert (writeMetadata cacheFile metadata w
            = Ok tt (World (<[metaFile := recorded]> (disk w)) (clock w)
                       (trace w ++ [FsWriteFile metaFile text]))) as Hwrite.
    { unfold writeMetadata, writeFileSync, bind, emit, getDisk, getClock,
        setDisk, throw, recorded. fold metaFile text. simpl.
      destruct (disk w !! metaFile) as [g|] eqn:Eg; [|done].
      by destruct (Hfree g eq_refl) as [-> _]. }
    assert (metadataOf (<[metaFile := recorded]> (disk w)) cacheFile
            = default JNull (JSON_parse text)) as Hmeta.
    { unfold metadataOf. fold metaFile. rewrite lookup_insert_eq.
      assert (readable recorded = true) as ->; [|done].
      unfold recorded. simpl.
      destruct (disk w !! metaFile) as [g|] eqn:Eg; [|done].
      by destruct (Hfree g eq_refl). }
    eexists. split.
    { unfold bind. rewrite Hwrite, readMetadata_run. cbn [disk clock trace].
      rewrite Hmeta. reflexivity. }
    cbn [disk trace]. rewrite lookup_insert_eq.
    split; [done|]. split.
    + intros name Hne. by rewrite lookup_insert_ne.
    + by rewrite <- app_assoc.
  - intros g Hg Hl.
    unfold writeMetadata, writeFileSync, bind, emit, getDisk, getClock,
      setDisk, throw. fold metaFile text. simpl. by rewrite Hg, Hl.
Qed.

Lemma metadata_written_is_read_witness :
  ∃ w',
    (writeMetadata (H:=Sample.runtime) "k.png"
       (JObj {["contentType" := JStr "image/png"]}) ;;
     readMetadata (H:=Sample.runtime) "k.png") Sample.emptyWorld
    = Ok (JObj {["contentType" := JStr "image/png"]}) w'
    ∧ (content <$> disk w' !! "k.png.json") = Some Sample.metadataText.
Proof.
  destruct (metadata_written_is_read (H:=Sample.runtime) "k.png"
              (JObj {["contentType" := JStr "image/png"]})
              Sample.emptyWorld) as [Hok _].
  destruct Hok as (w' & Hrun & Hcontent & _).
  { intros g Hg. simpl in Hg. by rewrite lookup_empty in Hg. }
  exists w'. split; [exact Hrun|exact Hcontent].
Defined.

(** X10.  A request whose key is in the cache with a metadata record is answered
    from the file and never reaches the upstream: whatever the upstream
    would do, the run is the same, with no request made.  The answer takes
    the length from the file, not from the record, and the content type
    from the record, or [application/octet-stream] where the record has
    none; the only change to the directory is the modification time of the
    payload. *)
Theorem cache_hit_needs_no_upstream `{Runtime} (cfg : Config) (rq : nat)
    (req : request) (up : upstream) (w : world) (targetUrl : target)
    (f : file) :
  let key := cacheKeyFromPath (pathname targetUrl +:+ search targetUrl) in
  let metadata := metadataOf (disk w) key in
  method req = "GET" → url req ≠ "/" → url req ≠ EmptyString →
  resolveUrl (url req) = Some targetUrl →
  disk w !! key = Some f →
  Jv.truthy metadata = true →
  proxyRequest cfg rq req up w
  = Ok tt
      (World (<[key := File (content f) (clock w) (readable f) (locked f)]>
                (disk w))
         (clock w)
         (trace w ++ [FsExists key; FsReadFile (metadataPathFor key);
                      FsStat key;
                      ResWriteHead rq 200
                        [("Content-Type",
                          orElse (Jv.getProp metadata "contentType")
                            (JStr "application/octet-stream"));
                         ("Content-Length", JNum (Z.of_nat (size f)));
                         ("Cache-Control", JStr "public, max-age=86400")];
                      FsUtimes key; ResPipeFile rq key])).
Proof.
  intros key metadata Hm H1 H2 Hu Hf Ht.
  unfold proxyRequest. rewrite Hm.
  change (String.eqb "GET" "GET") with true. cbn [negb].
  rewrite (proj2 (String.eqb_neq _ _) H1), (proj2 (String.eqb_neq _ _) H2).
  cbn [orb]. rewrite Hu. cbv zeta. fold key. clearbody key.
  assert (existsSync key w
          = Ok true (World (disk w) (clock w) (trace w ++ [FsExists key])))
    as Hex.
  { unfold existsSync, bind, emit, getDisk, ret. simpl. rewrite Hf.
    by rewrite bool_decide_eq_true_2 by (by eexists). }
  rewrite (bind_ok _ _ _ _ _ Hex). cbv beta iota.
  unfold bind at 1. rewrite serveCached_run. cbn [disk clock trace].
  subst metadata. rewrite Ht, Hf. cbn [negb]. cbv beta iota.
  unfold ret, successHeaders. by rewrite <- app_assoc.
Qed.

Lemma cache_hit_needs_no_upstream_witness :
  let key := cacheKeyFromPath "/abc123.png" in
  let d : gmap string file :=
    <[key := File "data" 1 true false]>
      {[metadataPathFor key := File "{}" 1 true false]} in
  ∃ w',
    proxyRequest (H:=Sample.runtime) Sample.smallConfig 1
      {| method := "GET"; url := "/abc123.png" |}
      (RequestFails "unreachable") (World d 5 []) = Ok tt w'
    ∧ ResPipeFile 1 key ∈ trace w'
    ∧ UpRequest 1 ∉ trace w'.
Proof.
  intros key d.
  assert (d !! key = Some (File "data" 1 true false)) as Hf
    by apply lookup_insert_eq.
  assert (metadataOf (H:=Sample.runtime) d key = JObj ∅) as Hmeta.
  { unfold metadataOf, d.
    rewrite lookup_insert_ne by (symmetry; apply metadataPath_ne).
    by rewrite lookup_singleton_eq. }
  eexists. split.
  { apply (cache_hit_needs_no_upstream (H:=Sample.runtime)
             Sample.smallConfig 1 _ _ (World d 5 [])
             {| pathname := "/abc123.png"; search := EmptyString;
                protocol := "https:" |} (File "data" 1 true false));
      [reflexivity|discriminate|discriminate|reflexivity|exact Hf|].
    cbn [disk pathname search]. change ("/abc123.png" +:+ EmptyString)
      with "/abc123.png". fold key. by rewrite Hmeta. }
  cbn [trace app]. split.
  - do 5 apply list_elem_of_further. apply list_elem_of_here.
  - intros Hin. repeat (apply elem_of_cons in Hin as [Hin|Hin];
                        [discriminate|]).
    by apply elem_of_nil in Hin.
Defined.

(** X11.  Whatever [config.json] holds, every key of the defaults has a value in
    the loaded configuration, and a file whose JSON is [null], a boolean or
    a number changes nothing: the result is the defaults. *)
Theorem loadConfig_keeps_default_keys `{Runtime} (configFile : option string) :
  (∀ key, is_Some (DEFAULT_CONFIG !! key) →
          is_Some (loadConfig configFile !! key))
  ∧ (∀ raw parsed,
       configFile = Some raw → JSON_parse raw = Some parsed →
       match parsed with
       | JNull | JBool _ | JNum _ => True
       | _ => False
       end →
       loadConfig configFile = DEFAULT_CONFIG).
Proof.
  split.
  - intros key [v Hv]. unfold loadConfig.
    destruct configFile as [raw|]; [|by exists v].
    destruct (JSON_parse raw) as [parsed|]; [|by exists v].
    rewrite spread_lookup, Hv. by destruct (Jv.ownProps parsed !! key).
  - intros raw parsed -> Hp Hprim. unfold loadConfig. rewrite Hp.
    unfold Jv.spread.
    destruct parsed; try done; simpl; apply (left_id_L ∅ (∪)).
Qed.

Lemma loadConfig_keeps_default_keys_witness :
  @loadConfig Sample.runtime (Some "null") = DEFAULT_CONFIG
  ∧ is_Some (@loadConfig Sample.runtime (Some Sample.partialConfigText)
             !! "maxDownloadBytes").
Proof.
  destruct (loadConfig_keeps_default_keys (H:=Sample.runtime) (Some "null"))
    as [_ Hprim].
  destruct (loadConfig_keeps_default_keys (H:=Sample.runtime)
              (Some Sample.partialConfigText)) as [Hkeys _].
  split.
  - by apply (Hprim "null" JNull).
  - apply Hkeys. by eexists.
Defined.
